(** * Social media video uploader: orchestration core

    A shallow embedding of [social_media_uploader_js.js]: clip validation,
    the sliding-window rate limiter, the analytics recorder, the retry
    driver, the batch orchestrator and the upload scheduler, followed by the
    properties of these that the specification states.

    Conventions of the embedding.
    - A JavaScript string is a [string] whose characters are UTF-16 code
      units below 256.
    - An instant ([Date.now()], a [Date]) is a number of milliseconds, a [Z],
      counted from a local midnight; an invalid [Date] (time value NaN) is
      [None].  Every calendar day lasts [msPerDay] milliseconds.  The
      readings of the clock within one synchronous call are one instant.
    - Counters are [N]; the success rate, a quotient of two counters, is a
      rational [Q], of which the number the code stores is the rounding.
    - A plain object used as a table is a [gmap string _]; a [Map] or an
      array whose order is observed is a list.  The objects that are shared
      and mutated in place, the tables of the analytics, live in a heap and
      are held by reference.
    - An asynchronous method is a function of the state of the world that
      also returns the events of the call.  [await sleep(ms)] advances a
      logical clock and is an event, with the delay asked for.  Asynchronous
      calls run one at a time: a tick of the scheduler runs to its end
      before anything else happens.
    - What a platform operation throws is an [Error], with a message.
      Platform identifiers are not names of properties that every object
      inherits.  Observers registered on the event emitters do not throw.
      The file system does not change during a run, and the analytics file
      is written and read back without loss. *)

From Stdlib Require Import ZArith QArith List String Ascii Lia Bool.
From stdpp Require Import base option list gmap strings pretty.

Local Open Scope Z_scope.

(** * Part I: the model *)

(** ** JavaScript helpers *)

Module Js.

(** [WhiteSpace] and [LineTerminator] code points of ECMAScript, the
    characters that [String.prototype.trim] removes. *)
Definition isWhiteSpace (c : N) : bool :=
  ((9 <=? c) && (c <=? 13))%N || (c =? 32)%N || (c =? 160)%N
  || (c =? 5760)%N || ((8192 <=? c) && (c <=? 8202))%N
  || (c =? 8232)%N || (c =? 8233)%N || (c =? 8239)%N || (c =? 8287)%N
  || (c =? 12288)%N || (c =? 65279)%N.

Definition isSpace (a : ascii) : bool := isWhiteSpace (N_of_ascii a).

Fixpoint trimStartChars (l : list ascii) : list ascii :=
  match l with
  | [] => []
  | a :: r => if isSpace a then trimStartChars r else l
  end.

Definition trimEndChars (l : list ascii) : list ascii :=
  rev (trimStartChars (rev l)).

(** [s.trim()] *)
Definition trim (s : string) : string :=
  string_of_list_ascii (trimEndChars (trimStartChars (list_ascii_of_string s))).

(** A nullable string inside a template literal. *)
Definition orNull (o : option string) : string := default "null" o.

(** Truthiness of a string: only the empty string is falsy. *)
Definition truthy (s : string) : bool :=
  match s with EmptyString => false | String _ _ => true end.

Definition isEmpty (s : string) : bool := negb (truthy s).

(** [x.toFixed(2)] for [x = num / den] with [0 <= num] and [0 < den]: the
    integer [n] with [n / 100] nearest to [x], the larger one on a tie. *)
Definition toFixed2 (num den : Z) : string :=
  let n := (2 * 100 * num + den) / (2 * den) in
  let frac := n mod 100 in
  pretty (n / 100) +:+ "." +:+ (if frac <? 10 then "0" else EmptyString) +:+ pretty frac.

(** The value of a character as a digit, letters counting from ten. *)
Definition digitValue (a : ascii) : option Z :=
  let n := Z.of_N (N_of_ascii a) in
  if (48 <=? n) && (n <=? 57) then Some (n - 48)
  else if (97 <=? n) && (n <=? 122) then Some (n - 87)
  else if (65 <=? n) && (n <=? 90) then Some (n - 55)
  else None.

(** The number that the longest prefix of digits of [l] denotes in the
    radix, continuing from [acc]; [None] (NaN) when there is no digit. *)
Fixpoint digitsValue (radix : Z) (l : list ascii) (acc : option Z) : option Z :=
  match l with
  | [] => acc
  | a :: r =>
      match digitValue a with
      | Some d =>
          if d <? radix then digitsValue radix r (Some (default 0 acc * radix + d))
          else acc
      | None => acc
      end
  end.

(** [parseInt(s)] without a radix: white space, a sign, a [0x] prefix for
    radix 16, then digits; [None] is NaN. *)
Definition parseInt (s : string) : option Z :=
  let l := trimStartChars (list_ascii_of_string s) in
  let signed :=
    match l with
    | "-"%char :: r => (-1, r)
    | "+"%char :: r => (1, r)
    | _ => (1, l)
    end in
  let based :=
    match signed.2 with
    | "0"%char :: "x"%char :: r => (16, r)
    | "0"%char :: "X"%char :: r => (16, r)
    | _ => (10, signed.2)
    end in
  Z.mul signed.1 <$> digitsValue based.1 based.2 None.

(** [s.split(sep)] for a one-character separator, [cur] being the part
    read so far, in reverse. *)
Fixpoint splitChars (sep : ascii) (l cur : list ascii) : list string :=
  match l with
  | [] => [string_of_list_ascii (rev cur)]
  | a :: r =>
      if Ascii.eqb a sep then string_of_list_ascii (rev cur) :: splitChars sep r []
      else splitChars sep r (a :: cur)
  end.

Definition split (sep : ascii) (s : string) : list string :=
  splitChars sep (list_ascii_of_string s) [].

Definition msPerDay : Z := 24 * 60 * 60 * 1000.

(** The instant at which the local day of [t] began. *)
Definition startOfDay (t : Z) : Z := t - t mod msPerDay.

(** [d.setHours(hours, minutes, 0, 0)] on the date [d] (NaN arguments make
    the date invalid). *)
Definition setHours (d : option Z) (hours minutes : option Z) : option Z :=
  match d, hours, minutes with
  | Some t, Some h, Some m => Some (startOfDay t + h * 3600000 + m * 60000)
  | _, _, _ => None
  end.

(** [d.setDate(d.getDate() + 1)] *)
Definition nextDay (d : option Z) : option Z := Z.add msPerDay <$> d.

(** [d < now] and [d <= now] on dates; comparisons with an invalid date
    are false. *)
Definition dateLt (d : option Z) (now : Z) : bool :=
  match d with Some t => t <? now | None => false end.

Definition dateLe (d : option Z) (now : Z) : bool :=
  match d with Some t => t <=? now | None => false end.


(** Whether the characters [l] start with the characters [p]. *)
Fixpoint startsWithChars (p l : list ascii) : bool :=
  match p, l with
  | [], _ => true
  | _ :: _, [] => false
  | a :: p', b :: l' => Ascii.eqb a b && startsWithChars p' l'
  end.

Fixpoint includesChars (needle l : list ascii) : bool :=
  startsWithChars needle l ||
  match l with
  | [] => false
  | _ :: r => includesChars needle r
  end.

(** [s.includes(needle)] *)
Definition includes (needle s : string) : bool :=
  includesChars (list_ascii_of_string needle) (list_ascii_of_string s).


(** The class [\w] of a regular expression without the unicode flag. *)
Definition isWordChar (a : ascii) : bool :=
  let n := N_of_ascii a in
  ((48 <=? n) && (n <=? 57))%N || ((65 <=? n) && (n <=? 90))%N || (n =? 95)%N
  || ((97 <=? n) && (n <=? 122))%N.

(** [l.toUpperCase()] for a character of the class [\w]. *)
Definition upperWordChar (a : ascii) : ascii :=
  let n := N_of_ascii a in
  if ((97 <=? n) && (n <=? 122))%N then ascii_of_N (n - 32) else a.

(** [c.toUpperCase()] for one code unit below 256: [sharp s] becomes two
    letters, and the upper case of the micro sign and of [y] with diaeresis
    lies above 255, which is [None] here. *)
Definition toUpperChar (a : ascii) : option string :=
  let n := N_of_ascii a in
  if ((97 <=? n) && (n <=? 122))%N then Some (String (ascii_of_N (n - 32)) EmptyString)
  else if (n =? 223)%N then Some "SS"
  else if (n =? 181)%N || (n =? 255)%N then None
  else if ((224 <=? n) && (n <=? 254))%N && negb (n =? 247)%N
       then Some (String (ascii_of_N (n - 32)) EmptyString)
  else Some (String a EmptyString).

(** [s.toUpperCase()], [None] when the result has a code unit above 255. *)
Fixpoint toUpperCase (s : string) : option string :=
  match s with
  | EmptyString => Some EmptyString
  | String a r =>
      match toUpperChar a, toUpperCase r with
      | Some c, Some r' => Some (c +:+ r')
      | _, _ => None
      end
  end.

End Js.

(** ** Configuration *)

(** The fields of the module-level [CONFIG] object that the orchestration
    core reads. *)
Record Config := mkConfig {
  PLATFORMS_TO_UPLOAD : list string;
  STAGGER_UPLOADS : bool;
  STAGGER_MINUTES : Z;
  MAX_RETRIES : nat;
  RANDOM_DELAY : bool
}.

(** The values written in the source. *)
Definition CONFIG_source : Config := {|
  PLATFORMS_TO_UPLOAD := ["youtube"; "instagram"; "tiktok"];
  STAGGER_UPLOADS := true;
  STAGGER_MINUTES := 30;
  MAX_RETRIES := 3;
  RANDOM_DELAY := true
|}.

(** ** Data models *)

(** The file system as [fs.existsSync] and [fs.statSync] see it: the size in
    bytes of the entry at a path, [None] when nothing is there. *)
Definition FileSystem := string -> option Z.

Record VideoClip := mkVideoClip {
  filePath : string;
  title : string;
  description : string;
  tags : list string;
  privacy : string;
  thumbnailPath : option string;
  scheduleTime : option Z;
  platforms : list string;
  uploadUrls : gmap string string;
  createdAt : Z
}.

Inductive ValidationError :=
| FileNotFound (path : string)
| TitleRequired
| FileTooLarge (sizeBytes : Z).

(** [error.message] of the error that [validate] throws. *)
Definition validationMessage (e : ValidationError) : string :=
  match e with
  | FileNotFound path => "File not found: " +:+ path
  | TitleRequired => "Title is required"
  | FileTooLarge size =>
      "File too large: " +:+ Js.toFixed2 size (1024 * 1024) +:+ "MB (max: 500MB)"
  end.

Definition existsSync (fs : FileSystem) (path : string) : bool :=
  match fs path with Some _ => true | None => false end.

(** [VideoClip.validate]: [inr tt] is the normal return, [inl e] a throw. *)
Definition validate (fs : FileSystem) (clip : VideoClip) : ValidationError + unit :=
  if negb (existsSync fs (filePath clip)) then inl (FileNotFound (filePath clip))
  else if Js.isEmpty (title clip) || Js.isEmpty (Js.trim (title clip)) then inl TitleRequired
  else
    match fs (filePath clip) with
    | None => inl (FileNotFound (filePath clip))
    | Some size =>
        let fileSizeMB := (inject_Z size / inject_Z (1024 * 1024))%Q in
        if negb (Qle_bool fileSizeMB (inject_Z 500)) then inl (FileTooLarge size)
        else inr tt
    end.

(** The largest size, in bytes, that [validate] accepts. *)
Definition maxFileBytes : Z := 500 * (1024 * 1024).

(** Every character of the title is white space (so is the empty title). *)
Definition blankTitle (t : string) : bool :=
  forallb Js.isSpace (list_ascii_of_string t).

(** ** RateLimiter *)

Record RateLimiter := mkRateLimiter {
  maxRequests : Z;
  windowMs : Z;
  requests : list Z
}.

(** [new RateLimiter()]: 50 requests per hour. *)
Definition RateLimiter_new : RateLimiter :=
  {| maxRequests := 50; windowMs := 3600000; requests := [] |}.

(** [Math.min(...xs)]; [None] stands for the [Infinity] of the empty list. *)
Definition minOf (xs : list Z) : option Z :=
  match xs with
  | [] => None
  | x :: r => Some (fold_left Z.min r x)
  end.

(** The delay handed to [sleep]: [windowMs - (now - oldestRequest)], which
    is [Infinity] ([None]) when [oldestRequest] is. *)
Definition waitTime (rl : RateLimiter) (now : Z) (kept : list Z) : option Z :=
  match minOf kept with
  | Some oldestRequest => Some (windowMs rl - (now - oldestRequest))
  | None => None
  end.

(** [RateLimiter.checkLimit], called when the clock reads [now]: the delay
    it sleeps for, if it sleeps, and the limiter it leaves.  The timestamp
    pushed is the [now] read on entry, also when the call has slept. *)
Definition checkLimit (now : Z) (rl : RateLimiter) : option (option Z) * RateLimiter :=
  let kept := filter (fun time => now - time < windowMs rl) (requests rl) in
  let slept :=
    if Z.of_nat (length kept) >=? maxRequests rl then Some (waitTime rl now kept)
    else None in
  (slept, {| maxRequests := maxRequests rl; windowMs := windowMs rl;
             requests := kept ++ [now] |}).

(** The time a [setTimeout]-based sleep takes on the logical clock; an
    infinite delay, one below 1 or one above the largest timer delay is
    served after one millisecond. *)
Definition sleepDuration (delay : option Z) : Z :=
  match delay with
  | Some ms => if (1 <=? ms) && (ms <=? 2147483647) then ms else 1
  | None => 1
  end.

(** The instant at which a call of [checkLimit] entered at [now] returns. *)
Definition returnedAt (now : Z) (slept : option (option Z)) : Z :=
  match slept with
  | Some delay => now + sleepDuration delay
  | None => now
  end.

(** One caller using the limiter: it calls [checkLimit] at the instants
    [calls] (each read as [max] of the wanted instant and the instant the
    previous call returned).  The run lists, per call, the timestamp
    recorded and the instant the call returned. *)
Fixpoint acquireRun (clock : Z) (rl : RateLimiter) (calls : list Z)
  : list (Z * Z) * RateLimiter :=
  match calls with
  | [] => ([], rl)
  | t :: rest =>
      let now := Z.max clock t in
      let out := checkLimit now rl in
      let returned := returnedAt now out.1 in
      let run := acquireRun returned out.2 rest in
      ((now, returned) :: run.1, run.2)
  end.

(** How many of the instants [ts] lie in the interval of length [w] that
    trails from [upTo], that is in [(upTo - w, upTo]]. *)
Definition countInWindow (w upTo : Z) (ts : list Z) : nat :=
  length (filter (fun t => (upTo - w <? t) && (t <=? upTo)) ts).

(** ** Analytics *)

(** [this.data.platformPerformance[platform]] *)
Record PlatformPerformance := mkPerf {
  successRate : Q;
  totalAttempts : N;
  lastUpload : option Z;
  commonErrors : gmap string N
}.

(** One entry of [uploadHistory]. *)
Record BatchData := mkBatchData {
  batchTimestamp : Z;
  clipsCount : nat;
  batchPlatforms : list string;
  batchResults : gmap string (list string);
  batchFailed : list string
}.

(** The objects that [this.data] refers to.  They are created once and then
    mutated in place, so whoever holds a reference sees the mutations. *)
Inductive HeapObject :=
| Counts (table : gmap string N)
| History (batches : list BatchData)
| Performance (table : gmap string PlatformPerformance).

(** A reference is a number; the heap maps references to objects. *)
Abbreviation Ref := N (only parsing).
Abbreviation Heap := (gmap N HeapObject) (only parsing).

(** The top-level object [this.data], and any spread copy [{ ...this.data }]
    of it: a number and four references. *)
Record AnalyticsData := mkData {
  totalUploads : N;
  successfulUploads : Ref;
  failedUploads : Ref;
  uploadHistory : Ref;
  platformPerformance : Ref
}.

Record Analytics := mkAnalytics {
  heap : Heap;
  data : AnalyticsData
}.

Definition readCounts (h : Heap) (r : Ref) : gmap string N :=
  match h !! r with Some (Counts t) => t | _ => ∅ end.

Definition readHistory (h : Heap) (r : Ref) : list BatchData :=
  match h !! r with Some (History l) => l | _ => [] end.

Definition readPerformance (h : Heap) (r : Ref) : gmap string PlatformPerformance :=
  match h !! r with Some (Performance t) => t | _ => ∅ end.

(** The analytics of the constructor, before anything is loaded. *)
Definition Analytics_new : Analytics :=
  {| heap := <[0%N := Counts ∅]> (<[1%N := Counts ∅]>
               (<[2%N := History []]> (<[3%N := Performance ∅]> ∅)));
     data := {| totalUploads := 0; successfulUploads := 0%N; failedUploads := 1%N;
                uploadHistory := 2%N; platformPerformance := 3%N |} |}.

(** [table[key] || 0] *)
Definition countOf (table : gmap string N) (key : string) : N :=
  default 0%N (table !! key).

(** [table[key] = (table[key] || 0) + 1] *)
Definition increment (table : gmap string N) (key : string) : gmap string N :=
  <[key := (countOf table key + 1)%N]> table.

Definition freshPerformance : PlatformPerformance :=
  {| successRate := 0; totalAttempts := 0; lastUpload := None; commonErrors := ∅ |}.

(** [Analytics.recordUpload(platform, success, error)], at the instant [now]. *)
Definition recordUpload (now : Z) (platform : string) (success : bool)
    (error : option string) (a : Analytics) : Analytics :=
  let d := data a in
  let h := heap a in
  let d1 := {| totalUploads := (totalUploads d + 1)%N;
               successfulUploads := successfulUploads d;
               failedUploads := failedUploads d;
               uploadHistory := uploadHistory d;
               platformPerformance := platformPerformance d |} in
  let h1 :=
    if success
    then <[successfulUploads d := Counts (increment (readCounts h (successfulUploads d)) platform)]> h
    else <[failedUploads d := Counts (increment (readCounts h (failedUploads d)) platform)]> h in
  let table := readPerformance h1 (platformPerformance d) in
  let perf0 := default freshPerformance (table !! platform) in
  let attempts := (totalAttempts perf0 + 1)%N in
  let perf :=
    if success then
      {| successRate :=
           (inject_Z (Z.of_N (countOf (readCounts h1 (successfulUploads d)) platform))
            / inject_Z (Z.of_N attempts))%Q;
         totalAttempts := attempts;
         lastUpload := Some now;
         commonErrors := commonErrors perf0 |}
    else
      {| successRate := successRate perf0;
         totalAttempts := attempts;
         lastUpload := Some now;
         commonErrors :=
           match error with
           | Some e => if Js.truthy e then increment (commonErrors perf0) e
                       else commonErrors perf0
           | None => commonErrors perf0
           end |} in
  {| heap := <[platformPerformance d := Performance (<[platform := perf]> table)]> h1;
     data := d1 |}.

(** [Analytics.addUploadBatch(batchData)], at the instant [now]. *)
Definition addUploadBatch (now : Z) (count : nat) (plats : list string)
    (results : gmap string (list string)) (failed : list string) (a : Analytics) : Analytics :=
  let entry := {| batchTimestamp := now; clipsCount := count; batchPlatforms := plats;
                  batchResults := results; batchFailed := failed |} in
  {| heap := <[uploadHistory (data a) :=
                 History (readHistory (heap a) (uploadHistory (data a)) ++ [entry])]> (heap a);
     data := data a |}.

(** [Analytics.getStats()]: the spread copy [{ ...this.data }]. *)
Definition getStats (a : Analytics) : AnalyticsData :=
  {| totalUploads := totalUploads (data a);
     successfulUploads := successfulUploads (data a);
     failedUploads := failedUploads (data a);
     uploadHistory := uploadHistory (data a);
     platformPerformance := platformPerformance (data a) |}.

(** What a holder of the object [d] reads through it in the heap [h]. *)
Record StatsView := mkView {
  viewTotal : N;
  viewSuccessful : gmap string N;
  viewFailed : gmap string N;
  viewHistory : list BatchData;
  viewPerformance : gmap string PlatformPerformance
}.

Definition contents (h : Heap) (d : AnalyticsData) : StatsView :=
  {| viewTotal := totalUploads d;
     viewSuccessful := readCounts h (successfulUploads d);
     viewFailed := readCounts h (failedUploads d);
     viewHistory := readHistory h (uploadHistory d);
     viewPerformance := readPerformance h (platformPerformance d) |}.

(** The stored success rate of a platform, and the two counters the
    specification relates it to. *)
Definition storedRate (a : Analytics) (platform : string) : option Q :=
  successRate <$> (readPerformance (heap a) (platformPerformance (data a)) !! platform).

Definition successes (a : Analytics) (platform : string) : N :=
  countOf (readCounts (heap a) (successfulUploads (data a))) platform.

Definition attempts (a : Analytics) (platform : string) : N :=
  default 0%N (totalAttempts <$> (readPerformance (heap a) (platformPerformance (data a)) !! platform)).

(** The four references of [this.data] name four distinct objects of the
    right kinds. *)
Definition wellFormed (a : Analytics) : Prop :=
  let d := data a in
  (exists t, heap a !! successfulUploads d = Some (Counts t)) /\
  (exists t, heap a !! failedUploads d = Some (Counts t)) /\
  (exists l, heap a !! uploadHistory d = Some (History l)) /\
  (exists t, heap a !! platformPerformance d = Some (Performance t)) /\
  NoDup [successfulUploads d; failedUploads d; uploadHistory d; platformPerformance d].

(** ** Platform uploaders *)

(** What one call of a platform's [upload(clip)] does: it resolves to a
    value, of which only the truthiness and, when truthy, the text matter
    (the empty string stands for every falsy value), or it throws an error
    with a message. *)
Inductive UploadReturn :=
| Returns (identifier : string)
| Throws (message : string).

Module UploadResult.
Record t := mk {
  platform : string;
  success : bool;
  url : option string;
  error : option string;
  uploadTime : Z;
  retryCount : nat
}.
End UploadResult.

(** [new UploadResult(platform, success, url, error)] at the instant [now]. *)
Definition UploadResult_new (now : Z) (platform : string) (success : bool)
    (url error : option string) : UploadResult.t :=
  UploadResult.mk platform success url error now 0.

(** [this.uploaders]: the registry keys and the [platformName] of the
    uploader registered under each. *)
Definition uploaders (platform : string) : option string :=
  if decide (platform = "youtube") then Some "YouTube"
  else if decide (platform = "instagram") then Some "Instagram"
  else if decide (platform = "tiktok") then Some "TikTok"
  else if decide (platform = "linkedin") then Some "LinkedIn"
  else if decide (platform = "twitter") then Some "Twitter"
  else None.

Inductive SleepReason :=
| RateLimitWait (platform : string)
| Backoff (platform : string) (attempt : nat)
| RandomDelay (platform : string)
| Stagger.

Inductive Emission :=
| uploadSuccess (platform clipTitle url : string)
| uploadFailed (platform clipTitle : string) (error : option string)
| batchComplete (results : gmap string (list string)) (failed : list string).

(** What a run does that the outside can see, in the order it happens. *)
Inductive Event :=
| Invoked (platform : string) (attempt : nat) (clip : VideoClip) (outcome : UploadReturn)
| Slept (reason : SleepReason) (delay : option Z)
| Emitted (e : Emission).

(** The result object of [uploadClips]. *)
Record BatchResult := mkBatchResult {
  batchStatus : string;
  results : gmap string (list string);
  failed : list string;
  analyticsSnapshot : AnalyticsData
}.

Section Orchestration.

(** The state of the platforms and of the uploader instances talking to
    them, as far as it decides what [upload] does. *)
Context {PlatformState : Type}.

(** The platform operation: the uploader under a registry key, called with
    a clip, returns or throws, moves the platforms to a new state and takes
    some milliseconds. *)
Variable upload : string -> VideoClip -> PlatformState -> UploadReturn * PlatformState * Z.

(** [Math.floor(Math.random() * 60000)], for the successive calls. *)
Variable randomDelay : nat -> Z.

Variable CONFIG : Config.
Variable fs : FileSystem.

Record World := mkWorld {
  clock : Z;
  limiters : gmap string RateLimiter;
  platformState : PlatformState;
  randomCalls : nat;
  analytics : Analytics
}.

(** An asynchronous method: a function of the world that returns a value,
    the world it leaves, and the events of the call in order. *)
Definition Act (A : Type) : Type := World -> A * World * list Event.

Definition ret {A : Type} (a : A) : Act A := fun w => (a, w, []).

Definition bind {A B : Type} (m : Act A) (k : A -> Act B) : Act B :=
  fun w =>
    let r1 := m w in
    let r2 := k r1.1.1 r1.1.2 in
    (r2.1.1, r2.1.2, r1.2 ++ r2.2).

Local Notation "'let!' x ':=' m 'in' k" := (bind m (fun x => k))
  (at level 10, x name, m at level 100, k at level 200, only parsing).
Local Notation "'do!' m 'in' k" := (bind m (fun _ => k))
  (at level 10, m at level 100, k at level 200, only parsing).

Definition record (e : Event) : Act unit := fun w => (tt, w, [e]).

(** [Date.now()] *)
Definition now : Act Z := fun w => (clock w, w, []).

(** The world [ms] milliseconds later. *)
Definition elapse (ms : Z) (w : World) : World :=
  {| clock := clock w + ms; limiters := limiters w; platformState := platformState w;
     randomCalls := randomCalls w; analytics := analytics w |}.

Definition setPlatformState (st : PlatformState) (w : World) : World :=
  {| clock := clock w; limiters := limiters w; platformState := st;
     randomCalls := randomCalls w; analytics := analytics w |}.

Definition advance (ms : Z) : Act unit := fun w => (tt, elapse ms w, []).

(** [await this.sleep(delay)] *)
Definition sleep (reason : SleepReason) (delay : option Z) : Act unit :=
  do! record (Slept reason delay) in advance (sleepDuration delay).

(** The rate limiter of the uploader under a key: the one of its
    constructor until it has been used. *)
Definition limiterOf (w : World) (platform : string) : RateLimiter :=
  default RateLimiter_new (limiters w !! platform).

Definition setLimiter (platform : string) (rl : RateLimiter) : Act unit := fun w =>
  (tt, {| clock := clock w; limiters := <[platform := rl]> (limiters w);
          platformState := platformState w; randomCalls := randomCalls w;
          analytics := analytics w |}, []).

(** [await this.rateLimiter.checkLimit()] *)
Definition rateLimit (platform : string) : Act unit := fun w =>
  let out := checkLimit (clock w) (limiterOf w platform) in
  (do! setLimiter platform out.2 in
   match out.1 with
   | Some delay => sleep (RateLimitWait platform) delay
   | None => ret tt
   end) w.

(** [await this.upload(clip)] *)
Definition invoke (platform : string) (attempt : nat) (clip : VideoClip)
  : Act UploadReturn := fun w =>
  let out := upload platform clip (platformState w) in
  (out.1.1, setPlatformState out.1.2 (elapse (Z.max 0 out.2) w),
   [Invoked platform attempt clip out.1.1]).

(** The [for] loop of [uploadWithRetry], entered with [attempt] and with
    [remaining] iterations to go, and the [return] after it. *)
Fixpoint attemptsFrom (platform name : string) (clip : VideoClip) (maxRetries : nat)
    (remaining attempt : nat) (lastError : option string) : Act UploadResult.t :=
  match remaining with
  | O => let! t := now in ret (UploadResult_new t name false None lastError)
  | S remaining' =>
      do! rateLimit platform in
      let! result := invoke platform attempt clip in
      match result with
      | Returns identifier =>
          if Js.truthy identifier
          then let! t := now in ret (UploadResult_new t name true (Some identifier) None)
          else attemptsFrom platform name clip maxRetries remaining' (S attempt) lastError
      | Throws message =>
          do! (if (attempt <? maxRetries)%nat
               then sleep (Backoff platform attempt) (Some (2 ^ Z.of_nat attempt * 1000))
               else ret tt) in
          attemptsFrom platform name clip maxRetries remaining' (S attempt) (Some message)
      end
  end.

(** [PlatformUploader.uploadWithRetry(clip, maxRetries)] of the uploader
    registered under [platform], whose [platformName] is [name]. *)
Definition uploadWithRetry (platform name : string) (clip : VideoClip) (maxRetries : nat)
  : Act UploadResult.t :=
  attemptsFrom platform name clip maxRetries maxRetries 1 None.

(** ** The batch orchestrator *)

(** The variables of [uploadClips] that its loops update: the [results]
    table, the [failed] array, and the clips already gone through (the
    loop writes into their [uploadUrls]). *)
Record Batch := mkBatch {
  processed : list VideoClip;
  batchResultsSoFar : gmap string (list string);
  batchFailedSoFar : list string
}.

(** [CONFIG.PLATFORMS_TO_UPLOAD.forEach(platform => results[platform] = [])] *)
Definition initResults (plats : list string) : gmap string (list string) :=
  fold_left (fun acc platform => <[platform := []]> acc) plats ∅.

Definition setUploadUrl (clip : VideoClip) (platform url : string) : VideoClip :=
  {| filePath := filePath clip; title := title clip; description := description clip;
     tags := tags clip; privacy := privacy clip; thumbnailPath := thumbnailPath clip;
     scheduleTime := scheduleTime clip; platforms := platforms clip;
     uploadUrls := <[platform := url]> (uploadUrls clip); createdAt := createdAt clip |}.

(** [this.analytics.recordUpload(platform, success, error)] *)
Definition recordStat (platform : string) (success : bool) (error : option string)
  : Act unit := fun w =>
  (tt, {| clock := clock w; limiters := limiters w; platformState := platformState w;
          randomCalls := randomCalls w;
          analytics := recordUpload (clock w) platform success error (analytics w) |}, []).

(** [Math.floor(Math.random() * 60000)] *)
Definition nextRandomDelay : Act Z := fun w =>
  (randomDelay (randomCalls w),
   {| clock := clock w; limiters := limiters w; platformState := platformState w;
      randomCalls := S (randomCalls w); analytics := analytics w |}, []).

(** [if (CONFIG.RANDOM_DELAY) { await this.sleep(delay) }] *)
Definition randomPause (platform : string) : Act unit :=
  if RANDOM_DELAY CONFIG
  then let! delay := nextRandomDelay in sleep (RandomDelay platform) (Some delay)
  else ret tt.

(** [if (CONFIG.STAGGER_UPLOADS && i < clips.length - 1) { await this.sleep(staggerMs) }],
    [rest] being the clips after the [i]-th. *)
Definition staggerPause (rest : list VideoClip) : Act unit :=
  if STAGGER_UPLOADS CONFIG && negb (bool_decide (rest = []))
  then sleep Stagger (Some (STAGGER_MINUTES CONFIG * 60 * 1000))
  else ret tt.

(** The body of the loop over [CONFIG.PLATFORMS_TO_UPLOAD], for one
    platform and one clip. *)
Definition uploadToPlatform (platform : string) (clip : VideoClip)
    (res : gmap string (list string)) (fl : list string)
  : Act (VideoClip * gmap string (list string) * list string) :=
  match uploaders platform with
  | None => ret (clip, res, fl)
  | Some name =>
      do! randomPause platform in
      let! result := uploadWithRetry platform name clip (MAX_RETRIES CONFIG) in
      if UploadResult.success result then
        let url := Js.orNull (UploadResult.url result) in
        do! recordStat platform true None in
        do! record (Emitted (uploadSuccess platform (title clip) url)) in
        ret (setUploadUrl clip platform url, alter (fun urls => urls ++ [url]) platform res, fl)
      else
        let entry := title clip +:+ " -> " +:+ platform +:+ ": "
                     +:+ Js.orNull (UploadResult.error result) in
        do! recordStat platform false (UploadResult.error result) in
        do! record (Emitted (uploadFailed platform (title clip) (UploadResult.error result))) in
        ret (clip, res, fl ++ [entry])
  end.

(** [for (const platform of CONFIG.PLATFORMS_TO_UPLOAD) { ... }] *)
Fixpoint uploadToPlatforms (plats : list string) (clip : VideoClip)
    (res : gmap string (list string)) (fl : list string)
  : Act (VideoClip * gmap string (list string) * list string) :=
  match plats with
  | [] => ret (clip, res, fl)
  | platform :: rest =>
      let! st := uploadToPlatform platform clip res fl in
      uploadToPlatforms rest st.1.1 st.1.2 st.2
  end.

(** [for (let i = 0; i < clips.length; i++) { ... }], from the clip [clips]
    starts with on. *)
Fixpoint uploadEach (clips : list VideoClip) (b : Batch) : Act Batch :=
  match clips with
  | [] => ret b
  | clip :: rest =>
      match validate fs clip with
      | inl e =>
          uploadEach rest
            {| processed := processed b ++ [clip];
               batchResultsSoFar := batchResultsSoFar b;
               batchFailedSoFar :=
                 batchFailedSoFar b ++ [title clip +:+ ": " +:+ validationMessage e] |}
      | inr _ =>
          let! st := uploadToPlatforms (PLATFORMS_TO_UPLOAD CONFIG) clip
                       (batchResultsSoFar b) (batchFailedSoFar b) in
          do! staggerPause rest in
          uploadEach rest
            {| processed := processed b ++ [st.1.1];
               batchResultsSoFar := st.1.2;
               batchFailedSoFar := st.2 |}
      end
  end.

(** [this.analytics.addUploadBatch({ clipsCount, platforms, results, failed })] *)
Definition recordBatch (count : nat) (res : gmap string (list string)) (fl : list string)
  : Act unit := fun w =>
  (tt, {| clock := clock w; limiters := limiters w; platformState := platformState w;
          randomCalls := randomCalls w;
          analytics := addUploadBatch (clock w) count (PLATFORMS_TO_UPLOAD CONFIG) res fl
                         (analytics w) |}, []).

(** [SocialMediaUploader.uploadClips(clips)]: the result object, and the
    clips as the call leaves them. *)
Definition uploadClips (clips : list VideoClip) : Act (BatchResult * list VideoClip) :=
  let! b := uploadEach clips
              {| processed := []; batchResultsSoFar := initResults (PLATFORMS_TO_UPLOAD CONFIG);
                 batchFailedSoFar := [] |} in
  do! recordBatch (length clips) (batchResultsSoFar b) (batchFailedSoFar b) in
  do! record (Emitted (batchComplete (batchResultsSoFar b) (batchFailedSoFar b))) in
  let! stats := (fun w => (getStats (analytics w), w, [])) in
  ret ({| batchStatus := "completed"; results := batchResultsSoFar b;
          failed := batchFailedSoFar b; analyticsSnapshot := stats |},
       processed b).

End Orchestration.

Arguments World : clear implicits.
Arguments Act : clear implicits.

(** ** The scheduling system *)

Module Job.

Inductive Status := scheduled | executing | completed | failed.

Record t := mk {
  id : string;
  clip : VideoClip;
  scheduleTime : option Z;
  status : Status;
  result : option BatchResult;
  error : option string;
  createdAt : Z
}.

Definition isScheduled (j : t) : bool :=
  match status j with scheduled => true | _ => false end.

End Job.

(** [this.scheduledJobs], a [Map] from job id to job in insertion order,
    and the deletions that [setTimeout] has pending, each with the instant
    it is due and the id it deletes. *)
Record UploadScheduler := mkScheduler {
  scheduledJobs : list (string * Job.t);
  pendingDeletions : list (Z * string)
}.

Definition UploadScheduler_new : UploadScheduler :=
  {| scheduledJobs := []; pendingDeletions := [] |}.

(** [map.set(key, value)]: in place for a key already there, at the end for
    a new one. *)
Fixpoint mapSet (key : string) (value : Job.t) (m : list (string * Job.t))
  : list (string * Job.t) :=
  match m with
  | [] => [(key, value)]
  | (k, v) :: r =>
      if decide (k = key) then (key, value) :: r else (k, v) :: mapSet key value r
  end.

(** [map.get(key)] *)
Fixpoint mapGet (key : string) (m : list (string * Job.t)) : option Job.t :=
  match m with
  | [] => None
  | (k, v) :: r => if decide (k = key) then Some v else mapGet key r
  end.

(** [map.delete(key)] *)
Fixpoint mapDelete (key : string) (m : list (string * Job.t)) : list (string * Job.t) :=
  match m with
  | [] => []
  | (k, v) :: r => if decide (k = key) then mapDelete key r else (k, v) :: mapDelete key r
  end.

(** [UploadScheduler.scheduleUpload(clip, scheduleTime)] at the instant
    [now]; [suffix] is [Math.random().toString(36).substr(2, 9)]. *)
Definition scheduleUpload (now : Z) (suffix : string) (clip : VideoClip)
    (scheduleTime : option Z) (s : UploadScheduler) : string * UploadScheduler :=
  let jobId := "job_" +:+ pretty now +:+ "_" +:+ suffix in
  (jobId,
   {| scheduledJobs :=
        mapSet jobId
          {| Job.id := jobId; Job.clip := clip; Job.scheduleTime := scheduleTime;
             Job.status := Job.scheduled; Job.result := None; Job.error := None;
             Job.createdAt := now |}
          (scheduledJobs s);
      pendingDeletions := pendingDeletions s |}).

(** The two numbers that [time.split(':')] and [parseInt] read from a time
    of day. *)
Definition parseTimeOfDay (time : string) : option Z * option Z :=
  let parts := Js.split ":"%char time in
  (parts !! 0%nat ≫= Js.parseInt, parts !! 1%nat ≫= Js.parseInt).

(** The [scheduleTime] that [schedulePlatformUploads] computes for a time
    of day when the clock reads [now]. *)
Definition nextOccurrence (now : Z) (time : string) : option Z :=
  let hm := parseTimeOfDay time in
  let scheduleTime := Js.setHours (Some now) hm.1 hm.2 in
  if Js.dateLt scheduleTime now then Js.nextDay scheduleTime else scheduleTime.

(** [new VideoClip({ ...clip, platforms: [platform] })] at the instant [now]. *)
Definition platformClip (now : Z) (clip : VideoClip) (platform : string) : VideoClip :=
  {| filePath := filePath clip; title := title clip; description := description clip;
     tags := tags clip; privacy := privacy clip; thumbnailPath := thumbnailPath clip;
     scheduleTime := scheduleTime clip; platforms := [platform];
     uploadUrls := ∅; createdAt := now |}.

(** The loop of [schedulePlatformUploads] over the entries of
    [platformSchedule]; [suffixes k] is the random part of the id of the
    [k]-th job created from [n] on. *)
Fixpoint scheduleEntries (now : Z) (suffixes : nat -> string) (n : nat)
    (clip : VideoClip) (entries : list (string * string)) (s : UploadScheduler)
  : list string * UploadScheduler :=
  match entries with
  | [] => ([], s)
  | (platform, time) :: rest =>
      let '(jobId, s1) :=
        scheduleUpload now (suffixes n) (platformClip now clip platform)
          (nextOccurrence now time) s in
      let '(jobIds, s2) := scheduleEntries now suffixes (S n) clip rest s1 in
      (jobId :: jobIds, s2)
  end.

(** [UploadScheduler.schedulePlatformUploads(clip, platformSchedule)], the
    schedule given as [Object.entries] lists it. *)
Definition schedulePlatformUploads (now : Z) (suffixes : nat -> string)
    (clip : VideoClip) (platformSchedule : list (string * string)) (s : UploadScheduler)
  : list string * UploadScheduler :=
  scheduleEntries now suffixes 0 clip platformSchedule s.

(** The retention delay of a resolved job: 24 hours. *)
Definition retentionMs : Z := 24 * 60 * 60 * 1000.

(** What a tick does to the jobs, in the order it happens, each with the
    instant it happens at. *)
Inductive SchedulerEvent :=
| StatusSet (at_ : Z) (jobId : string) (status : Job.Status)
| BatchStarted (at_ : Z) (jobId : string) (clips : list VideoClip)
| JobEmitted (at_ : Z) (name : string) (jobId : string)
| DeletionSet (at_ : Z) (jobId : string) (due : Z).

Section Scheduling.

(** Whatever the batch orchestrator works on, with its clock. *)
Context {Env : Type}.
Variable clockOf : Env -> Z.

(** [new SocialMediaUploader()] followed by [uploadClips([clip])]: the
    result object or the message of the error thrown, the clip as the call
    leaves it, and the environment after the call. *)
Variable runBatch : VideoClip -> Env -> (string + BatchResult) * VideoClip * Env.

Definition setStatus (j : Job.t) (st : Job.Status) (c : VideoClip)
    (r : option BatchResult) (e : option string) : Job.t :=
  {| Job.id := Job.id j; Job.clip := c; Job.scheduleTime := Job.scheduleTime j;
     Job.status := st; Job.result := r; Job.error := e; Job.createdAt := Job.createdAt j |}.

(** The body of the loop of [checkScheduledJobs] for one entry of the map:
    the job as the body leaves it, the environment, the deletion it has
    set a timer for, and what happened. *)
Definition checkJob (now : Z) (jobId : string) (job : Job.t) (env : Env)
  : Job.t * Env * list (Z * string) * list SchedulerEvent :=
  if Job.isScheduled job && Js.dateLe (Job.scheduleTime job) now then
    let started := clockOf env in
    let out := runBatch (Job.clip job) env in
    let resolved := clockOf out.2 in
    match out.1.1 with
    | inr result =>
        (setStatus job Job.completed out.1.2 (Some result) (Job.error job), out.2,
         [(resolved + retentionMs, jobId)],
         [StatusSet started jobId Job.executing; BatchStarted started jobId [Job.clip job];
          StatusSet resolved jobId Job.completed; JobEmitted resolved "jobCompleted" jobId;
          DeletionSet resolved jobId (resolved + retentionMs)])
    | inl message =>
        (setStatus job Job.failed out.1.2 (Job.result job) (Some message), out.2,
         [(resolved + retentionMs, jobId)],
         [StatusSet started jobId Job.executing; BatchStarted started jobId [Job.clip job];
          StatusSet resolved jobId Job.failed; JobEmitted resolved "jobFailed" jobId;
          DeletionSet resolved jobId (resolved + retentionMs)])
    end
  else (job, env, [], []).

(** [for (const [jobId, job] of this.scheduledJobs.entries()) { ... }] *)
Fixpoint checkJobs (now : Z) (entries : list (string * Job.t)) (env : Env)
  : list (string * Job.t) * Env * list (Z * string) * list SchedulerEvent :=
  match entries with
  | [] => ([], env, [], [])
  | (jobId, job) :: rest =>
      let one := checkJob now jobId job env in
      let others := checkJobs now rest one.1.1.2 in
      ((jobId, one.1.1.1) :: others.1.1.1, others.1.1.2,
       one.1.2 ++ others.1.2, one.2 ++ others.2)
  end.

(** [UploadScheduler.checkScheduledJobs()], one tick. *)
Definition checkScheduledJobs (s : UploadScheduler) (env : Env)
  : UploadScheduler * Env * list SchedulerEvent :=
  let now := clockOf env in
  let out := checkJobs now (scheduledJobs s) env in
  ({| scheduledJobs := out.1.1.1;
      pendingDeletions := pendingDeletions s ++ out.1.2 |},
   out.1.1.2, out.2).

End Scheduling.

(** The timers due by the instant [t] fire: each deletes its job id. *)
Definition fireDeletions (t : Z) (s : UploadScheduler) : UploadScheduler :=
  {| scheduledJobs :=
       fold_left (fun m d => if d.1 <=? t then mapDelete d.2 m else m)
         (pendingDeletions s) (scheduledJobs s);
     pendingDeletions := filter (fun d => t < d.1) (pendingDeletions s) |}.

(** The ids in the active job set. *)
Definition activeIds (s : UploadScheduler) : list string := map fst (scheduledJobs s).

(** The job an event of a tick is about. *)
Definition eventJob (e : SchedulerEvent) : string :=
  match e with
  | StatusSet _ jobId _ => jobId
  | BatchStarted _ jobId _ => jobId
  | JobEmitted _ _ jobId => jobId
  | DeletionSet _ jobId _ => jobId
  end.

(** The name under which the resolution of a job is announced. *)
Definition resolutionEvent (st : Job.Status) : string :=
  match st with
  | Job.completed => "jobCompleted"
  | _ => "jobFailed"
  end.

(** ** The scheduler running the orchestrator *)

Section Application.

Context {PlatformState : Type}.
Variable upload : string -> VideoClip -> PlatformState -> UploadReturn * PlatformState * Z.
Variable randomDelay : nat -> Z.
Variable CONFIG : Config.
Variable fs : FileSystem.

(** What constructing new uploader instances does to the state that
    decides the behaviour of [upload]. *)
Variable freshInstances : PlatformState -> PlatformState.

(** A reference that no object of the heap has. *)
Definition nextRef (h : Heap) : Ref :=
  map_fold (fun r _ acc => N.max (N.succ r) acc) 0%N h.

(** [new Analytics()] when the analytics [a] were the last saved: the
    constructor loads the file into objects of its own. *)
Definition Analytics_load (a : Analytics) : Analytics :=
  let v := contents (heap a) (data a) in
  let r := nextRef (heap a) in
  {| heap := <[r := Counts (viewSuccessful v)]>
               (<[(r + 1)%N := Counts (viewFailed v)]>
                  (<[(r + 2)%N := History (viewHistory v)]>
                     (<[(r + 3)%N := Performance (viewPerformance v)]> (heap a))));
     data := {| totalUploads := viewTotal v; successfulUploads := r;
                failedUploads := (r + 1)%N; uploadHistory := (r + 2)%N;
                platformPerformance := (r + 3)%N |} |}.

(** [new SocialMediaUploader()]: new uploaders with new rate limiters, and
    analytics loaded from the file. *)
Definition SocialMediaUploader_new (w : World PlatformState) : World PlatformState :=
  {| clock := clock w; limiters := ∅; platformState := freshInstances (platformState w);
     randomCalls := randomCalls w; analytics := Analytics_load (analytics w) |}.

(** The environment of the scheduler: the world, and the events of the
    batches run so far. *)
Definition Running : Type := World PlatformState * list Event.

(** What a tick runs for a due job:
    [new SocialMediaUploader().uploadClips([job.clip])]. *)
Definition runJob (clip : VideoClip) (env : Running)
  : (string + BatchResult) * VideoClip * Running :=
  let out := uploadClips upload randomDelay CONFIG fs [clip] (SocialMediaUploader_new env.1) in
  (inr out.1.1.1, default clip (head out.1.1.2), (out.1.2, env.2 ++ out.2)).

End Application.

(** ** Sample collaborators *)

Module Sample.

(** Platforms whose state is the number of [upload] calls made so far:
    [instagram] always throws, [tiktok] always returns the empty string,
    [youtube] throws on the very first call and returns an identifier
    afterwards, the others always return an identifier.  A call takes
    100 ms. *)
Definition upload : string -> VideoClip -> nat -> UploadReturn * nat * Z :=
  fun platform _ calls =>
    if decide (platform = "instagram") then (Throws "quota_exceeded", S calls, 100)
    else if decide (platform = "tiktok") then (Returns EmptyString, S calls, 100)
    else if decide (platform = "youtube") then
      match calls with
      | O => (Throws "network", 1%nat, 100)
      | S _ => (Returns "https://youtube.com/watch?v=yt_1", S calls, 100)
      end
    else (Returns ("id_" +:+ platform), S calls, 100).

(** Platforms that always return an identifier. *)
Definition reliable : string -> VideoClip -> nat -> UploadReturn * nat * Z :=
  fun platform _ calls => (Returns ("id_" +:+ platform), S calls, 100).

Definition noDelay : nat -> Z := fun _ => 0.

(** One file of 1 MB and one of 600 MB. *)
Definition files : FileSystem := fun path =>
  if decide (path = "clip.mp4") then Some 1048576
  else if decide (path = "huge.mp4") then Some 629145600
  else None.

Definition clip (path name : string) (plats : list string) : VideoClip :=
  {| filePath := path; title := name; description := "about"; tags := ["shorts"];
     privacy := "public"; thumbnailPath := None; scheduleTime := None;
     platforms := plats; uploadUrls := ∅; createdAt := 0 |}.

Definition world (now : Z) : World nat :=
  {| clock := now; limiters := ∅; platformState := 0%nat; randomCalls := 0;
     analytics := Analytics_new |}.

Definition suffixes (k : nat) : string := "r" +:+ pretty k.

(** A caller of the rate limiter: 50 calls at the instant 0, one after
    half an hour, 50 after an hour. *)
Definition burst : list Z := repeat 0 50 ++ [1800000] ++ repeat 3600000 50.

(** A scheduler environment over these platforms, in which every upload
    succeeds and the configuration is that of the source. *)
Definition clockOf (env : World nat * list Event) : Z := clock env.1.

Definition runBatch : VideoClip -> World nat * list Event ->
                      (string + BatchResult) * VideoClip * (World nat * list Event) :=
  runJob reliable noDelay CONFIG_source files (fun st => st).

(** A job scheduled for the instant 0, and a job already completed. *)
Definition jobA : Job.t :=
  {| Job.id := "job_a"; Job.clip := clip "clip.mp4" "T" ["tiktok"];
     Job.scheduleTime := Some 0; Job.status := Job.scheduled; Job.result := None;
     Job.error := None; Job.createdAt := 0 |}.

Definition jobB : Job.t :=
  {| Job.id := "job_b"; Job.clip := clip "clip.mp4" "U" ["youtube"];
     Job.scheduleTime := Some 0; Job.status := Job.completed; Job.result := None;
     Job.error := None; Job.createdAt := 0 |}.

Definition scheduler : UploadScheduler :=
  {| scheduledJobs := [("job_a", jobA); ("job_b", jobB)]; pendingDeletions := [] |}.

End Sample.

(** ** Observations on the events of a run *)

(** The calls of [upload]: platform, attempt number, outcome. *)
Definition invocations (evs : list Event) : list (string * nat * UploadReturn) :=
  omap (fun e => match e with Invoked p a _ o => Some (p, a, o) | _ => None end) evs.

(** The backoff sleeps: platform, attempt they follow, delay. *)
Definition backoffs (evs : list Event) : list (string * nat * option Z) :=
  omap (fun e => match e with Slept (Backoff p a) d => Some (p, a, d) | _ => None end) evs.

(** The backoff sleep that follows an invocation, if one does. *)
Definition backoffAfter (maxRetries : nat) (i : string * nat * UploadReturn)
  : option (string * nat * option Z) :=
  match i.2 with
  | Throws _ =>
      if (i.1.2 <? maxRetries)%nat
      then Some (i.1.1, i.1.2, Some (2 ^ Z.of_nat i.1.2 * 1000))
      else None
  | Returns _ => None
  end.

(** The invocations of a run from [attempt] on in which every call of
    [upload] throws, with the messages thrown. *)
Definition throwing (platform : string) (attempt : nat) (messages : list string)
  : list (string * nat * UploadReturn) :=
  imap (fun i m => (platform, (attempt + i)%nat, Throws m)) messages.

(** The pairs of clip title and platform of the first attempts, that is
    the pairs for which an upload was attempted at all. *)
Definition firstAttempts (evs : list Event) : list (string * string) :=
  omap (fun e => match e with
                 | Invoked p 1 c _ => Some (title c, p)
                 | _ => None
                 end) evs.











(** ** The rest of the configuration *)

(** The values of [CONFIG] that the orchestration core does not read: the
    credential sections, the defaults of a clip and the schedule settings. *)
Record Settings := mkSettings {
  YOUTUBE_CLIENT_ID : string;
  YOUTUBE_CLIENT_SECRET : string;
  YOUTUBE_REDIRECT_URI : string;
  INSTAGRAM_ACCESS_TOKEN : string;
  INSTAGRAM_BUSINESS_ACCOUNT_ID : string;
  TIKTOK_CLIENT_KEY : string;
  TIKTOK_CLIENT_SECRET : string;
  TIKTOK_REDIRECT_URI : string;
  LINKEDIN_CLIENT_ID : string;
  LINKEDIN_CLIENT_SECRET : string;
  LINKEDIN_PERSON_ID : string;
  TWITTER_API_KEY : string;
  TWITTER_API_SECRET : string;
  TWITTER_ACCESS_TOKEN : string;
  TWITTER_ACCESS_TOKEN_SECRET : string;
  AUTO_PUBLISH : bool;
  DEFAULT_PRIVACY : string;
  DEFAULT_TAGS : list string;
  DEFAULT_DESCRIPTION : string;
  SCHEDULED_UPLOAD : bool;
  UPLOAD_SCHEDULE : list (string * string);
  TIMEZONE : string;
  DELAY_BETWEEN_PLATFORMS : Z
}.

(** The value of a property of [CONFIG]. *)
Inductive ConfigValue :=
| Text (s : string)
| Number (n : Z)
| Flag (b : bool)
| Strings (l : list string)
| Group (entries : list (string * string)).

(** The properties of the object [CONFIG], in the order of the source. *)
Definition CONFIG_properties (c : Config) (s : Settings) : list (string * ConfigValue) :=
  [("PLATFORMS_TO_UPLOAD", Strings (PLATFORMS_TO_UPLOAD c));
   ("YOUTUBE", Group [("CLIENT_ID", YOUTUBE_CLIENT_ID s);
                      ("CLIENT_SECRET", YOUTUBE_CLIENT_SECRET s);
                      ("REDIRECT_URI", YOUTUBE_REDIRECT_URI s)]);
   ("INSTAGRAM", Group [("ACCESS_TOKEN", INSTAGRAM_ACCESS_TOKEN s);
                        ("BUSINESS_ACCOUNT_ID", INSTAGRAM_BUSINESS_ACCOUNT_ID s)]);
   ("TIKTOK", Group [("CLIENT_KEY", TIKTOK_CLIENT_KEY s);
                     ("CLIENT_SECRET", TIKTOK_CLIENT_SECRET s);
                     ("REDIRECT_URI", TIKTOK_REDIRECT_URI s)]);
   ("LINKEDIN", Group [("CLIENT_ID", LINKEDIN_CLIENT_ID s);
                       ("CLIENT_SECRET", LINKEDIN_CLIENT_SECRET s);
                       ("PERSON_ID", LINKEDIN_PERSON_ID s)]);
   ("TWITTER", Group [("API_KEY", TWITTER_API_KEY s);
                      ("API_SECRET", TWITTER_API_SECRET s);
                      ("ACCESS_TOKEN", TWITTER_ACCESS_TOKEN s);
                      ("ACCESS_TOKEN_SECRET", TWITTER_ACCESS_TOKEN_SECRET s)]);
   ("AUTO_PUBLISH", Flag (AUTO_PUBLISH s));
   ("STAGGER_UPLOADS", Flag (STAGGER_UPLOADS c));
   ("STAGGER_MINUTES", Number (STAGGER_MINUTES c));
   ("MAX_RETRIES", Number (Z.of_nat (MAX_RETRIES c)));
   ("DEFAULT_PRIVACY", Text (DEFAULT_PRIVACY s));
   ("DEFAULT_TAGS", Strings (DEFAULT_TAGS s));
   ("DEFAULT_DESCRIPTION", Text (DEFAULT_DESCRIPTION s));
   ("SCHEDULED_UPLOAD", Flag (SCHEDULED_UPLOAD s));
   ("UPLOAD_SCHEDULE", Group (UPLOAD_SCHEDULE s));
   ("TIMEZONE", Text (TIMEZONE s));
   ("DELAY_BETWEEN_PLATFORMS", Number (DELAY_BETWEEN_PLATFORMS s));
   ("RANDOM_DELAY", Flag (RANDOM_DELAY c))].

(** [object[key]] on the properties of an object. *)
Fixpoint property (key : string) (props : list (string * ConfigValue)) : option ConfigValue :=
  match props with
  | [] => None
  | (k, v) :: r => if decide (k = key) then Some v else property key r
  end.

(** Truthiness of a property value. *)
Definition isTruthy (v : ConfigValue) : bool :=
  match v with
  | Text s => Js.truthy s
  | Number n => negb (n =? 0)
  | Flag b => b
  | Strings _ => true
  | Group _ => true
  end.

(** [Object.entries(value)]: the characters of a string and the elements
    of an array under their indices, the properties of an object, nothing
    for a number or a boolean. *)
Definition entriesOf (v : ConfigValue) : list (string * string) :=
  match v with
  | Text s => imap (fun i a => (pretty i, String a EmptyString)) (list_ascii_of_string s)
  | Number _ => []
  | Flag _ => []
  | Strings l => imap (fun i x => (pretty i, x)) l
  | Group entries => entries
  end.

(** [!value || value.includes('your_') || value.includes('_here')] *)
Definition looksUnset (value : string) : bool :=
  Js.isEmpty value || Js.includes "your_" value || Js.includes "_here" value.

(** The body of the [forEach] of [validateCredentials] for one platform:
    what it pushes to [missing].  A platform whose upper case leaves the
    range of the strings names no property of [CONFIG]. *)
Definition missingFor (props : list (string * ConfigValue)) (platform : string) : list string :=
  match Js.toUpperCase platform with
  | None => []
  | Some key =>
      match property key props with
      | None => []
      | Some platformConfig =>
          if isTruthy platformConfig
          then map (fun e => key +:+ " " +:+ e.1)
                 (List.filter (fun e => looksUnset e.2) (entriesOf platformConfig))
          else []
      end
  end.

(** [SocialMediaUploader.validateCredentials()] *)
Definition validateCredentials (c : Config) (s : Settings) : list string :=
  flat_map (missingFor (CONFIG_properties c s)) (PLATFORMS_TO_UPLOAD c).

(** [validateConfiguration()]: whether nothing is missing. *)
Definition validateConfiguration (c : Config) (s : Settings) : bool :=
  match validateCredentials c s with
  | [] => true
  | _ :: _ => false
  end.

(** ** The platform uploaders *)

(** [authenticate()] of an uploader whose [authenticated] flag is
    [authenticated]: what it resolves to and the flag it leaves. *)
Definition YouTubeUploader_authenticate (s : Settings) (authenticated : bool) : bool * bool :=
  if negb (String.eqb (YOUTUBE_CLIENT_ID s) "your_youtube_client_id_here")
  then (true, true)
  else (false, authenticated).

(** [accepted] tells whether the request that verifies the token goes
    through. *)
Definition InstagramUploader_authenticate (s : Settings) (accepted : bool)
    (authenticated : bool) : bool * bool :=
  if Js.isEmpty (INSTAGRAM_ACCESS_TOKEN s)
     || String.eqb (INSTAGRAM_ACCESS_TOKEN s) "your_instagram_long_lived_access_token_here"
  then (false, authenticated)
  else if accepted then (true, true) else (false, authenticated).

Definition TikTokUploader_authenticate (authenticated : bool) : bool * bool := (true, true).

Definition LinkedInUploader_authenticate (authenticated : bool) : bool * bool := (true, true).

Definition TwitterUploader_authenticate (s : Settings) (authenticated : bool) : bool * bool :=
  if Js.isEmpty (TWITTER_API_KEY s) || String.eqb (TWITTER_API_KEY s) "your_twitter_api_key_here"
  then (false, authenticated)
  else (true, true).

(** The shape of every [upload(clip)]: the guard
    [if (!this.authenticated && !await this.authenticate()) throw ...],
    [authenticate] being called only by an uploader not yet authenticated,
    then the mock upload, which returns [identifier] after [duration]
    milliseconds.  The result is what the call returns or throws, the flag
    it leaves and the time it takes. *)
Definition guardedUpload (name : string) (authenticated : bool) (authenticate : bool * bool)
    (identifier : string) (duration : Z) : UploadReturn * bool * Z :=
  if authenticated then (Returns identifier, authenticated, duration)
  else if authenticate.1 then (Returns identifier, authenticate.2, duration)
  else (Throws (name +:+ " authentication failed"), authenticate.2, 0).

(** [upload(clip)] of each uploader, called when the clock reads [now]. *)
Definition YouTubeUploader_upload (s : Settings) (now : Z) (clip : VideoClip)
    (authenticated : bool) : UploadReturn * bool * Z :=
  guardedUpload "YouTube" authenticated (YouTubeUploader_authenticate s authenticated)
    ("https://youtube.com/watch?v=" +:+ ("yt_" +:+ pretty now)) 2000.

Definition InstagramUploader_upload (s : Settings) (accepted : bool) (now : Z)
    (clip : VideoClip) (authenticated : bool) : UploadReturn * bool * Z :=
  guardedUpload "Instagram" authenticated (InstagramUploader_authenticate s accepted authenticated)
    (if AUTO_PUBLISH s
     then "https://instagram.com/reel/" +:+ ("ig_media_" +:+ pretty now)
     else "https://instagram.com/draft/" +:+ ("ig_container_" +:+ pretty now)) 0.

Definition TikTokUploader_upload (now : Z) (clip : VideoClip) (authenticated : bool)
  : UploadReturn * bool * Z :=
  guardedUpload "TikTok" authenticated (TikTokUploader_authenticate authenticated)
    ("https://tiktok.com/@user/video/" +:+ ("tt_" +:+ pretty now)) 1500.

Definition LinkedInUploader_upload (now : Z) (clip : VideoClip) (authenticated : bool)
  : UploadReturn * bool * Z :=
  guardedUpload "LinkedIn" authenticated (LinkedInUploader_authenticate authenticated)
    ("https://linkedin.com/posts/" +:+ ("li_" +:+ pretty now)) 1800.

Definition TwitterUploader_upload (s : Settings) (now : Z) (clip : VideoClip)
    (authenticated : bool) : UploadReturn * bool * Z :=
  guardedUpload "Twitter" authenticated (TwitterUploader_authenticate s authenticated)
    ("https://twitter.com/user/status/" +:+ ("tw_" +:+ pretty now)) 1200.

(** The five uploaders of a [SocialMediaUploader], as far as they decide
    what [upload] does: the [authenticated] flag of each, and how many
    calls of [upload] there have been. *)
Record Instances := mkInstances {
  youtubeAuthenticated : bool;
  instagramAuthenticated : bool;
  tiktokAuthenticated : bool;
  linkedinAuthenticated : bool;
  twitterAuthenticated : bool;
  uploadCalls : nat
}.

(** The uploaders that the constructor of [SocialMediaUploader] creates. *)
Definition Instances_new (calls : nat) : Instances :=
  {| youtubeAuthenticated := false; instagramAuthenticated := false;
     tiktokAuthenticated := false; linkedinAuthenticated := false;
     twitterAuthenticated := false; uploadCalls := calls |}.

Section Uploaders.

Variable SETTINGS : Settings.

(** What the [k]-th call of [upload] reads from the clock for its mock
    identifier, and whether a token verification made by it goes through. *)
Variable clockRead : nat -> Z.
Variable tokenAccepted : nat -> bool.

(** [this.uploaders[platform].upload(clip)] for the keys of the registry;
    the orchestrator calls no other. *)
Definition registryUpload (platform : string) (clip : VideoClip) (st : Instances)
  : UploadReturn * Instances * Z :=
  let k := uploadCalls st in
  let now := clockRead k in
  if decide (platform = "youtube") then
    let out := YouTubeUploader_upload SETTINGS now clip (youtubeAuthenticated st) in
    (out.1.1,
     {| youtubeAuthenticated := out.1.2; instagramAuthenticated := instagramAuthenticated st;
        tiktokAuthenticated := tiktokAuthenticated st;
        linkedinAuthenticated := linkedinAuthenticated st;
        twitterAuthenticated := twitterAuthenticated st; uploadCalls := S k |}, out.2)
  else if decide (platform = "instagram") then
    let out := InstagramUploader_upload SETTINGS (tokenAccepted k) now clip
                 (instagramAuthenticated st) in
    (out.1.1,
     {| youtubeAuthenticated := youtubeAuthenticated st; instagramAuthenticated := out.1.2;
        tiktokAuthenticated := tiktokAuthenticated st;
        linkedinAuthenticated := linkedinAuthenticated st;
        twitterAuthenticated := twitterAuthenticated st; uploadCalls := S k |}, out.2)
  else if decide (platform = "tiktok") then
    let out := TikTokUploader_upload now clip (tiktokAuthenticated st) in
    (out.1.1,
     {| youtubeAuthenticated := youtubeAuthenticated st;
        instagramAuthenticated := instagramAuthenticated st; tiktokAuthenticated := out.1.2;
        linkedinAuthenticated := linkedinAuthenticated st;
        twitterAuthenticated := twitterAuthenticated st; uploadCalls := S k |}, out.2)
  else if decide (platform = "linkedin") then
    let out := LinkedInUploader_upload now clip (linkedinAuthenticated st) in
    (out.1.1,
     {| youtubeAuthenticated := youtubeAuthenticated st;
        instagramAuthenticated := instagramAuthenticated st;
        tiktokAuthenticated := tiktokAuthenticated st; linkedinAuthenticated := out.1.2;
        twitterAuthenticated := twitterAuthenticated st; uploadCalls := S k |}, out.2)
  else if decide (platform = "twitter") then
    let out := TwitterUploader_upload SETTINGS now clip (twitterAuthenticated st) in
    (out.1.1,
     {| youtubeAuthenticated := youtubeAuthenticated st;
        instagramAuthenticated := instagramAuthenticated st;
        tiktokAuthenticated := tiktokAuthenticated st;
        linkedinAuthenticated := linkedinAuthenticated st; twitterAuthenticated := out.1.2;
        uploadCalls := S k |}, out.2)
  else (Throws "upload() must be implemented by subclass", st, 0).

End Uploaders.


(** [PlatformUploader.generateRandomDelay()], [random] being
    [Math.floor(Math.random() * 60 * 1000)]. *)
Definition generateRandomDelay (c : Config) (random : Z) : Z :=
  if RANDOM_DELAY c then random else 0.

(** ** Starting and stopping the scheduler *)

(** The fields of an [UploadScheduler] that [startScheduler] and
    [stopScheduler] use, with the interval timers that the scheduler has
    set: those that are ticking, and how many it has set so far. *)
Record SchedulerTimer := mkTimer {
  isRunning : bool;
  schedulerInterval : option nat;
  ticking : list nat;
  timersSet : nat
}.

(** The fields as the constructor leaves them. *)
Definition SchedulerTimer_new : SchedulerTimer :=
  {| isRunning := false; schedulerInterval := None; ticking := []; timersSet := 0 |}.

(** [UploadScheduler.startScheduler()] *)
Definition startScheduler (t : SchedulerTimer) : SchedulerTimer :=
  if isRunning t then t
  else {| isRunning := true; schedulerInterval := Some (timersSet t);
          ticking := ticking t ++ [timersSet t]; timersSet := S (timersSet t) |}.

(** [UploadScheduler.stopScheduler()]; [clearInterval] removes the timer
    from those that are ticking, if it is one of them. *)
Definition stopScheduler (t : SchedulerTimer) : SchedulerTimer :=
  match schedulerInterval t with
  | Some timer =>
      {| isRunning := false; schedulerInterval := Some timer;
         ticking := List.filter (fun x => negb (Nat.eqb x timer)) (ticking t);
         timersSet := timersSet t |}
  | None => t
  end.

(** A call of one of the two. *)
Inductive TimerCall := Start | Stop.

Definition timerCall (t : SchedulerTimer) (c : TimerCall) : SchedulerTimer :=
  match c with
  | Start => startScheduler t
  | Stop => stopScheduler t
  end.

(** The state of the timer fields after any calls: running or not, with
    the timer that [schedulerInterval] holds ticking exactly when running. *)
Inductive timerState (t : SchedulerTimer) : Prop :=
| timerIdle :
    isRunning t = false -> ticking t = [] ->
    (forall x, schedulerInterval t = Some x -> (x < timersSet t)%nat) ->
    timerState t
| timerRunning (x : nat) :
    isRunning t = true -> schedulerInterval t = Some x -> ticking t = [x] ->
    (x < timersSet t)%nat ->
    timerState t.

(** [UploadScheduler.getScheduledJobs()] *)
Definition getScheduledJobs (s : UploadScheduler) : list Job.t := map snd (scheduledJobs s).

(** ** The other entry points of the uploader *)


(** The [options] of [uploadSingleClip], a property that is not given
    being [None]; [scheduleTime] is a [Date]. *)
Module Options.
Record t := mk {
  description : option string;
  tags : option (list string);
  privacy : option string;
  platforms : option (list string);
  scheduleTime : option (option Z)
}.
End Options.


(** [{ status: 'error', error, results: {}, failed: [error] }] *)
Module ErrorResult.
Record t := mk {
  status : string;
  error : string;
  results : gmap string (list string);
  failed : list string
}.
End ErrorResult.




(** [s.replace(/_/g, ' ')] *)
Definition underscoresToSpaces (l : list ascii) : list ascii :=
  map (fun a => if Ascii.eqb a "_" then " "%char else a) l.

(** [s.replace(/\b\w/g, l => l.toUpperCase())], [inWord] telling whether
    the character before the ones of [l] is a word character. *)
Fixpoint capitalizeWords (inWord : bool) (l : list ascii) : list ascii :=
  match l with
  | [] => []
  | a :: r =>
      (if Js.isWordChar a && negb inWord then Js.upperWordChar a else a)
        :: capitalizeWords (Js.isWordChar a) r
  end.

(** The title that [uploadFromFolder] derives from a file name. *)
Definition titleOf (filename : string) : string :=
  string_of_list_ascii
    (capitalizeWords false (underscoresToSpaces (list_ascii_of_string filename))).

Section EntryPoints.

Context {PlatformState : Type}.
Variable upload : string -> VideoClip -> PlatformState -> UploadReturn * PlatformState * Z.
Variable randomDelay : nat -> Z.
Variable CONFIG : Config.
Variable SETTINGS : Settings.
Variable fs : FileSystem.

(** [Math.random().toString(36).substr(2, 9)], for the successive job ids
    of an uploader. *)
Variable suffixes : nat -> string.

(** [fs.readdirSync(folderPath)]: the names in the folder, or the message
    of the error it throws. *)
Variable readdirSync : string -> string + list string.

(** [path.join(folderPath, file)] and [path.basename(filePath, '.mp4')] *)
Variable pathJoin : string -> string -> string.
Variable pathBasename : string -> string -> string.

(** A [SocialMediaUploader]: its uploaders and analytics, its scheduler,
    and the number of job ids it has drawn. *)
Record SocialMediaUploader := mkUploader {
  world : World PlatformState;
  scheduler : UploadScheduler;
  jobsCreated : nat
}.






(** [SocialMediaUploader.getAnalytics()] and [getScheduledJobs()] *)
Definition getAnalytics (u : SocialMediaUploader) : AnalyticsData :=
  getStats (analytics (world u)).

Definition SocialMediaUploader_getScheduledJobs (u : SocialMediaUploader) : list Job.t :=
  getScheduledJobs (scheduler u).

End EntryPoints.

Arguments SocialMediaUploader : clear implicits.

(** ** Further observations on the events of a run *)

(** The sleeps of the rate limiters: platform and delay. *)
Definition rateLimitWaits (evs : list Event) : list (string * option Z) :=
  omap (fun e => match e with Slept (RateLimitWait p) d => Some (p, d) | _ => None end) evs.



(** The outcomes of the invocations. *)
Definition returns (invs : list (string * nat * UploadReturn)) : list UploadReturn :=
  map snd invs.

Definition returnsTruthy (o : UploadReturn) : bool :=
  match o with
  | Returns identifier => Js.truthy identifier
  | Throws _ => false
  end.

(** The message of the last of the outcomes that is a throw. *)
Definition lastThrown (outs : list UploadReturn) : option string :=
  last (omap (fun o => match o with Throws m => Some m | Returns _ => None end) outs).

(** The analytics after a series of recordings. *)
Inductive Recording :=
| RecordUpload (now : Z) (platform : string) (success : bool) (error : option string)
| AddUploadBatch (now : Z) (count : nat) (plats : list string)
         (results : gmap string (list string)) (failed : list string).

Definition recording (a : Analytics) (r : Recording) : Analytics :=
  match r with
  | RecordUpload now platform success error => recordUpload now platform success error a
  | AddUploadBatch now count plats res fl => addUploadBatch now count plats res fl a
  end.

(** The failures counted for a platform. *)
Definition failures (a : Analytics) (platform : string) : N :=
  countOf (readCounts (heap a) (failedUploads (data a))) platform.

(** How often an error message was tallied for a platform. *)
Definition errorTally (a : Analytics) (platform message : string) : N :=
  match readPerformance (heap a) (platformPerformance (data a)) !! platform with
  | Some perf => countOf (commonErrors perf) message
  | None => 0%N
  end.

(** The history that the analytics hold. *)
Definition historyOf (a : Analytics) : list BatchData :=
  readHistory (heap a) (uploadHistory (data a)).


(** How many of the recordings [rs] are uploads that [test] selects. *)
Definition uploadsCounted (test : string -> bool -> bool) (rs : list Recording) : N :=
  N.of_nat (length (List.filter (fun r => match r with
                                          | RecordUpload _ p s _ => test p s
                                          | AddUploadBatch _ _ _ _ _ => false
                                          end) rs)).

Definition batchesCounted (rs : list Recording) : nat :=
  length (List.filter (fun r => match r with
                                | RecordUpload _ _ _ _ => false
                                | AddUploadBatch _ _ _ _ _ => true
                                end) rs).






(** ** The scheduler over time *)

Section SchedulerRuns.

Context {Env : Type}.
Variable clockOf : Env -> Z.
Variable runBatch : VideoClip -> Env -> (string + BatchResult) * VideoClip * Env.

(** What happens to a scheduler between the calls that schedule jobs: a
    tick, after the environment has moved on in some way, or the firing of
    the deletions due by an instant. *)
Inductive SchedulerStep :=
| Tick (moveOn : Env -> Env)
| Fire (t : Z).

Fixpoint schedulerSteps (steps : list SchedulerStep) (s : UploadScheduler) (env : Env)
  : UploadScheduler * Env * list SchedulerEvent :=
  match steps with
  | [] => (s, env, [])
  | Tick moveOn :: rest =>
      let out := checkScheduledJobs clockOf runBatch s (moveOn env) in
      let more := schedulerSteps rest out.1.1 out.1.2 in
      (more.1.1, more.1.2, out.2 ++ more.2)
  | Fire t :: rest => schedulerSteps rest (fireDeletions t s) env
  end.

End SchedulerRuns.

(** The ids of the jobs for which a batch was started. *)
Definition jobsStarted (evs : list SchedulerEvent) : list string :=
  omap (fun e => match e with BatchStarted _ jobId _ => Some jobId | _ => None end) evs.

(** The ids of the jobs of a map that are still [scheduled]. *)
Definition scheduledIds (m : list (string * Job.t)) : list string :=
  map fst (List.filter (fun e => Job.isScheduled e.2) m).

(** Whether a tick at the instant [now] executes a job. *)
Definition isDue (now : Z) (job : Job.t) : bool :=
  Job.isScheduled job && Js.dateLe (Job.scheduleTime job) now.

(** ** Further sample collaborators *)

Module Demo.

(** Settings with the credentials written in the source, placeholders
    all of them, and a short default description. *)
Definition settings : Settings := {|
  YOUTUBE_CLIENT_ID := "your_youtube_client_id_here";
  YOUTUBE_CLIENT_SECRET := "your_youtube_client_secret_here";
  YOUTUBE_REDIRECT_URI := "http://localhost:8080/callback";
  INSTAGRAM_ACCESS_TOKEN := "your_instagram_long_lived_access_token_here";
  INSTAGRAM_BUSINESS_ACCOUNT_ID := "your_instagram_business_account_id_here";
  TIKTOK_CLIENT_KEY := "your_tiktok_client_key_here";
  TIKTOK_CLIENT_SECRET := "your_tiktok_client_secret_here";
  TIKTOK_REDIRECT_URI := "http://localhost:8080/tiktok-callback";
  LINKEDIN_CLIENT_ID := "your_linkedin_client_id_here";
  LINKEDIN_CLIENT_SECRET := "your_linkedin_client_secret_here";
  LINKEDIN_PERSON_ID := "your_linkedin_person_id_here";
  TWITTER_API_KEY := "your_twitter_api_key_here";
  TWITTER_API_SECRET := "your_twitter_api_secret_here";
  TWITTER_ACCESS_TOKEN := "your_twitter_access_token_here";
  TWITTER_ACCESS_TOKEN_SECRET := "your_twitter_access_token_secret_here";
  AUTO_PUBLISH := true;
  DEFAULT_PRIVACY := "public";
  DEFAULT_TAGS := ["shorts"; "viral"; "video"; "content"];
  DEFAULT_DESCRIPTION := "Check out this amazing clip!";
  SCHEDULED_UPLOAD := false;
  UPLOAD_SCHEDULE := [("youtube", "09:00"); ("instagram", "12:00"); ("tiktok", "18:00")];
  TIMEZONE := "UTC";
  DELAY_BETWEEN_PLATFORMS := 300
|}.

(** The same with credentials filled in. *)
Definition filled : Settings := {|
  YOUTUBE_CLIENT_ID := "yt-client";
  YOUTUBE_CLIENT_SECRET := "yt-secret";
  YOUTUBE_REDIRECT_URI := "http://localhost:8080/callback";
  INSTAGRAM_ACCESS_TOKEN := "ig-token";
  INSTAGRAM_BUSINESS_ACCOUNT_ID := "ig-account";
  TIKTOK_CLIENT_KEY := "tt-key";
  TIKTOK_CLIENT_SECRET := "tt-secret";
  TIKTOK_REDIRECT_URI := "http://localhost:8080/tiktok-callback";
  LINKEDIN_CLIENT_ID := "li-client";
  LINKEDIN_CLIENT_SECRET := "li-secret";
  LINKEDIN_PERSON_ID := "li-person";
  TWITTER_API_KEY := "tw-key";
  TWITTER_API_SECRET := "tw-secret";
  TWITTER_ACCESS_TOKEN := "tw-token";
  TWITTER_ACCESS_TOKEN_SECRET := "tw-token-secret";
  AUTO_PUBLISH := true;
  DEFAULT_PRIVACY := "public";
  DEFAULT_TAGS := ["shorts"; "viral"; "video"; "content"];
  DEFAULT_DESCRIPTION := "Check out this amazing clip!";
  SCHEDULED_UPLOAD := false;
  UPLOAD_SCHEDULE := [("youtube", "09:00"); ("instagram", "12:00"); ("tiktok", "18:00")];
  TIMEZONE := "UTC";
  DELAY_BETWEEN_PLATFORMS := 300
|}.

(** A clock that the uploaders read as 1000, 1001, ..., and a token
    verification that always goes through. *)
Definition clockRead (k : nat) : Z := 1000 + Z.of_nat k.

Definition tokenAccepted (k : nat) : bool := true.

(** A world over the uploaders of the registry, new ones. *)
Definition registryWorld (now : Z) : World Instances :=
  {| clock := now; limiters := ∅; platformState := Instances_new 0; randomCalls := 0;
     analytics := Analytics_new |}.





Definition files : FileSystem := fun path =>
  if decide (path = "clips") then Some 4096
  else if decide (path = "clips/clip.mp4") then Some 1048576
  else if decide (path = "clip.mp4") then Some 1048576
  else None.

Definition noOptions : Options.t := Options.mk None None None None None.

End Demo.

(** ** The rate limiters of a world *)

(** The number of timestamps that the rate limiter of a platform holds. *)
Definition limiterLoad {PlatformState : Type} (w : World PlatformState) (platform : string)
  : nat :=
  length (requests (limiterOf w platform)).

(** Every rate limiter allows the 50 requests of the constructor. *)
Definition defaultLimits {PlatformState : Type} (w : World PlatformState) : Prop :=
  forall platform, maxRequests (limiterOf w platform) = 50.

(** * Part II: properties *)

(** ** Clip validation *)

Lemma trimStartChars_nil (l : list ascii) :
  Js.trimStartChars l = [] <-> forallb Js.isSpace l = true.
Proof.
  induction l as [|a r IH]; simpl; [tauto|].
  destruct (Js.isSpace a); simpl; [exact IH|].
  split; discriminate.
Qed.

Lemma trimStartChars_head (l : list ascii) (a : ascii) (r : list ascii) :
  Js.trimStartChars l = a :: r -> Js.isSpace a = false.
Proof.
  induction l as [|b t IH]; simpl; [discriminate|].
  destruct (Js.isSpace b) eqn:Hb; [exact IH|].
  intros [= <- _]. exact Hb.
Qed.

Lemma forallb_rev_isSpace (l : list ascii) :
  forallb Js.isSpace (rev l) = forallb Js.isSpace l.
Proof.
  induction l as [|a r IH]; simpl; [reflexivity|].
  rewrite forallb_app, IH. simpl. rewrite andb_true_r. apply andb_comm.
Qed.

Lemma trimEndChars_nil (l : list ascii) :
  Js.trimEndChars l = [] <-> forallb Js.isSpace l = true.
Proof.
  unfold Js.trimEndChars. rewrite <- forallb_rev_isSpace, <- trimStartChars_nil.
  split; intros H.
  - apply (f_equal (@rev ascii)) in H. rewrite rev_involutive in H. exact H.
  - rewrite H. reflexivity.
Qed.

Lemma string_of_list_ascii_isEmpty (l : list ascii) :
  Js.isEmpty (string_of_list_ascii l) = true <-> l = [].
Proof. destruct l; unfold Js.isEmpty; simpl; split; intros H; try reflexivity; discriminate H. Qed.

(** The test [!this.title || this.title.trim() === ''] is true exactly of
    the titles made of white space only. *)
Lemma title_test_blank (t : string) :
  Js.isEmpty t || Js.isEmpty (Js.trim t) = blankTitle t.
Proof.
  unfold blankTitle, Js.trim.
  destruct t as [|a r]; [reflexivity|].
  change (Js.isEmpty (String a r)) with false. rewrite orb_false_l.
  generalize (list_ascii_of_string (String a r)). intros l.
  apply eq_true_iff_eq.
  rewrite string_of_list_ascii_isEmpty, trimEndChars_nil.
  destruct (Js.trimStartChars l) as [|b u] eqn:Hl.
  - apply trimStartChars_nil in Hl. rewrite Hl. simpl. tauto.
  - pose proof (trimStartChars_head _ _ _ Hl) as Hb.
    assert (Hn : forallb Js.isSpace l = false).
    { destruct (forallb Js.isSpace l) eqn:Hf; [|reflexivity].
      apply trimStartChars_nil in Hf. rewrite Hf in Hl. discriminate Hl. }
    rewrite Hn. simpl. rewrite Hb. simpl. tauto.
Qed.

(** The test [fileSizeMB > 500] is true exactly of the sizes above
    [maxFileBytes]. *)
Lemma size_test_over (size : Z) :
  negb (Qle_bool (inject_Z size / inject_Z (1024 * 1024)) (inject_Z 500)) = true
  <-> maxFileBytes < size.
Proof.
  rewrite negb_true_iff, <- not_true_iff_false, Qle_bool_iff.
  unfold Qle, maxFileBytes. simpl. lia.
Qed.

(** ** The retry driver *)

#[local] Arguments rateLimit : simpl never.
#[local] Arguments sleepDuration : simpl never.
#[local] Arguments elapse : simpl never.
#[local] Arguments setPlatformState : simpl never.
#[local] Arguments backoffAfter : simpl never.
#[local] Arguments Z.pow : simpl never.
#[local] Arguments Z.mul : simpl never.

Section RetryDriver.

Context {PlatformState : Type}.
Variable upload : string -> VideoClip -> PlatformState -> UploadReturn * PlatformState * Z.

(** The rate limiter touches neither the platforms nor the analytics, and
    its only event is its own sleep. *)
Lemma rateLimit_frame (platform : string) (w : World PlatformState) :
  platformState (rateLimit platform w).1.2 = platformState w /\
  analytics (rateLimit platform w).1.2 = analytics w /\
  randomCalls (rateLimit platform w).1.2 = randomCalls w /\
  ((rateLimit platform w).2 = [] \/
   exists d, (rateLimit platform w).2 = [Slept (RateLimitWait platform) d]).
Proof.
  unfold rateLimit, bind.
  destruct (checkLimit (clock w) (limiterOf w platform)).1 as [d|]; cbn.
  - repeat split; try reflexivity. right. exists d. reflexivity.
  - repeat split; try reflexivity. left. reflexivity.
Qed.

Lemma rateLimit_platformState (platform : string) (w : World PlatformState) :
  platformState (rateLimit platform w).1.2 = platformState w.
Proof. apply rateLimit_frame. Qed.



(** One iteration of the loop of [uploadWithRetry], written out. *)
Lemma attemptsFrom_S (platform name : string) (clip : VideoClip)
    (maxRetries r attempt : nat) (lastError : option string) (w : World PlatformState) :
  attemptsFrom upload platform name clip maxRetries (S r) attempt lastError w =
  let r1 := rateLimit platform w in
  let out := upload platform clip (platformState r1.1.2) in
  let w2 := setPlatformState out.1.2 (elapse (Z.max 0 out.2) r1.1.2) in
  let pre := r1.2 ++ [Invoked platform attempt clip out.1.1] in
  match out.1.1 with
  | Returns identifier =>
      if Js.truthy identifier
      then (UploadResult_new (clock w2) name true (Some identifier) None, w2, pre)
      else
        let r3 := attemptsFrom upload platform name clip maxRetries r (S attempt) lastError w2 in
        (r3.1.1, r3.1.2, pre ++ r3.2)
  | Throws message =>
      if (attempt <? maxRetries)%nat then
        let d := Some (2 ^ Z.of_nat attempt * 1000) in
        let r3 := attemptsFrom upload platform name clip maxRetries r (S attempt)
                    (Some message) (elapse (sleepDuration d) w2) in
        (r3.1.1, r3.1.2, pre ++ Slept (Backoff platform attempt) d :: r3.2)
      else
        let r3 := attemptsFrom upload platform name clip maxRetries r (S attempt)
                    (Some message) w2 in
        (r3.1.1, r3.1.2, pre ++ r3.2)
  end.
Proof.
  cbn [attemptsFrom]. unfold bind, invoke. cbn [fst snd].
  destruct (upload platform clip (platformState (rateLimit platform w).1.2))
    as [[[identifier|message] st] d]; cbn [fst snd].
  - destruct (Js.truthy identifier); unfold now, ret; cbn [fst snd app];
      rewrite ?app_nil_r, <- ?app_assoc; reflexivity.
  - destruct (attempt <? maxRetries)%nat;
      unfold sleep, bind, record, advance, ret; cbn [fst snd app];
      rewrite ?app_nil_r, <- ?app_assoc; reflexivity.
Qed.

#[local] Arguments attemptsFrom : simpl never.

Lemma invocations_app (a b : list Event) :
  invocations (a ++ b) = invocations a ++ invocations b.
Proof. apply omap_app. Qed.

Lemma backoffs_app (a b : list Event) : backoffs (a ++ b) = backoffs a ++ backoffs b.
Proof. apply omap_app. Qed.

Lemma rateLimit_invocations (platform : string) (w : World PlatformState) :
  invocations (rateLimit platform w).2 = [].
Proof.
  destruct (rateLimit_frame platform w) as (_ & _ & _ & [-> | [d ->]]); reflexivity.
Qed.

Lemma rateLimit_backoffs (platform : string) (w : World PlatformState) :
  backoffs (rateLimit platform w).2 = [].
Proof.
  destruct (rateLimit_frame platform w) as (_ & _ & _ & [-> | [d ->]]); reflexivity.
Qed.

(** The backoff sleeps of a call of [uploadWithRetry] are those that
    follow its throwing invocations, the last attempt apart. *)
Lemma attemptsFrom_backoffs (platform name : string) (clip : VideoClip)
    (maxRetries remaining : nat) :
  forall (attempt : nat) (lastError : option string) (w : World PlatformState),
    backoffs (attemptsFrom upload platform name clip maxRetries remaining attempt lastError w).2
    = omap (backoffAfter maxRetries)
        (invocations
           (attemptsFrom upload platform name clip maxRetries remaining attempt lastError w).2).
Proof.
  induction remaining as [|r IH]; intros attempt lastError w; [reflexivity|].
  rewrite attemptsFrom_S. cbn zeta.
  destruct (upload platform clip (platformState (rateLimit platform w).1.2))
    as [[[identifier|message] st] d]; cbn [fst snd].
  - destruct (Js.truthy identifier); cbn [fst snd];
      rewrite ?backoffs_app, ?invocations_app, ?omap_app,
        rateLimit_backoffs, rateLimit_invocations; cbn; [reflexivity|apply IH].
  - destruct (attempt <? maxRetries)%nat eqn:Hlt; cbn [fst snd];
      rewrite ?backoffs_app, ?invocations_app, ?omap_app,
        rateLimit_backoffs, rateLimit_invocations;
      cbn; unfold backoffAfter at 1; cbn [fst snd]; rewrite Hlt.
    + f_equal. apply IH.
    + apply IH.
Qed.

Lemma attemptsFrom_always_throws (platform name : string) (clip : VideoClip)
    (maxRetries remaining : nat) :
  (forall st, exists m st' d, upload platform clip st = (Throws m, st', d)) ->
  forall (attempt : nat) (lastError : option string) (w : World PlatformState),
  exists messages : list string,
    length messages = remaining /\
    invocations (attemptsFrom upload platform name clip maxRetries remaining attempt lastError w).2
    = throwing platform attempt messages /\
    exists t,
      (attemptsFrom upload platform name clip maxRetries remaining attempt lastError w).1.1
      = UploadResult_new t name false None
          (match last messages with Some m => Some m | None => lastError end).
Proof.
  intros Hthrows. induction remaining as [|r IH]; intros attempt lastError w.
  - exists []. repeat split. exists (clock w). reflexivity.
  - rewrite attemptsFrom_S. cbn zeta.
    destruct (Hthrows (platformState (rateLimit platform w).1.2)) as (m & st & d & ->).
    cbn [fst snd].
    destruct (attempt <? maxRetries)%nat; cbn [fst snd];
      match goal with
      | |- context [attemptsFrom upload platform name clip maxRetries r (S attempt) (Some m) ?w2] =>
          destruct (IH (S attempt) (Some m) w2) as (ms & Hlen & Hinv & t & Hres)
      end;
      exists (m :: ms);
      (split; [cbn; lia|]);
      (split;
       [ rewrite ?invocations_app, rateLimit_invocations; cbn [app];
         change (Slept (Backoff platform attempt) (Some (2 ^ Z.of_nat attempt * 1000))
                 :: ?l) with ([Slept (Backoff platform attempt)
                                 (Some (2 ^ Z.of_nat attempt * 1000))] ++ l);
         rewrite ?invocations_app; cbn; rewrite Hinv;
         unfold throwing; cbn; rewrite Nat.add_0_r; f_equal;
         apply imap_ext; intros; cbn; repeat f_equal; lia
       | exists t; rewrite Hres; f_equal;
         destruct ms as [|m' ms']; [reflexivity|]; cbn [last];
         destruct (last (m' :: ms')) eqn:Hl; [reflexivity|];
         apply last_None in Hl; discriminate Hl ]).
Qed.

Lemma attemptsFrom_always_falsy (platform name : string) (clip : VideoClip)
    (maxRetries remaining : nat) :
  (forall st, exists st' d, upload platform clip st = (Returns EmptyString, st', d)) ->
  forall (attempt : nat) (lastError : option string) (w : World PlatformState),
    invocations (attemptsFrom upload platform name clip maxRetries remaining attempt lastError w).2
    = map (fun a => (platform, a, Returns EmptyString)) (seq attempt remaining) /\
    exists t,
      (attemptsFrom upload platform name clip maxRetries remaining attempt lastError w).1.1
      = UploadResult_new t name false None lastError.
Proof.
  intros Hfalsy. induction remaining as [|r IH]; intros attempt lastError w.
  - split; [reflexivity|]. exists (clock w). reflexivity.
  - rewrite attemptsFrom_S. cbn zeta.
    destruct (Hfalsy (platformState (rateLimit platform w).1.2)) as (st & d & ->).
    cbn [fst snd Js.truthy].
    match goal with
    | |- context [attemptsFrom upload platform name clip maxRetries r (S attempt) lastError ?w2] =>
        destruct (IH (S attempt) lastError w2) as (Hinv & t & Hres)
    end.
    split.
    + rewrite !invocations_app, rateLimit_invocations, Hinv. reflexivity.
    + exists t. exact Hres.
Qed.


(** C10: the backoff sleeps of a call of [uploadWithRetry] are exactly
    those that follow an invocation that threw, so an invocation that
    returned a falsy value is followed by the next attempt without a
    backoff; when every invocation returns a falsy value, all
    [maxRetries] attempts are made, none is followed by a backoff, and the
    result is a failure whose error is absent. *)
Theorem falsy_result_skips_backoff :
  (forall (platform name : string) (clip : VideoClip) (maxRetries : nat)
          (w : World PlatformState),
     backoffs (uploadWithRetry upload platform name clip maxRetries w).2
     = omap (backoffAfter maxRetries)
         (invocations (uploadWithRetry upload platform name clip maxRetries w).2)) /\
  (forall (platform name : string) (clip : VideoClip) (maxRetries : nat)
          (w : World PlatformState),
     (forall st, exists st' d, upload platform clip st = (Returns EmptyString, st', d)) ->
     invocations (uploadWithRetry upload platform name clip maxRetries w).2
     = map (fun a => (platform, a, Returns EmptyString)) (seq 1 maxRetries) /\
     backoffs (uploadWithRetry upload platform name clip maxRetries w).2 = [] /\
     exists t : Z,
       (uploadWithRetry upload platform name clip maxRetries w).1.1
       = UploadResult_new t name false None None).
Proof.
  split.
  - intros. apply attemptsFrom_backoffs.
  - intros platform name clip maxRetries w Hfalsy. unfold uploadWithRetry.
    destruct (attemptsFrom_always_falsy platform name clip maxRetries maxRetries Hfalsy
                1%nat None w) as (Hinv & Hres).
    split; [exact Hinv|]. split; [|exact Hres].
    rewrite attemptsFrom_backoffs, Hinv.
    generalize (seq 1 maxRetries). intros l. induction l as [|a l IH]; [reflexivity|].
    cbn. exact IH.
Qed.

End RetryDriver.


Lemma falsy_result_skips_backoff_witness :
  invocations (uploadWithRetry Sample.upload "tiktok" "TikTok"
                 (Sample.clip "clip.mp4" "T" []) 3 (Sample.world 0)).2
  = [("tiktok", 1%nat, Returns EmptyString); ("tiktok", 2%nat, Returns EmptyString);
     ("tiktok", 3%nat, Returns EmptyString)] /\
  backoffs (uploadWithRetry Sample.upload "tiktok" "TikTok"
              (Sample.clip "clip.mp4" "T" []) 3 (Sample.world 0)).2 = [] /\
  exists t : Z,
    (uploadWithRetry Sample.upload "tiktok" "TikTok"
       (Sample.clip "clip.mp4" "T" []) 3 (Sample.world 0)).1.1
    = UploadResult_new t "TikTok" false None None.
Proof.
  apply (proj2 (@falsy_result_skips_backoff nat Sample.upload)).
  intros st. eexists _, _. reflexivity.
Defined.

(** ** The batch orchestrator *)

Section BatchOrchestrator.

Context {PlatformState : Type}.
Variable upload : string -> VideoClip -> PlatformState -> UploadReturn * PlatformState * Z.
Variable randomDelay : nat -> Z.
Variable CONFIG : Config.
Variable fs : FileSystem.


















(** C5: [validate] throws exactly when nothing exists at the file path, or
    the title is empty or made of white space only, or the file is larger
    than 500 MB, and it returns exactly when none of the three is the case; a
    clip on which it throws is given to no platform. *)
Theorem validate_fails_iff (clip : VideoClip) :
  ((exists e, validate fs clip = inl e) <->
   (fs (filePath clip) = None \/ blankTitle (title clip) = true \/
    exists size, fs (filePath clip) = Some size /\ maxFileBytes < size)) /\
  (validate fs clip = inr tt <->
   exists size, fs (filePath clip) = Some size /\ blankTitle (title clip) = false /\
                size <= maxFileBytes) /\
  (forall e w, validate fs clip = inl e ->
     invocations (uploadClips upload randomDelay CONFIG fs [clip] w).2 = [] /\
     platformState (uploadClips upload randomDelay CONFIG fs [clip] w).1.2 = platformState w).
Proof.
  split; [|split].
  - unfold validate, existsSync. rewrite title_test_blank.
    destruct (fs (filePath clip)) as [size|]; cbn [negb].
    + destruct (blankTitle (title clip)).
      * split; [tauto|]. intros _. eexists. reflexivity.
      * destruct (negb (Qle_bool _ _)) eqn:Hsz.
        -- apply size_test_over in Hsz. split; [|intros _; eexists; reflexivity].
           intros _. right. right. exists size. split; [reflexivity|exact Hsz].
        -- split; [intros [e He]; discriminate He|].
           intros [H|[H|(sz & [= <-] & Hlt)]]; try discriminate H.
           apply size_test_over in Hlt. congruence.
    + split; [tauto|]. intros _. eexists. reflexivity.
  - unfold validate, existsSync. rewrite title_test_blank.
    destruct (fs (filePath clip)) as [size|]; cbn [negb].
    + destruct (blankTitle (title clip)).
      * split; [discriminate|]. intros (sz & _ & H & _). discriminate H.
      * destruct (negb (Qle_bool _ _)) eqn:Hsz.
        -- apply size_test_over in Hsz. split; [discriminate|].
           intros (sz & [= <-] & _ & Hle). lia.
        -- split; [|reflexivity]. intros _. exists size. repeat split.
           destruct (Z_lt_le_dec maxFileBytes size) as [Hlt|Hle]; [|exact Hle].
           apply size_test_over in Hlt. congruence.
    + split; [discriminate|]. intros (sz & H & _). discriminate H.
  - intros e w Hv. unfold uploadClips. cbn [uploadEach]. rewrite Hv.
    unfold bind. cbn. split; reflexivity.
Qed.

End BatchOrchestrator.


Lemma validate_fails_iff_witness :
  (exists e, validate Sample.files (Sample.clip "huge.mp4" "V" []) = inl e) /\
  validate Sample.files (Sample.clip "clip.mp4" "V" []) = inr tt /\
  invocations
    (uploadClips Sample.upload Sample.noDelay CONFIG_source Sample.files
       [Sample.clip "clip.mp4" " " []] (Sample.world 0)).2 = [].
Proof.
  split; [|split].
  - apply (proj1 (validate_fails_iff Sample.upload Sample.noDelay CONFIG_source Sample.files
                    (Sample.clip "huge.mp4" "V" []))).
    right. right. exists 629145600. split; [reflexivity|]. unfold maxFileBytes. lia.
  - apply (proj1 (proj2 (validate_fails_iff Sample.upload Sample.noDelay CONFIG_source
                           Sample.files (Sample.clip "clip.mp4" "V" [])))).
    exists 1048576. split; [reflexivity|]. split; [reflexivity|]. unfold maxFileBytes. lia.
  - apply (proj2 (proj2 (validate_fails_iff Sample.upload Sample.noDelay CONFIG_source
                           Sample.files (Sample.clip "clip.mp4" " " []))) TitleRequired).
    reflexivity.
Defined.

(** ** The scheduler *)

Lemma mapDelete_In (key x : string) (m : list (string * Job.t)) :
  In x (map fst (mapDelete key m)) <-> In x (map fst m) /\ x <> key.
Proof.
  induction m as [|[k v] r IH]; cbn [mapDelete map fst In]; [tauto|].
  destruct (decide (k = key)) as [->|Hne]; cbn [map fst In]; rewrite IH.
  - split; [tauto|]. intros [[<-|H] Hx]; [contradiction|tauto].
  - split; [|tauto]. intros [<-|H]; [|tauto]. split; [tauto|exact Hne].
Qed.

Lemma fold_deletions_keep (t : Z) (jobId : string) (dels : list (Z * string)) :
  forall m : list (string * Job.t),
    In jobId (map fst m) ->
    (forall d, In d dels -> d.1 <= t -> d.2 <> jobId) ->
    In jobId (map fst (fold_left (fun m d => if d.1 <=? t then mapDelete d.2 m else m) dels m)).
Proof.
  induction dels as [|d dels IH]; intros m Hin Hother; [exact Hin|].
  cbn [fold_left]. apply IH.
  - destruct (Z.leb_spec d.1 t) as [Hle|Hgt]; [|exact Hin].
    apply mapDelete_In. split; [exact Hin|].
    intros ->. apply (Hother d); [left; reflexivity|exact Hle|reflexivity].
  - intros d' Hd'. apply Hother. right. exact Hd'.
Qed.

Lemma fold_deletions_absent (t : Z) (jobId : string) (dels : list (Z * string)) :
  forall m : list (string * Job.t),
    ~ In jobId (map fst m) ->
    ~ In jobId (map fst (fold_left (fun m d => if d.1 <=? t then mapDelete d.2 m else m) dels m)).
Proof.
  induction dels as [|d dels IH]; intros m Hnot; [exact Hnot|].
  cbn [fold_left]. apply IH.
  destruct (d.1 <=? t); [|exact Hnot].
  rewrite mapDelete_In. tauto.
Qed.

Lemma fold_deletions_drop (t : Z) (jobId : string) (dels : list (Z * string)) :
  forall m : list (string * Job.t),
    (exists due, In (due, jobId) dels /\ due <= t) ->
    ~ In jobId (map fst (fold_left (fun m d => if d.1 <=? t then mapDelete d.2 m else m) dels m)).
Proof.
  induction dels as [|d dels IH]; intros m (due & Hin & Hle); [destruct Hin|].
  cbn [fold_left]. destruct Hin as [->|Hin].
  - cbn [fst snd]. apply Z.leb_le in Hle. rewrite Hle.
    apply fold_deletions_absent. rewrite mapDelete_In. tauto.
  - apply IH. exists due. split; assumption.
Qed.

(** The ids of the active set stay pairwise distinct, as the keys of a
    [Map] are. *)
Lemma mapSet_keys_old (key : string) (value : Job.t) (m : list (string * Job.t)) :
  In key (map fst m) -> map fst (mapSet key value m) = map fst m.
Proof.
  induction m as [|[k v] r IH]; cbn [mapSet map fst]; [intros []|].
  intros Hin. destruct (decide (k = key)) as [->|Hne]; cbn [map fst]; [reflexivity|].
  rewrite IH; [reflexivity|]. destruct Hin as [Heq|Hin]; [contradiction|exact Hin].
Qed.

Lemma mapSet_keys_new (key : string) (value : Job.t) (m : list (string * Job.t)) :
  ~ In key (map fst m) -> map fst (mapSet key value m) = map fst m ++ [key].
Proof.
  induction m as [|[k v] r IH]; cbn [mapSet map fst]; [reflexivity|].
  intros Hnot. destruct (decide (k = key)) as [->|Hne]; cbn [map fst app].
  - exfalso. apply Hnot. left. reflexivity.
  - rewrite IH; [reflexivity|]. intros Hin. apply Hnot. right. exact Hin.
Qed.

Lemma scheduleUpload_distinct (now : Z) (suffix : string) (clip : VideoClip)
    (scheduleTime : option Z) (s : UploadScheduler) :
  List.NoDup (activeIds s) ->
  List.NoDup (activeIds (scheduleUpload now suffix clip scheduleTime s).2).
Proof.
  intros Hnd. unfold activeIds, scheduleUpload. cbn [snd scheduledJobs].
  set (jobId := ("job_" +:+ pretty now +:+ "_" +:+ suffix)).
  destruct (in_dec string_dec jobId (map fst (scheduledJobs s))) as [Hin|Hnot].
  - rewrite mapSet_keys_old by exact Hin. exact Hnd.
  - rewrite mapSet_keys_new by exact Hnot.
    apply NoDup_ListNoDup. apply NoDup_app. split; [apply NoDup_ListNoDup; exact Hnd|].
    split; [|apply NoDup_singleton].
    intros x Hx Hx'. apply list_elem_of_singleton in Hx'. subst x.
    apply Hnot. apply list_elem_of_In. exact Hx.
Qed.

Lemma mapDelete_distinct (key : string) (m : list (string * Job.t)) :
  List.NoDup (map fst m) -> List.NoDup (map fst (mapDelete key m)).
Proof.
  induction m as [|[k v] r IH]; cbn [mapDelete map fst]; [auto|].
  intros Hnd. apply NoDup_cons_iff in Hnd. destruct Hnd as [Hnot Hnd].
  destruct (decide (k = key)); [auto|]. cbn [map fst].
  apply List.NoDup_cons; [|auto]. rewrite mapDelete_In. tauto.
Qed.

Lemma fireDeletions_distinct (t : Z) (s : UploadScheduler) :
  List.NoDup (activeIds s) -> List.NoDup (activeIds (fireDeletions t s)).
Proof.
  unfold activeIds, fireDeletions. cbn [scheduledJobs].
  generalize (scheduledJobs s). induction (pendingDeletions s) as [|d dels IH]; intros m Hnd;
    [exact Hnd|].
  cbn [fold_left]. apply IH. destruct (d.1 <=? t); [apply mapDelete_distinct|]; exact Hnd.
Qed.

Section Scheduler.

Context {Env : Type}.
Variable clockOf : Env -> Z.
Variable runBatch : VideoClip -> Env -> (string + BatchResult) * VideoClip * Env.

Lemma checkJobs_app (now : Z) (l1 l2 : list (string * Job.t)) :
  forall env : Env,
    let r1 := checkJobs clockOf runBatch now l1 env in
    let r2 := checkJobs clockOf runBatch now l2 r1.1.1.2 in
    checkJobs clockOf runBatch now (l1 ++ l2) env
    = (r1.1.1.1 ++ r2.1.1.1, r2.1.1.2, r1.1.2 ++ r2.1.2, r1.2 ++ r2.2).
Proof.
  induction l1 as [|[jobId job] l1 IH]; intros env; cbv zeta.
  - cbn. destruct (checkJobs clockOf runBatch now l2 env) as [[[? ?] ?] ?]. reflexivity.
  - cbn [checkJobs app]. rewrite IH. cbn [fst snd]. rewrite <- !app_assoc. reflexivity.
Qed.

Lemma checkJobs_keys (now : Z) (l : list (string * Job.t)) :
  forall env : Env, map fst (checkJobs clockOf runBatch now l env).1.1.1 = map fst l.
Proof.
  induction l as [|[jobId job] l IH]; intros env; [reflexivity|].
  cbn [checkJobs map fst snd]. rewrite IH. reflexivity.
Qed.

(** A tick neither adds a job to the active set nor removes one from it. *)
Lemma checkScheduledJobs_activeIds (s : UploadScheduler) (env : Env) :
  activeIds (checkScheduledJobs clockOf runBatch s env).1.1 = activeIds s.
Proof. unfold activeIds, checkScheduledJobs. cbn [fst scheduledJobs]. apply checkJobs_keys. Qed.

Lemma checkJob_ids (now : Z) (jobId : string) (job : Job.t) (env : Env) :
  (forall d, In d (checkJob clockOf runBatch now jobId job env).1.2 -> d.2 = jobId) /\
  (forall e, In e (checkJob clockOf runBatch now jobId job env).2 -> eventJob e = jobId).
Proof.
  unfold checkJob.
  destruct (Job.isScheduled job && Js.dateLe (Job.scheduleTime job) now).
  - destruct (runBatch (Job.clip job) env).1.1; cbn [fst snd]; split.
    all: try (intros d [<-|[]]; reflexivity).
    all: intros e [<-|[<-|[<-|[<-|[<-|[]]]]]]; reflexivity.
  - split; intros ? [].
Qed.

Lemma checkJobs_ids (now : Z) (l : list (string * Job.t)) :
  forall env : Env,
    (forall d, In d (checkJobs clockOf runBatch now l env).1.2 -> In d.2 (map fst l)) /\
    (forall e, In e (checkJobs clockOf runBatch now l env).2 -> In (eventJob e) (map fst l)).
Proof.
  induction l as [|[jobId job] l IH]; intros env; [split; intros ? []|].
  cbn [checkJobs fst snd map].
  destruct (checkJob_ids now jobId job env) as [Hd He].
  destruct (IH (checkJob clockOf runBatch now jobId job env).1.1.2) as [IHd IHe].
  split.
  - intros d Hin. apply in_app_or in Hin. destruct Hin as [Hin|Hin].
    + left. symmetry. apply Hd. exact Hin.
    + right. apply IHd. exact Hin.
  - intros e Hin. apply in_app_or in Hin. destruct Hin as [Hin|Hin].
    + left. symmetry. apply He. exact Hin.
    + right. apply IHe. exact Hin.
Qed.

(** The body of the loop on a job that is scheduled and due. *)
Lemma checkJob_due (now : Z) (jobId : string) (job : Job.t) (env : Env) (target : Z) :
  Job.status job = Job.scheduled -> Job.scheduleTime job = Some target -> target <= now ->
  let run := runBatch (Job.clip job) env in
  let resolved := clockOf run.2 in
  let one := checkJob clockOf runBatch now jobId job env in
  one.1.1.2 = run.2 /\
  one.1.2 = [(resolved + retentionMs, jobId)] /\
  one.2 = [StatusSet (clockOf env) jobId Job.executing;
           BatchStarted (clockOf env) jobId [Job.clip job];
           StatusSet resolved jobId (Job.status one.1.1.1);
           JobEmitted resolved (resolutionEvent (Job.status one.1.1.1)) jobId;
           DeletionSet resolved jobId (resolved + retentionMs)] /\
  match run.1.1 with
  | inr result =>
      Job.status one.1.1.1 = Job.completed /\ Job.result one.1.1.1 = Some result
  | inl message =>
      Job.status one.1.1.1 = Job.failed /\ Job.error one.1.1.1 = Some message
  end.
Proof.
  intros Hst Htime Hdue. cbv zeta. unfold checkJob, Job.isScheduled.
  rewrite Hst, Htime. cbn [Js.dateLe andb].
  apply Z.leb_le in Hdue. rewrite Hdue.
  destruct (runBatch (Job.clip job) env).1.1; cbn; repeat split.
Qed.

(** The body of the loop on a job that is not in the state [scheduled]. *)
Lemma checkJob_skip (now : Z) (jobId : string) (job : Job.t) (env : Env) :
  Job.status job <> Job.scheduled ->
  checkJob clockOf runBatch now jobId job env = (job, env, [], []).
Proof.
  intros Hst. unfold checkJob, Job.isScheduled.
  destruct (Job.status job); [contradiction| | |]; reflexivity.
Qed.

(** C8: a tick takes a job that is [scheduled] and due through
    [executing] to [completed] when the orchestrator, run on the clip of the
    job, returns, and to [failed] when it throws, recording the result or
    the error; the job is in the active set at every instant before 24 hours
    have passed since its resolution and is out of it from then on; a job
    that is not [scheduled] is left as it is and the orchestrator is not run
    for it. *)
Theorem tick_job_lifecycle (s : UploadScheduler) (env : Env)
    (pre post : list (string * Job.t)) (jobId : string) (job : Job.t) :
  scheduledJobs s = pre ++ (jobId, job) :: post ->
  let now := clockOf env in
  let reached := (checkJobs clockOf runBatch now pre env).1.1.2 in
  let run := runBatch (Job.clip job) reached in
  let resolved := clockOf run.2 in
  let out := checkScheduledJobs clockOf runBatch s env in
  (forall target : Z,
     Job.status job = Job.scheduled -> Job.scheduleTime job = Some target -> target <= now ->
     exists (job' : Job.t) (before after : list SchedulerEvent),
       scheduledJobs out.1.1 !! length pre = Some (jobId, job') /\
       match run.1.1 with
       | inr result => Job.status job' = Job.completed /\ Job.result job' = Some result
       | inl message => Job.status job' = Job.failed /\ Job.error job' = Some message
       end /\
       out.2 = before ++
               [StatusSet (clockOf reached) jobId Job.executing;
                BatchStarted (clockOf reached) jobId [Job.clip job];
                StatusSet resolved jobId (Job.status job');
                JobEmitted resolved (resolutionEvent (Job.status job')) jobId;
                DeletionSet resolved jobId (resolved + retentionMs)] ++ after /\
       (List.NoDup (activeIds s) -> (forall d, In d (pendingDeletions s) -> d.2 <> jobId) ->
        forall t, t < resolved + retentionMs ->
                  In jobId (activeIds (fireDeletions t out.1.1))) /\
       (forall t, resolved + retentionMs <= t ->
                  ~ In jobId (activeIds (fireDeletions t out.1.1)))) /\
  (Job.status job <> Job.scheduled ->
     scheduledJobs out.1.1 !! length pre = Some (jobId, job) /\
     checkJob clockOf runBatch now jobId job reached = (job, reached, [], []) /\
     (List.NoDup (activeIds s) -> forall e, In e out.2 -> eventJob e <> jobId)).
Proof.
  intros Hjobs. cbv zeta. unfold checkScheduledJobs. rewrite Hjobs.
  rewrite checkJobs_app. cbv zeta. cbn [checkJobs fst snd].
  set (now := clockOf env).
  set (r1 := checkJobs clockOf runBatch now pre env).
  set (one := checkJob clockOf runBatch now jobId job r1.1.1.2).
  set (r2 := checkJobs clockOf runBatch now post one.1.1.2).
  assert (Hlen : length pre = length r1.1.1.1).
  { rewrite <- (length_map fst pre), <- (length_map fst r1.1.1.1).
    subst r1. rewrite checkJobs_keys. reflexivity. }
  assert (Hkeys : map fst (r1.1.1.1 ++ (jobId, one.1.1.1) :: r2.1.1.1)
                  = map fst pre ++ jobId :: map fst post).
  { rewrite map_app. cbn [map fst]. subst r1 r2. rewrite !checkJobs_keys. reflexivity. }
  assert (Hsplit : List.NoDup (activeIds s) -> ~ In jobId (map fst pre) /\ ~ In jobId (map fst post)).
  { unfold activeIds. rewrite Hjobs, map_app. cbn [map fst]. intros Hnd.
    apply NoDup_remove_2 in Hnd. split; intros Hin; apply Hnd; apply in_or_app; tauto. }
  split.
  - intros target Hst Htime Hdue.
    destruct (checkJob_due now jobId job r1.1.1.2 target Hst Htime Hdue)
      as (Henv & Hdel & Hev & Hres).
    fold one in Henv, Hdel, Hev, Hres.
    exists one.1.1.1, r1.2, r2.2.
    split; [apply list_lookup_middle; exact Hlen|].
    split; [exact Hres|].
    split; [rewrite Hev; reflexivity|].
    split.
    + intros Hnd Hold t Ht. unfold activeIds, fireDeletions. cbn [scheduledJobs pendingDeletions].
      destruct (Hsplit Hnd) as [Hpre Hpost].
      apply fold_deletions_keep.
      * rewrite Hkeys. apply in_or_app. right. left. reflexivity.
      * intros d Hin Hle. apply in_app_or in Hin. destruct Hin as [Hin|Hin]; [auto|].
        apply in_app_or in Hin. destruct Hin as [Hin|Hin].
        { intros Heq. apply Hpre. rewrite <- Heq.
          apply (proj1 (checkJobs_ids now pre env)). exact Hin. }
        apply in_app_or in Hin. destruct Hin as [Hin|Hin].
        { rewrite Hdel in Hin. destruct Hin as [<-|[]]. cbn [fst] in Hle. lia. }
        intros Heq. apply Hpost. rewrite <- Heq.
        apply (proj1 (checkJobs_ids now post one.1.1.2)). exact Hin.
    + intros t Ht. unfold activeIds, fireDeletions. cbn [scheduledJobs pendingDeletions].
      apply fold_deletions_drop. eexists. split; [|exact Ht].
      apply in_or_app. right. apply in_or_app. right. apply in_or_app. left.
      rewrite Hdel. left. reflexivity.
  - intros Hst.
    pose proof (checkJob_skip now jobId job r1.1.1.2 Hst) as Hskip. fold one in Hskip.
    split; [|split].
    + rewrite Hskip. cbn [fst snd]. apply list_lookup_middle. exact Hlen.
    + exact Hskip.
    + intros Hnd e Hin Heq. destruct (Hsplit Hnd) as [Hpre Hpost].
      apply in_app_or in Hin. destruct Hin as [Hin|Hin].
      { apply Hpre. rewrite <- Heq. apply (proj2 (checkJobs_ids now pre env)). exact Hin. }
      apply in_app_or in Hin. destruct Hin as [Hin|Hin].
      { rewrite Hskip in Hin. destruct Hin. }
      apply Hpost. rewrite <- Heq.
      apply (proj2 (checkJobs_ids now post one.1.1.2)). exact Hin.
Qed.

End Scheduler.

(** ** Scheduling by time of day *)

Lemma mapGet_mapSet_eq (key : string) (value : Job.t) (m : list (string * Job.t)) :
  mapGet key (mapSet key value m) = Some value.
Proof.
  induction m as [|[k v] r IH]; cbn [mapSet mapGet].
  - destruct (decide (key = key)); [reflexivity|contradiction].
  - destruct (decide (k = key)) as [->|Hne]; cbn [mapGet].
    + destruct (decide (key = key)); [reflexivity|contradiction].
    + destruct (decide (k = key)); [contradiction|exact IH].
Qed.

Lemma mapGet_mapSet_ne (key key' : string) (value : Job.t) (m : list (string * Job.t)) :
  key' <> key -> mapGet key (mapSet key' value m) = mapGet key m.
Proof.
  intros Hne. induction m as [|[k v] r IH]; cbn [mapSet mapGet].
  - destruct (decide (key' = key)); [contradiction|reflexivity].
  - destruct (decide (k = key')) as [->|Hk]; cbn [mapGet].
    + destruct (decide (key' = key)); [contradiction|reflexivity].
    + destruct (decide (k = key)); [reflexivity|exact IH].
Qed.

Lemma scheduleEntries_length (now : Z) (suffixes : nat -> string) (clip : VideoClip)
    (entries : list (string * string)) :
  forall (n : nat) (s : UploadScheduler),
    length (scheduleEntries now suffixes n clip entries s).1 = length entries.
Proof.
  induction entries as [|[platform time] rest IH]; intros n s; [reflexivity|].
  cbn [scheduleEntries]. 
  destruct (scheduleUpload _ _ _ _ _) as [jobId s1].
  specialize (IH (S n) s1). destruct (scheduleEntries now suffixes (S n) clip rest s1).
  cbn [fst length] in *. rewrite IH. reflexivity.
Qed.

(** Scheduling further entries leaves the jobs under other ids alone. *)
Lemma scheduleEntries_other (now : Z) (suffixes : nat -> string) (clip : VideoClip)
    (entries : list (string * string)) (jobId : string) :
  forall (n : nat) (s : UploadScheduler),
    ~ In jobId (scheduleEntries now suffixes n clip entries s).1 ->
    mapGet jobId (scheduledJobs (scheduleEntries now suffixes n clip entries s).2)
    = mapGet jobId (scheduledJobs s).
Proof.
  induction entries as [|[platform time] rest IH]; intros n s Hnot; [reflexivity|].
  cbn [scheduleEntries] in *. unfold scheduleUpload in *.
  match type of Hnot with
  | context [scheduleEntries now suffixes (S n) clip rest ?s1] =>
      specialize (IH (S n) s1);
      destruct (scheduleEntries now suffixes (S n) clip rest s1) as [ids s2] eqn:Hrest
  end.
  cbn [fst snd] in *. rewrite IH by (intros Hin; apply Hnot; right; exact Hin).
  cbn [scheduledJobs].
  apply mapGet_mapSet_ne. intros Heq. apply Hnot. left. exact Heq.
Qed.

Lemma scheduleEntries_jobs (now : Z) (suffixes : nat -> string) (clip : VideoClip)
    (entries : list (string * string)) :
  forall (n : nat) (s : UploadScheduler) (k : nat) (platform time : string),
    entries !! k = Some (platform, time) ->
    exists jobId : string,
      (scheduleEntries now suffixes n clip entries s).1 !! k = Some jobId /\
      (List.NoDup (scheduleEntries now suffixes n clip entries s).1 ->
       exists job : Job.t,
         mapGet jobId (scheduledJobs (scheduleEntries now suffixes n clip entries s).2)
         = Some job /\
         Job.status job = Job.scheduled /\
         Job.scheduleTime job = nextOccurrence now time /\
         platforms (Job.clip job) = [platform]).
Proof.
  induction entries as [|[p0 t0] rest IH]; intros n s k platform time Hk; [discriminate Hk|].
  cbn [scheduleEntries].
  pose proof (scheduleEntries_other now suffixes clip rest) as Hother.
  unfold scheduleUpload.
  match goal with
  | |- context [scheduleEntries now suffixes (S n) clip rest ?s1] =>
      specialize (IH (S n) s1); specialize (fun j => Hother j (S n) s1);
      destruct (scheduleEntries now suffixes (S n) clip rest s1) as [ids s2] eqn:Hrest
  end.
  cbn [fst snd] in *.
  destruct k as [|k].
  - injection Hk as -> ->. eexists. split; [reflexivity|].
    intros Hnd. apply NoDup_cons_iff in Hnd. destruct Hnd as [Hnot _].
    eexists. split; [rewrite Hother by exact Hnot; apply mapGet_mapSet_eq|].
    repeat split.
  - destruct (IH k platform time Hk) as (jobId & Hid & Hjob).
    exists jobId. split; [exact Hid|].
    intros Hnd. apply NoDup_cons_iff in Hnd. apply Hjob. tauto.
Qed.

Lemma startOfDay_add (t tod : Z) :
  0 <= tod < Js.msPerDay ->
  Js.startOfDay (Js.startOfDay t + tod) = Js.startOfDay t /\
  Js.startOfDay (Js.msPerDay + (Js.startOfDay t + tod)) = Js.startOfDay t + Js.msPerDay.
Proof.
  intros Htod. unfold Js.startOfDay.
  assert (HD : 0 < Js.msPerDay) by (unfold Js.msPerDay; lia).
  assert (Hq : t - t mod Js.msPerDay = (t / Js.msPerDay) * Js.msPerDay).
  { pose proof (Z.div_mod t Js.msPerDay). lia. }
  rewrite Hq.
  assert (H1 : ((t / Js.msPerDay) * Js.msPerDay + tod) mod Js.msPerDay = tod).
  { rewrite Z.add_comm, Z.mod_add by lia. apply Z.mod_small. exact Htod. }
  assert (H2 : (Js.msPerDay + ((t / Js.msPerDay) * Js.msPerDay + tod)) mod Js.msPerDay = tod).
  { replace (Js.msPerDay + (t / Js.msPerDay * Js.msPerDay + tod))
      with (tod + (t / Js.msPerDay + 1) * Js.msPerDay) by lia.
    rewrite Z.mod_add by lia. apply Z.mod_small. exact Htod. }
  rewrite H1, H2. lia.
Qed.

(** C7: [schedulePlatformUploads] returns one job id per pair of the
    schedule; the job created for a pair is [scheduled], has a clip whose
    only platform is that of the pair, and has for target the next
    occurrence of the time of day: on the following day when that time of
    day has passed at the call, on the day of the call otherwise. *)
Theorem schedulePlatformUploads_targets (now : Z) (suffixes : nat -> string)
    (clip : VideoClip) (platformSchedule : list (string * string)) (s : UploadScheduler) :
  let out := schedulePlatformUploads now suffixes clip platformSchedule s in
  length out.1 = length platformSchedule /\
  (forall (k : nat) (platform time : string),
     platformSchedule !! k = Some (platform, time) ->
     exists jobId : string,
       out.1 !! k = Some jobId /\
       (List.NoDup out.1 ->
        exists job : Job.t,
          mapGet jobId (scheduledJobs out.2) = Some job /\
          Job.status job = Job.scheduled /\
          Job.scheduleTime job = nextOccurrence now time /\
          platforms (Job.clip job) = [platform])) /\
  (forall (time : string) (h m : Z),
     parseTimeOfDay time = (Some h, Some m) -> 0 <= h < 24 -> 0 <= m < 60 ->
     let tod := h * 3600000 + m * 60000 in
     (Js.startOfDay now + tod < now ->
      exists r, nextOccurrence now time = Some r /\
                Js.startOfDay r = Js.startOfDay now + Js.msPerDay /\
                r - Js.startOfDay r = tod) /\
     (now <= Js.startOfDay now + tod ->
      exists r, nextOccurrence now time = Some r /\
                Js.startOfDay r = Js.startOfDay now /\
                r - Js.startOfDay r = tod)).
Proof.
  cbv zeta. unfold schedulePlatformUploads.
  split; [apply scheduleEntries_length|].
  split; [intros k platform time Hk; apply scheduleEntries_jobs; exact Hk|].
  intros time h m Hparse Hh Hm.
  assert (Htod : 0 <= h * 3600000 + m * 60000 < Js.msPerDay) by (unfold Js.msPerDay; lia).
  destruct (startOfDay_add now _ Htod) as [Htoday Htomorrow].
  unfold nextOccurrence. rewrite Hparse. cbn [fst snd Js.setHours Js.dateLt].
  rewrite <- Z.add_assoc.
  split; intros Hcmp.
  - apply Z.ltb_lt in Hcmp. rewrite Hcmp. cbn [Js.nextDay fmap option_fmap option_map].
    eexists. split; [reflexivity|]. rewrite Htomorrow. split; [reflexivity|]. lia.
  - assert (Hnot : (Js.startOfDay now + (h * 3600000 + m * 60000) <? now) = false)
      by (apply Z.ltb_ge; exact Hcmp).
    rewrite Hnot. eexists. split; [reflexivity|]. rewrite Htoday. split; [reflexivity|]. lia.
Qed.

Lemma schedulePlatformUploads_targets_witness :
  length (schedulePlatformUploads 36000000 Sample.suffixes
            (Sample.clip "clip.mp4" "T" ["youtube"; "instagram"; "tiktok"])
            [("youtube", "09:00"); ("tiktok", "18:00")] UploadScheduler_new).1 = 2%nat /\
  nextOccurrence 36000000 "09:00" = Some 118800000 /\
  nextOccurrence 36000000 "18:00" = Some 64800000 /\
  exists job : Job.t,
    mapGet "job_36000000_r1"
      (scheduledJobs (schedulePlatformUploads 36000000 Sample.suffixes
                        (Sample.clip "clip.mp4" "T" ["youtube"; "instagram"; "tiktok"])
                        [("youtube", "09:00"); ("tiktok", "18:00")] UploadScheduler_new).2)
    = Some job /\
    Job.scheduleTime job = Some 64800000 /\
    platforms (Job.clip job) = ["tiktok"].
Proof.
  destruct (schedulePlatformUploads_targets 36000000 Sample.suffixes
              (Sample.clip "clip.mp4" "T" ["youtube"; "instagram"; "tiktok"])
              [("youtube", "09:00"); ("tiktok", "18:00")] UploadScheduler_new)
    as (Hlen & Hjobs & Htimes).
  destruct (Htimes "09:00" 9 0 eq_refl ltac:(lia) ltac:(lia)) as [Hpast _].
  destruct (Htimes "18:00" 18 0 eq_refl ltac:(lia) ltac:(lia)) as [_ Hfuture].
  destruct Hpast as (r1 & Hr1 & _); [vm_compute; reflexivity|].
  destruct Hfuture as (r2 & Hr2 & _); [vm_compute; discriminate|].
  destruct (Hjobs 1%nat "tiktok" "18:00" eq_refl) as (jobId & Hid & Hjob).
  destruct Hjob as (job & Hget & _ & Htime & Hplat).
  { vm_compute. apply List.NoDup_cons; [intros [H|[]]; discriminate H|].
    apply List.NoDup_cons; [intros []|apply List.NoDup_nil]. }
  split; [exact Hlen|].
  split; [vm_compute; reflexivity|].
  split; [vm_compute; reflexivity|].
  exists job. vm_compute in Hid. injection Hid as <-.
  split; [exact Hget|]. split; [rewrite Htime; vm_compute; reflexivity|exact Hplat].
Defined.

Lemma tick_job_lifecycle_witness :
  (exists job' : Job.t,
     scheduledJobs (checkScheduledJobs Sample.clockOf Sample.runBatch Sample.scheduler
                      (Sample.world 60000, [])).1.1 !! 0%nat = Some ("job_a", job') /\
     Job.status job' = Job.completed) /\
  In "job_a"
    (activeIds (fireDeletions 86460302
                  (checkScheduledJobs Sample.clockOf Sample.runBatch Sample.scheduler
                     (Sample.world 60000, [])).1.1)) /\
  ~ In "job_a"
    (activeIds (fireDeletions 86460303
                  (checkScheduledJobs Sample.clockOf Sample.runBatch Sample.scheduler
                     (Sample.world 60000, [])).1.1)) /\
  scheduledJobs (checkScheduledJobs Sample.clockOf Sample.runBatch Sample.scheduler
                   (Sample.world 60000, [])).1.1 !! 1%nat = Some ("job_b", Sample.jobB).
Proof.
  destruct (tick_job_lifecycle Sample.clockOf Sample.runBatch Sample.scheduler
              (Sample.world 60000, []) [] [("job_b", Sample.jobB)] "job_a" Sample.jobA
              eq_refl) as [HA _].
  destruct (tick_job_lifecycle Sample.clockOf Sample.runBatch Sample.scheduler
              (Sample.world 60000, []) [("job_a", Sample.jobA)] [] "job_b" Sample.jobB
              eq_refl) as [_ HB].
  destruct (HA 0 eq_refl eq_refl) as (job' & before & after & Hget & Hres & _ & Hkeep & Hdrop).
  { vm_compute. discriminate. }
  destruct HB as (HgetB & _); [discriminate|].
  split; [|split; [|split]].
  - exists job'. split; [exact Hget|].
    unfold Sample.runBatch, runJob in Hres. cbn [fst snd] in Hres. apply Hres.
  - apply Hkeep.
    + vm_compute. apply List.NoDup_cons; [intros [H|[]]; discriminate H|].
      apply List.NoDup_cons; [intros []|apply List.NoDup_nil].
    + intros d [].
    + vm_compute. reflexivity.
  - apply Hdrop. vm_compute. discriminate.
  - exact HgetB.
Defined.

(** C1 is not what the code does: [uploadClips] goes through
    [CONFIG.PLATFORMS_TO_UPLOAD] and never reads [clip.platforms].  A clip
    whose platforms are [tiktok] alone is uploaded to the three configured
    platforms, and so is the clip of the job that [schedulePlatformUploads]
    creates for [tiktok], when a tick executes that job. *)
Theorem scheduled_platform_job_uploads_everywhere :
  firstAttempts
    (uploadClips Sample.reliable Sample.noDelay CONFIG_source Sample.files
       [Sample.clip "clip.mp4" "T" ["tiktok"]] (Sample.world 0)).2
  = [("T", "youtube"); ("T", "instagram"); ("T", "tiktok")] /\
  map (fun j => platforms (Job.clip j.2))
    (scheduledJobs
       (schedulePlatformUploads 36000000 Sample.suffixes
          (Sample.clip "clip.mp4" "T" ["youtube"; "instagram"; "tiktok"])
          [("tiktok", "18:00")] UploadScheduler_new).2)
  = [["tiktok"]] /\
  map (fun j => Job.status j.2)
    (scheduledJobs
       (checkScheduledJobs Sample.clockOf Sample.runBatch
          (schedulePlatformUploads 36000000 Sample.suffixes
             (Sample.clip "clip.mp4" "T" ["youtube"; "instagram"; "tiktok"])
             [("tiktok", "18:00")] UploadScheduler_new).2
          (Sample.world 64800000, [])).1.1)
  = [Job.completed] /\
  firstAttempts
    (checkScheduledJobs Sample.clockOf Sample.runBatch
       (schedulePlatformUploads 36000000 Sample.suffixes
          (Sample.clip "clip.mp4" "T" ["youtube"; "instagram"; "tiktok"])
          [("tiktok", "18:00")] UploadScheduler_new).2
       (Sample.world 64800000, [])).1.2.2
  = [("T", "youtube"); ("T", "instagram"); ("T", "tiktok")].
Proof. vm_compute. repeat split. Qed.

(** ** The rate limiter *)

(** The timestamp recorded by [checkLimit] is the instant of entry. *)
Lemma checkLimit_records_entry (now : Z) (rl : RateLimiter) :
  requests (checkLimit now rl).2
  = filter (fun time => now - time < windowMs rl) (requests rl) ++ [now].
Proof. reflexivity. Qed.

Lemma fold_min_le (xs : list Z) :
  forall x t, In t (x :: xs) -> fold_left Z.min xs x <= t.
Proof.
  induction xs as [|y xs IH]; intros x t Hin; cbn [fold_left].
  - destruct Hin as [<-|[]]. lia.
  - destruct Hin as [<-|[<-|Hin]].
    + specialize (IH (Z.min x y) (Z.min x y) (or_introl eq_refl)). lia.
    + specialize (IH (Z.min x y) (Z.min x y) (or_introl eq_refl)). lia.
    + apply IH. right. exact Hin.
Qed.

Lemma fold_min_In (xs : list Z) : forall x, In (fold_left Z.min xs x) (x :: xs).
Proof.
  induction xs as [|y xs IH]; intros x; cbn [fold_left]; [left; reflexivity|].
  destruct (IH (Z.min x y)) as [H|H].
  - destruct (Z.min_spec x y) as [[_ Hm]|[_ Hm]]; [left|right; left]; congruence.
  - right. right. exact H.
Qed.

(** When the window is full, [checkLimit] sleeps for the window length
    minus the age of the oldest request left in the window, a positive
    delay. *)
Lemma checkLimit_full (now : Z) (rl : RateLimiter) :
  let kept := filter (fun time => now - time < windowMs rl) (requests rl) in
  maxRequests rl <= Z.of_nat (length kept) -> kept <> [] ->
  exists oldest : Z,
    minOf kept = Some oldest /\ In oldest kept /\
    (forall t, In t kept -> oldest <= t) /\
    (checkLimit now rl).1 = Some (Some (windowMs rl - (now - oldest))) /\
    0 < windowMs rl - (now - oldest).
Proof.
  cbv zeta. intros Hfull Hne. unfold checkLimit, waitTime. cbn [fst].
  destruct (filter (fun time => now - time < windowMs rl) (requests rl))
    as [|x kept] eqn:Hkept; [contradiction|].
  exists (fold_left Z.min kept x). cbn [minOf].
  assert (Hin : In (fold_left Z.min kept x) (x :: kept)) by apply fold_min_In.
  split; [reflexivity|]. split; [exact Hin|].
  split; [intros t Ht; apply fold_min_le; exact Ht|]. split.
  - destruct (Z.geb_spec (Z.of_nat (length (x :: kept))) (maxRequests rl)); [reflexivity|lia].
  - rewrite <- Hkept in Hin. apply list_elem_of_In in Hin.
    apply list_elem_of_filter in Hin. lia.
Qed.

Lemma countInWindow_le_length (w upTo : Z) (ts : list Z) :
  (countInWindow w upTo ts <= length ts)%nat.
Proof. unfold countInWindow. apply length_filter. Qed.

Lemma countInWindow_app (w upTo : Z) (ts us : list Z) :
  countInWindow w upTo (ts ++ us) = (countInWindow w upTo ts + countInWindow w upTo us)%nat.
Proof. unfold countInWindow. rewrite filter_app, length_app. reflexivity. Qed.

(** The requests that [checkLimit] keeps are those of the window that
    trails from the instant of the call. *)
Lemma countInWindow_kept (w now : Z) (ts : list Z) :
  (forall t, In t ts -> t <= now) ->
  countInWindow w now ts = length (filter (fun time => now - time < w) ts).
Proof.
  unfold countInWindow. induction ts as [|t ts IH]; intros Hle; [reflexivity|].
  rewrite !filter_cons.
  assert (Ht : t <= now) by (apply Hle; left; reflexivity).
  assert (IH' := IH (fun u Hu => Hle u (or_intror Hu))).
  destruct (decide (now - t < w)) as [Hin|Hout].
  - rewrite decide_True; [cbn [length]; rewrite IH'; reflexivity|].
    apply Is_true_true. apply andb_true_intro. split; [apply Z.ltb_lt|apply Z.leb_le]; lia.
  - rewrite decide_False; [exact IH'|].
    intros H. apply Is_true_true in H. apply andb_prop in H. destruct H as [H _].
    apply Z.ltb_lt in H. lia.
Qed.

(** A request that has left the window is not counted. *)
Lemma countInWindow_expired (w upTo x : Z) (ts : list Z) :
  In x ts -> x <= upTo - w -> (countInWindow w upTo ts + 1 <= length ts)%nat.
Proof.
  unfold countInWindow. induction ts as [|t ts IH]; intros Hin Hx; [destruct Hin|].
  rewrite filter_cons. destruct Hin as [->|Hin].
  - rewrite decide_False.
    + cbn [length]. pose proof (length_filter (fun t => (upTo - w <? t) && (t <=? upTo)) ts). lia.
    + intros H. apply Is_true_true in H. apply andb_prop in H. destruct H as [H _].
      apply Z.ltb_lt in H. lia.
  - specialize (IH Hin Hx). destruct (decide _); cbn [length]; lia.
Qed.

(** What the code does keep: once a call of [checkLimit] has returned, the
    timestamps it holds in the window that trails from the current instant
    are no more than [maxRequests]. *)
Lemma checkLimit_current_window (now : Z) (rl : RateLimiter) :
  1 <= maxRequests rl -> windowMs rl <= 2147483647 ->
  (forall t, In t (requests rl) -> t <= now) ->
  Z.of_nat (countInWindow (windowMs rl) now (requests rl)) <= maxRequests rl ->
  forall upTo : Z,
    returnedAt now (checkLimit now rl).1 <= upTo ->
    Z.of_nat (countInWindow (windowMs rl) upTo (requests (checkLimit now rl).2))
    <= maxRequests rl.
Proof.
  intros Hmax Hw Hpast Hinv upTo Hret.
  rewrite checkLimit_records_entry, countInWindow_app.
  rewrite (countInWindow_kept _ _ _ Hpast) in Hinv.
  set (kept := filter (fun time => now - time < windowMs rl) (requests rl)) in *.
  pose proof (countInWindow_le_length (windowMs rl) upTo kept) as Hk.
  pose proof (countInWindow_le_length (windowMs rl) upTo [now]) as Hn. cbn [length] in Hn.
  destruct (Z_lt_le_dec (Z.of_nat (length kept)) (maxRequests rl)) as [Hroom|Hfull]; [lia|].
  assert (Hne : kept <> []) by (intros Hnil; rewrite Hnil in Hfull; cbn in Hfull; lia).
  destruct (checkLimit_full now rl Hfull Hne) as (oldest & _ & Hin & _ & Hslept & Hpos).
  fold kept in Hin. rewrite Hslept in Hret. unfold returnedAt, sleepDuration in Hret.
  assert (Hage : now - oldest < windowMs rl).
  { apply list_elem_of_In in Hin. apply list_elem_of_filter in Hin. tauto. }
  assert (Hrange : (1 <=? windowMs rl - (now - oldest))
                   && (windowMs rl - (now - oldest) <=? 2147483647) = true).
  { apply andb_true_intro. split; [apply Z.leb_le|apply Z.leb_le]; [lia|].
    assert (oldest <= now); [|lia].
    apply Hpast. apply list_elem_of_In in Hin. apply list_elem_of_filter in Hin.
    apply list_elem_of_In. tauto. }
  rewrite Hrange in Hret.
  pose proof (countInWindow_expired (windowMs rl) upTo oldest kept Hin) as Hexp.
  lia.
Qed.

(** C3 is not what the code does.  The limiter of the constructor allows
    50 requests per hour.  A caller makes 50 calls at the instant 0, one
    after half an hour and 50 after an hour.  The 51st call finds the window
    full and sleeps for exactly one hour minus the age of the oldest request,
    half an hour, but what it then records is its instant of entry, not the
    instant at which it lets the caller through.  The limiter holds 51
    timestamps that lie in one window of an hour, and the caller is let
    through 51 times in the hour that ends when the last call returns. *)
Theorem rate_limit_exceeded :
  (checkLimit 1800000
     {| maxRequests := 50; windowMs := 3600000; requests := repeat 0 50 |}).1
  = Some (Some 1800000) /\
  (acquireRun 0 RateLimiter_new (take 51 Sample.burst)).1 !! 50%nat
  = Some (1800000, 3600000) /\
  countInWindow 3600000 1800000
    (requests (acquireRun 0 RateLimiter_new (take 51 Sample.burst)).2) = 51%nat /\
  last (acquireRun 0 RateLimiter_new Sample.burst).1 = Some (3600000, 5400000) /\
  countInWindow 3600000 5400000 (map snd (acquireRun 0 RateLimiter_new Sample.burst).1)
  = 51%nat.
Proof. vm_compute. repeat split. Qed.

(** ** The analytics recorder *)

Lemma readCounts_insert_eq (h : Heap) (r : Ref) (t : gmap string N) :
  readCounts (<[r := Counts t]> h) r = t.
Proof. unfold readCounts. rewrite lookup_insert_eq. reflexivity. Qed.

Lemma readCounts_insert_ne (h : Heap) (r r' : Ref) (o : HeapObject) :
  r' <> r -> readCounts (<[r' := o]> h) r = readCounts h r.
Proof. intros Hne. unfold readCounts. rewrite lookup_insert_ne by exact Hne. reflexivity. Qed.

Lemma readPerformance_insert_eq (h : Heap) (r : Ref) (t : gmap string PlatformPerformance) :
  readPerformance (<[r := Performance t]> h) r = t.
Proof. unfold readPerformance. rewrite lookup_insert_eq. reflexivity. Qed.

(** On a success [recordUpload] stores the quotient of the two counters as
    the success rate of the platform. *)
Lemma recordUpload_success_rate (now : Z) (platform : string) (error : option string)
    (a : Analytics) :
  wellFormed a ->
  storedRate (recordUpload now platform true error a) platform
  = Some (inject_Z (Z.of_N (successes (recordUpload now platform true error a) platform))
          / inject_Z (Z.of_N (attempts (recordUpload now platform true error a) platform)))%Q.
Proof.
  intros (_ & _ & _ & _ & Hnd).
  assert (Hne : platformPerformance (data a) <> successfulUploads (data a)).
  { intros Heq. apply NoDup_cons in Hnd. destruct Hnd as [Hnot _]. apply Hnot.
    rewrite <- Heq. set_solver. }
  unfold storedRate, successes, attempts, recordUpload.
  cbn [heap data platformPerformance successfulUploads].
  rewrite readPerformance_insert_eq, lookup_insert_eq.
  rewrite (readCounts_insert_ne _ _ _ _ Hne), readCounts_insert_eq.
  reflexivity.
Qed.

(** On a failure [recordUpload] leaves the success rate of the platform as
    it was stored, or at 0 for a platform it had not seen. *)
Lemma recordUpload_failure_rate (now : Z) (platform : string) (error : option string)
    (a : Analytics) :
  wellFormed a ->
  storedRate (recordUpload now platform false error a) platform
  = Some (default 0%Q (storedRate a platform)).
Proof.
  intros (_ & _ & _ & _ & Hnd).
  assert (Hne : failedUploads (data a) <> platformPerformance (data a)).
  { intros Heq. apply NoDup_cons in Hnd. destruct Hnd as [_ Hnd].
    apply NoDup_cons in Hnd. destruct Hnd as [Hnot _]. apply Hnot.
    rewrite Heq. set_solver. }
  unfold storedRate, recordUpload.
  cbn [heap data platformPerformance failedUploads].
  rewrite readPerformance_insert_eq, lookup_insert_eq.
  unfold readPerformance at 1. rewrite lookup_insert_ne by exact Hne.
  fold (readPerformance (heap a) (platformPerformance (data a))).
  destruct (readPerformance (heap a) (platformPerformance (data a)) !! platform);
    reflexivity.
Qed.

(** C4 is not what the code does on a failure: [recordUpload] computes
    the success rate in the branch of a success only.  After one success
    and one failure on a platform, the platform has 1 success in 2
    attempts, and the stored success rate is still 1. *)
Theorem success_rate_stale_after_failure :
  storedRate (recordUpload 2 "youtube" false (Some "quota_exceeded")
                (recordUpload 1 "youtube" true None Analytics_new)) "youtube"
  = Some (1 # 1)%Q /\
  successes (recordUpload 2 "youtube" false (Some "quota_exceeded")
               (recordUpload 1 "youtube" true None Analytics_new)) "youtube" = 1%N /\
  attempts (recordUpload 2 "youtube" false (Some "quota_exceeded")
              (recordUpload 1 "youtube" true None Analytics_new)) "youtube" = 2%N /\
  ~ ((1 # 1) == inject_Z 1 / inject_Z 2)%Q.
Proof.
  split; [vm_compute; reflexivity|]. split; [vm_compute; reflexivity|].
  split; [vm_compute; reflexivity|]. intros H. vm_compute in H. discriminate H.
Qed.

(** ** Snapshots of the analytics *)

Section Snapshots.

Context {PlatformState : Type}.
Variable upload : string -> VideoClip -> PlatformState -> UploadReturn * PlatformState * Z.



End Snapshots.

Lemma Analytics_new_wellFormed : wellFormed Analytics_new.
Proof.
  unfold wellFormed. cbn [data Analytics_new successfulUploads failedUploads uploadHistory
                           platformPerformance].
  split; [eexists; reflexivity|]. split; [eexists; reflexivity|].
  split; [eexists; reflexivity|]. split; [eexists; reflexivity|].
  apply NoDup_ListNoDup.
  repeat (apply List.NoDup_cons;
          [cbn [In]; intros H; decompose [or] H; (discriminate || contradiction)|]).
  apply List.NoDup_nil.
Qed.



(** * Part III: further properties of the code *)

(** ** More on the retry driver *)

Section RetryOutcome.

Context {PlatformState : Type}.
Variable upload : string -> VideoClip -> PlatformState -> UploadReturn * PlatformState * Z.

Lemma returns_app (a b : list (string * nat * UploadReturn)) :
  returns (a ++ b) = returns a ++ returns b.
Proof. apply map_app. Qed.

Lemma lastThrown_cons_returns (identifier : string) (outs : list UploadReturn) :
  lastThrown (Returns identifier :: outs) = lastThrown outs.
Proof. reflexivity. Qed.

Lemma lastThrown_cons_throws (m : string) (outs : list UploadReturn) :
  lastThrown (Throws m :: outs) = Some (default m (lastThrown outs)).
Proof.
  unfold lastThrown. cbn [omap list_omap].
  destruct (omap _ outs) as [|x l]; [reflexivity|].
  cbn [last]. destruct (last (x :: l)) eqn:Hl; [reflexivity|].
  apply last_None in Hl. discriminate Hl.
Qed.

(** The loop of [uploadWithRetry] from any iteration on. *)
Lemma attemptsFrom_outcome (platform name : string) (clip : VideoClip)
    (maxRetries remaining : nat) :
  forall (attempt : nat) (lastError : option string) (w : World PlatformState),
    let out := attemptsFrom upload platform name clip maxRetries remaining attempt lastError w in
    let invs := invocations out.2 in
    map fst invs = map (fun a => (platform, a)) (seq attempt (length invs)) /\
    (length invs <= remaining)%nat /\
    UploadResult.platform out.1.1 = name /\
    UploadResult.retryCount out.1.1 = 0%nat /\
    UploadResult.uploadTime out.1.1 = clock out.1.2 /\
    if UploadResult.success out.1.1 then
      exists (before : list UploadReturn) (identifier : string),
        returns invs = before ++ [Returns identifier] /\
        Js.truthy identifier = true /\
        forallb (fun o => negb (returnsTruthy o)) before = true /\
        UploadResult.url out.1.1 = Some identifier /\
        UploadResult.error out.1.1 = None
    else
      length invs = remaining /\
      forallb (fun o => negb (returnsTruthy o)) (returns invs) = true /\
      UploadResult.url out.1.1 = None /\
      UploadResult.error out.1.1
      = match lastThrown (returns invs) with Some m => Some m | None => lastError end.
Proof.
  induction remaining as [|r IH]; intros attempt lastError w; cbv zeta.
  - unfold attemptsFrom, bind, now, ret. cbn. repeat split. lia.
  - rewrite attemptsFrom_S. cbn zeta.
    destruct (upload platform clip (platformState (rateLimit platform w).1.2))
      as [[[identifier|message] st] d]; cbn [fst snd].
    + destruct (Js.truthy identifier) eqn:Hid; cbn [fst snd].
      * rewrite !invocations_app, rateLimit_invocations. cbn.
        repeat split; [lia|]. exists [], identifier. repeat split. exact Hid.
      * match goal with
        | |- context [attemptsFrom upload platform name clip maxRetries r (S attempt) lastError ?w2] =>
            specialize (IH (S attempt) lastError w2); cbv zeta in IH;
            set (rest := attemptsFrom upload platform name clip maxRetries r (S attempt)
                           lastError w2) in *
        end.
        destruct IH as (Hnum & Hlen & Hname & Hcount & Htime & Hres).
        rewrite !invocations_app, rateLimit_invocations.
        cbn [app invocations omap list_omap]. fold (invocations rest.2).
        cbn [map fst length seq returns snd]. fold (returns (invocations rest.2)).
        split; [rewrite Hnum; reflexivity|]. split; [lia|].
        split; [exact Hname|]. split; [exact Hcount|]. split; [exact Htime|].
        destruct (UploadResult.success rest.1.1).
        -- destruct Hres as (before & id' & Hret & Hid' & Hbefore & Hurl & Herr).
           exists (Returns identifier :: before), id'.
           rewrite Hret. cbn [forallb returnsTruthy]. rewrite Hid, Hbefore.
           repeat split; assumption.
        -- destruct Hres as (Hl & Hall & Hurl & Herr).
           cbn [forallb returnsTruthy]. rewrite Hid, Hall, lastThrown_cons_returns.
           repeat split; [lia|assumption|assumption].
    + assert (Hgoal : forall w2,
                let rest := attemptsFrom upload platform name clip maxRetries r (S attempt)
                              (Some message) w2 in
                forall pre,
                  invocations pre = [(platform, attempt, Throws message)] ->
                  let invs := invocations (pre ++ rest.2) in
                  map fst invs = map (fun a => (platform, a)) (seq attempt (length invs)) /\
                  (length invs <= S r)%nat /\
                  UploadResult.platform rest.1.1 = name /\
                  UploadResult.retryCount rest.1.1 = 0%nat /\
                  UploadResult.uploadTime rest.1.1 = clock rest.1.2 /\
                  if UploadResult.success rest.1.1 then
                    exists (before : list UploadReturn) (identifier : string),
                      returns invs = before ++ [Returns identifier] /\
                      Js.truthy identifier = true /\
                      forallb (fun o => negb (returnsTruthy o)) before = true /\
                      UploadResult.url rest.1.1 = Some identifier /\
                      UploadResult.error rest.1.1 = None
                  else
                    length invs = S r /\
                    forallb (fun o => negb (returnsTruthy o)) (returns invs) = true /\
                    UploadResult.url rest.1.1 = None /\
                    UploadResult.error rest.1.1
                    = match lastThrown (returns invs) with
                      | Some m => Some m
                      | None => lastError
                      end).
      { intros w2 rest pre Hpre. cbv zeta.
        specialize (IH (S attempt) (Some message) w2). cbv zeta in IH. fold rest in IH.
        destruct IH as (Hnum & Hlen & Hname & Hcount & Htime & Hres).
        rewrite invocations_app, Hpre.
        cbn [app map fst length seq returns snd]. fold (returns (invocations rest.2)).
        split; [rewrite Hnum; reflexivity|]. split; [lia|].
        split; [exact Hname|]. split; [exact Hcount|]. split; [exact Htime|].
        destruct (UploadResult.success rest.1.1).
        - destruct Hres as (before & id' & Hret & Hid' & Hbefore & Hurl & Herr).
          exists (Throws message :: before), id'.
          rewrite Hret. cbn [forallb returnsTruthy negb andb].
          repeat split; assumption.
        - destruct Hres as (Hl & Hall & Hurl & Herr).
          cbn [forallb returnsTruthy negb andb]. rewrite lastThrown_cons_throws.
          repeat split; [lia|assumption|assumption|].
          rewrite Herr. destruct (lastThrown (returns (invocations rest.2))); reflexivity. }
      destruct (attempt <? maxRetries)%nat; cbn [fst snd].
      * change (Slept ?r ?d :: ?l) with ([Slept r d] ++ l). rewrite app_assoc.
        match goal with
        | |- context [attemptsFrom upload platform name clip maxRetries r (S attempt)
                        (Some message) ?w2] =>
            apply (Hgoal w2)
        end.
        rewrite !invocations_app, rateLimit_invocations. reflexivity.
      * match goal with
        | |- context [attemptsFrom upload platform name clip maxRetries r (S attempt)
                        (Some message) ?w2] =>
            apply (Hgoal w2)
        end.
        rewrite !invocations_app, rateLimit_invocations. reflexivity.
Qed.

(** X1: whatever the platform operation does, [uploadWithRetry] numbers its
    invocations 1, 2, ... and makes at most [maxRetries] of them.  It reports
    a success exactly when the last invocation returned a truthy identifier,
    which is then the url, no invocation before it having done so; it
    reports a failure after exactly [maxRetries] invocations none of which
    returned a truthy identifier, with the message of the last invocation
    that threw as the error, also when later invocations returned a falsy
    value, and with no error when none threw.  The [retryCount] of the
    result is 0 in every case. *)
Theorem uploadWithRetry_outcome (platform name : string) (clip : VideoClip)
    (maxRetries : nat) (w : World PlatformState) :
  let out := uploadWithRetry upload platform name clip maxRetries w in
  let invs := invocations out.2 in
  map fst invs = map (fun a => (platform, a)) (seq 1 (length invs)) /\
  (length invs <= maxRetries)%nat /\
  UploadResult.platform out.1.1 = name /\
  UploadResult.retryCount out.1.1 = 0%nat /\
  UploadResult.uploadTime out.1.1 = clock out.1.2 /\
  if UploadResult.success out.1.1 then
    exists (before : list UploadReturn) (identifier : string),
      returns invs = before ++ [Returns identifier] /\
      Js.truthy identifier = true /\
      forallb (fun o => negb (returnsTruthy o)) before = true /\
      UploadResult.url out.1.1 = Some identifier /\
      UploadResult.error out.1.1 = None
  else
    length invs = maxRetries /\
    forallb (fun o => negb (returnsTruthy o)) (returns invs) = true /\
    UploadResult.url out.1.1 = None /\
    UploadResult.error out.1.1 = lastThrown (returns invs).
Proof.
  cbv zeta. unfold uploadWithRetry.
  pose proof (attemptsFrom_outcome platform name clip maxRetries maxRetries 1%nat None w) as H.
  cbv zeta in H.
  destruct H as (Hnum & Hlen & Hname & Hcount & Htime & Hres).
  repeat (split; [assumption|]).
  destruct (UploadResult.success _); [exact Hres|].
  destruct Hres as (Hl & Hall & Hurl & Herr).
  repeat (split; [assumption|]).
  rewrite Herr. destruct (lastThrown _); reflexivity.
Qed.

End RetryOutcome.

Section BackoffSchedule.

Context {PlatformState : Type}.
Variable upload : string -> VideoClip -> PlatformState -> UploadReturn * PlatformState * Z.

Lemma sleepDuration_nonneg (d : option Z) : 0 <= sleepDuration d.
Proof.
  unfold sleepDuration. destruct d as [ms|]; [|lia].
  destruct (Z.leb_spec 1 ms); cbn [andb]; [|lia].
  destruct (Z.leb_spec ms 2147483647); lia.
Qed.

Lemma clock_elapse (ms : Z) (w : World PlatformState) : clock (elapse ms w) = clock w + ms.
Proof. reflexivity. Qed.

Lemma clock_setPlatformState (st : PlatformState) (w : World PlatformState) :
  clock (setPlatformState st w) = clock w.
Proof. reflexivity. Qed.

(** The rate limiter does not turn the clock back. *)
Lemma rateLimit_clock (platform : string) (w : World PlatformState) :
  clock w <= clock (rateLimit platform w).1.2.
Proof.
  unfold rateLimit, bind.
  destruct (checkLimit (clock w) (limiterOf w platform)).1 as [d|]; cbn; [|lia].
  pose proof (sleepDuration_nonneg d). unfold elapse. cbn. lia.
Qed.

Lemma backoff_in_range (attempt : nat) :
  (attempt <= 21)%nat ->
  sleepDuration (Some (2 ^ Z.of_nat attempt * 1000)) = 2 ^ Z.of_nat attempt * 1000.
Proof.
  intros Hle. unfold sleepDuration.
  assert (H1 : 1 <= 2 ^ Z.of_nat attempt) by (apply Z.pow_le_mono_r with (b := 0); lia).
  assert (H2 : 2 ^ Z.of_nat attempt <= 2 ^ 21) by (apply Z.pow_le_mono_r; lia).
  change (2 ^ 21) with 2097152 in H2.
  destruct (Z.leb_spec 1 (2 ^ Z.of_nat attempt * 1000)); [|lia].
  destruct (Z.leb_spec (2 ^ Z.of_nat attempt * 1000) 2147483647); [reflexivity|lia].
Qed.

Lemma backoffs_throwing (platform : string) (maxRetries : nat) (messages : list string) :
  forall attempt : nat,
    (attempt + length messages = S maxRetries)%nat ->
    omap (backoffAfter maxRetries) (throwing platform attempt messages)
    = map (fun a => (platform, a, Some (2 ^ Z.of_nat a * 1000)))
        (seq attempt (length messages - 1)).
Proof.
  unfold throwing.
  induction messages as [|m ms IH]; intros attempt Hlen; [reflexivity|].
  cbn [imap omap list_omap length]. unfold backoffAfter at 1. cbn [fst snd].
  rewrite Nat.add_0_r.
  assert (Hext : imap ((fun (i : nat) (m0 : string) => (platform, (attempt + i)%nat, Throws m0)) ∘ S) ms
                 = imap (fun (i : nat) (m0 : string) => (platform, (S attempt + i)%nat, Throws m0)) ms).
  { apply imap_ext. intros i x _. cbn. repeat f_equal. lia. }
  rewrite Hext. cbn [length] in Hlen.
  destruct ms as [|m' ms'].
  - cbn [length] in Hlen. assert (attempt = maxRetries) by lia. subst attempt.
    rewrite Nat.ltb_irrefl. reflexivity.
  - assert (Hlt : (attempt <? maxRetries)%nat = true)
      by (apply Nat.ltb_lt; cbn [length] in Hlen; lia).
    rewrite Hlt. rewrite (IH (S attempt)) by (cbn [length] in *; lia).
    cbn [length]. replace (S (S (length ms')) - 1)%nat with (S (length ms')) by lia.
    replace (S (length ms') - 1)%nat with (length ms') by lia.
    reflexivity.
Qed.

(** When every call throws, the clock is put forward by the backoffs at
    least. *)
Lemma attemptsFrom_throws_clock (platform name : string) (clip : VideoClip)
    (maxRetries remaining : nat) :
  (forall st, exists m st' d, upload platform clip st = (Throws m, st', d)) ->
  (maxRetries <= 22)%nat ->
  forall (attempt : nat) (lastError : option string) (w : World PlatformState),
    (attempt + remaining = S maxRetries)%nat ->
    clock w + (2 ^ Z.of_nat maxRetries - 2 ^ Z.of_nat attempt) * 1000
    <= clock (attemptsFrom upload platform name clip maxRetries remaining attempt lastError w).1.2.
Proof.
  intros Hthrows Hmax. induction remaining as [|r IH]; intros attempt lastError w Hsum.
  - unfold attemptsFrom, bind, now, ret. cbn [fst snd].
    assert (Z.of_nat maxRetries < Z.of_nat attempt) by lia.
    assert (2 ^ Z.of_nat maxRetries <= 2 ^ Z.of_nat attempt) by (apply Z.pow_le_mono_r; lia).
    lia.
  - rewrite attemptsFrom_S. cbn zeta.
    destruct (Hthrows (platformState (rateLimit platform w).1.2)) as (m & st & d & ->).
    cbn [fst snd].
    pose proof (rateLimit_clock platform w) as Hrl.
    assert (Hpow : 2 ^ Z.of_nat (S attempt) = 2 * 2 ^ Z.of_nat attempt).
    { rewrite Nat2Z.inj_succ, Z.pow_succ_r by lia. reflexivity. }
    destruct (Nat.ltb_spec attempt maxRetries) as [Hlt|Hge]; cbn [fst snd].
    + rewrite backoff_in_range by lia.
      match goal with
      | |- context [attemptsFrom upload platform name clip maxRetries r (S attempt) (Some m) ?w2] =>
          pose proof (IH (S attempt) (Some m) w2 ltac:(lia)) as Hrec
      end.
      rewrite !clock_elapse, clock_setPlatformState, clock_elapse in Hrec.
      lia.
    + assert (r = 0%nat) by lia. subst r.
      unfold attemptsFrom, bind, now, ret. cbn [fst snd].
      rewrite clock_setPlatformState, clock_elapse.
      assert (attempt = maxRetries) by lia. subst attempt. lia.
Qed.

(** X2: when every call of the platform operation throws,
    [uploadWithRetry] sleeps after each attempt but the last, for 2, 4, 8,
    ... seconds: [2 ^ attempt] seconds after the attempt numbered [attempt].
    With no more than 22 attempts, so that every delay is one that a timer
    takes, the call lasts [2 ^ maxRetries - 2] seconds at least: 6 seconds
    for the 3 attempts of the configuration. *)
Theorem uploadWithRetry_backoff_schedule (platform name : string) (clip : VideoClip)
    (maxRetries : nat) (w : World PlatformState) :
  (forall st, exists m st' d, upload platform clip st = (Throws m, st', d)) ->
  let out := uploadWithRetry upload platform name clip maxRetries w in
  backoffs out.2
  = map (fun a => (platform, a, Some (2 ^ Z.of_nat a * 1000))) (seq 1 (maxRetries - 1)) /\
  ((maxRetries <= 22)%nat ->
   clock w + (2 ^ Z.of_nat maxRetries - 2) * 1000 <= clock out.1.2).
Proof.
  intros Hthrows. cbv zeta. unfold uploadWithRetry. split.
  - rewrite attemptsFrom_backoffs.
    destruct (attemptsFrom_always_throws upload platform name clip maxRetries maxRetries
                Hthrows 1%nat None w) as (ms & Hlen & Hinv & _).
    rewrite Hinv, backoffs_throwing by lia. rewrite Hlen. reflexivity.
  - intros Hmax.
    apply (attemptsFrom_throws_clock platform name clip maxRetries maxRetries Hthrows Hmax
             1%nat None w). lia.
Qed.

End BackoffSchedule.

Lemma uploadWithRetry_backoff_schedule_witness :
  backoffs (uploadWithRetry Sample.upload "instagram" "Instagram"
              (Sample.clip "clip.mp4" "T" []) 3 (Sample.world 0)).2
  = [("instagram", 1%nat, Some 2000); ("instagram", 2%nat, Some 4000)] /\
  6000 <= clock (uploadWithRetry Sample.upload "instagram" "Instagram"
                   (Sample.clip "clip.mp4" "T" []) 3 (Sample.world 0)).1.2.
Proof.
  destruct (uploadWithRetry_backoff_schedule Sample.upload "instagram" "Instagram"
              (Sample.clip "clip.mp4" "T" []) 3 (Sample.world 0)) as [Hb Hc].
  - intros st. eexists _, _, _. reflexivity.
  - split; [exact Hb|]. apply Hc. lia.
Defined.

(** ** More on the rate limiter *)

Lemma checkLimit_settings (now : Z) (rl : RateLimiter) :
  maxRequests (checkLimit now rl).2 = maxRequests rl /\
  windowMs (checkLimit now rl).2 = windowMs rl.
Proof. split; reflexivity. Qed.

Lemma returnedAt_le (now : Z) (slept : option (option Z)) : now <= returnedAt now slept.
Proof.
  unfold returnedAt. destruct slept as [d|]; [|lia].
  unfold sleepDuration. destruct d as [ms|]; [|lia].
  destruct (Z.leb_spec 1 ms); cbn [andb]; [|lia].
  destruct (Z.leb_spec ms 2147483647); lia.
Qed.

(** X3: [checkLimit] lets the caller through at once exactly when the
    window that trails from the instant of the call holds fewer than
    [maxRequests] timestamps.  Otherwise it sleeps until the oldest of these
    timestamps leaves the window, a delay that is positive and no longer
    than the window.  In both cases it forgets the timestamps that have left
    the window and records the instant of the call. *)
Theorem checkLimit_waits_for_oldest (now : Z) (rl : RateLimiter) :
  1 <= maxRequests rl ->
  (forall t, In t (requests rl) -> t <= now) ->
  ((checkLimit now rl).1 = None <->
   Z.of_nat (countInWindow (windowMs rl) now (requests rl)) < maxRequests rl) /\
  (forall delay, (checkLimit now rl).1 = Some delay ->
     exists oldest : Z,
       In oldest (requests rl) /\ now - oldest < windowMs rl /\
       (forall t, In t (requests rl) -> now - t < windowMs rl -> oldest <= t) /\
       delay = Some (oldest + windowMs rl - now) /\
       0 < oldest + windowMs rl - now <= windowMs rl) /\
  (forall t, In t (requests (checkLimit now rl).2) <->
             t = now \/ (In t (requests rl) /\ now - t < windowMs rl)).
Proof.
  intros Hmax Hpast.
  rewrite (countInWindow_kept _ _ _ Hpast).
  pose proof (checkLimit_full now rl) as Hfull. cbv zeta in Hfull.
  assert (Hkept : forall t, In t (filter (fun time => now - time < windowMs rl) (requests rl))
                            <-> In t (requests rl) /\ now - t < windowMs rl).
  { intros t. rewrite <- !list_elem_of_In, list_elem_of_filter. tauto. }
  set (kept := filter (fun time => now - time < windowMs rl) (requests rl)) in *.
  assert (Hslept : (checkLimit now rl).1
                   = if Z.of_nat (length kept) >=? maxRequests rl
                     then Some (waitTime rl now kept) else None) by reflexivity.
  split; [|split].
  - rewrite Hslept.
    destruct (Z.geb_spec (Z.of_nat (length kept)) (maxRequests rl)) as [Hge|Hlt];
      split; intros H; try lia; try reflexivity; discriminate H.
  - intros delay Hd. rewrite Hslept in Hd.
    destruct (Z.geb_spec (Z.of_nat (length kept)) (maxRequests rl)) as [Hge|Hlt];
      [|discriminate Hd].
    assert (Hne : kept <> []) by (intros Hnil; rewrite Hnil in Hge; cbn in Hge; lia).
    destruct (Hfull ltac:(lia) Hne) as (oldest & Hmin & Hin & Hleast & Hres & Hpos).
    exists oldest. apply Hkept in Hin. destruct Hin as [Hin Hage].
    split; [exact Hin|]. split; [exact Hage|].
    split; [intros t Ht Hw; apply Hleast; apply Hkept; tauto|].
    split.
    + rewrite Hslept in Hres.
      injection Hd as <-. injection Hres as ->. f_equal. lia.
    + specialize (Hpast oldest Hin). lia.
  - intros t. rewrite checkLimit_records_entry. fold kept.
    rewrite in_app_iff, Hkept. cbn [In]. split.
    + intros [H|[H|[]]]; [right; exact H|left; symmetry; exact H].
    + intros [->|H]; [right; left; reflexivity|left; exact H].
Qed.

Lemma checkLimit_waits_for_oldest_witness :
  (checkLimit 1800000
     {| maxRequests := 50; windowMs := 3600000; requests := repeat 0 50 |}).1
  = Some (Some 1800000) /\
  (checkLimit 1800000
     {| maxRequests := 50; windowMs := 3600000; requests := repeat 0 49 |}).1 = None.
Proof.
  split.
  - destruct (checkLimit_waits_for_oldest 1800000
                {| maxRequests := 50; windowMs := 3600000; requests := repeat 0 50 |})
      as (_ & Hd & _).
    + cbn. lia.
    + intros t Ht. apply repeat_spec in Ht. subst t. lia.
    + destruct (checkLimit 1800000 _).1 as [delay|] eqn:Hslept; [|discriminate Hslept].
      destruct (Hd delay eq_refl) as (oldest & Hin & _ & _ & -> & _).
      apply repeat_spec in Hin. subst oldest. reflexivity.
  - apply (checkLimit_waits_for_oldest 1800000
             {| maxRequests := 50; windowMs := 3600000; requests := repeat 0 49 |}).
    + cbn. lia.
    + intros t Ht. apply repeat_spec in Ht. subst t. lia.
    + vm_compute. reflexivity.
Defined.

(** The invariant of a run, [finished] being the instant at which its last
    call returned, or [clock] when the run is empty. *)
Lemma acquireRun_window_invariant (calls : list Z) :
  forall (clock : Z) (rl : RateLimiter),
    1 <= maxRequests rl -> windowMs rl <= 2147483647 ->
    (forall t, In t (requests rl) -> t <= clock) ->
    (forall upTo, clock <= upTo ->
       Z.of_nat (countInWindow (windowMs rl) upTo (requests rl)) <= maxRequests rl) ->
    let run := acquireRun clock rl calls in
    let finished := default clock (snd <$> last run.1) in
    clock <= finished /\
    maxRequests run.2 = maxRequests rl /\ windowMs run.2 = windowMs rl /\
    (forall t, In t (requests run.2) -> t <= finished) /\
    (forall upTo, finished <= upTo ->
       Z.of_nat (countInWindow (windowMs rl) upTo (requests run.2)) <= maxRequests rl).
Proof.
  induction calls as [|t rest IH]; intros clock rl Hmax Hw Hpast Hinv; cbv zeta.
  - cbn. repeat split; [lia|exact Hpast|exact Hinv].
  - cbn [acquireRun fst snd].
    set (now := Z.max clock t).
    set (out := checkLimit now rl).
    set (returned := returnedAt now out.1).
    assert (Hnow : clock <= now) by (subst now; lia).
    assert (Hret : now <= returned) by apply returnedAt_le.
    assert (Hpast' : forall u, In u (requests rl) -> u <= now)
      by (intros u Hu; specialize (Hpast u Hu); lia).
    destruct (IH returned out.2) as (Hfin & Hmax' & Hw' & Hpast2 & Hinv2).
    + exact Hmax.
    + exact Hw.
    + intros u Hu. subst out. rewrite checkLimit_records_entry in Hu.
      apply in_app_or in Hu. destruct Hu as [Hu|[<-|[]]]; [|lia].
      apply list_elem_of_In, list_elem_of_filter in Hu. destruct Hu as [_ Hu].
      apply list_elem_of_In in Hu. specialize (Hpast u Hu). lia.
    + intros upTo Hup.
      apply (checkLimit_current_window now rl Hmax Hw Hpast' (Hinv now Hnow) upTo Hup).
    + set (run := acquireRun returned out.2 rest) in *.
      assert (Hlast : default clock (snd <$> last ((now, returned) :: run.1))
                      = default returned (snd <$> last run.1)).
      { destruct run.1 as [|x l]; [reflexivity|]. cbn [last].
        destruct (last (x :: l)) eqn:Hl; [reflexivity|].
        apply last_None in Hl. discriminate Hl. }
      rewrite Hlast. cbn [maxRequests windowMs] in *.
      split; [lia|]. split; [exact Hmax'|]. split; [exact Hw'|].
      split; [exact Hpast2|exact Hinv2].
Qed.

(** X4: what the limiter does keep for one caller that awaits each call
    before it makes the next.  From a limiter that holds no timestamp, once
    a call has returned, the limiter holds at most [maxRequests] timestamps
    in the window that trails from any instant from then on, however the
    calls are spaced. *)
Theorem acquireRun_trailing_window (rl : RateLimiter) (calls : list Z) (clock : Z) :
  requests rl = [] -> 1 <= maxRequests rl -> windowMs rl <= 2147483647 ->
  let run := acquireRun clock rl calls in
  forall upTo : Z,
    default clock (snd <$> last run.1) <= upTo ->
    Z.of_nat (countInWindow (windowMs rl) upTo (requests run.2)) <= maxRequests rl.
Proof.
  intros Hempty Hmax Hw. cbv zeta.
  apply (acquireRun_window_invariant calls clock rl Hmax Hw).
  - rewrite Hempty. intros t [].
  - rewrite Hempty. intros upTo _. cbn. lia.
Qed.

Lemma acquireRun_trailing_window_witness :
  Z.of_nat (countInWindow 3600000 5400000
              (requests (acquireRun 0 RateLimiter_new Sample.burst).2)) <= 50.
Proof.
  apply (acquireRun_trailing_window RateLimiter_new Sample.burst 0).
  - reflexivity.
  - cbn. lia.
  - cbn. lia.
  - vm_compute. discriminate.
Defined.

(** ** The rate limiters in a batch *)

Lemma rateLimitWaits_app (a b : list Event) :
  rateLimitWaits (a ++ b) = rateLimitWaits a ++ rateLimitWaits b.
Proof. apply omap_app. Qed.

Section QuietLimiters.

Context {PlatformState : Type}.
Variable upload : string -> VideoClip -> PlatformState -> UploadReturn * PlatformState * Z.
Variable randomDelay : nat -> Z.
Variable CONFIG : Config.
Variable fs : FileSystem.

(** Worlds with the same rate limiters. *)
Lemma sameLimiters (w w' : World PlatformState) :
  limiters w' = limiters w ->
  (defaultLimits w -> defaultLimits w') /\
  (forall q, limiterLoad w' q = limiterLoad w q).
Proof.
  intros Heq. unfold defaultLimits, limiterLoad, limiterOf. rewrite Heq. split; auto.
Qed.

(** A rate limiter with room lets the call through at once. *)
Lemma rateLimit_under (platform : string) (w : World PlatformState) :
  defaultLimits w -> (limiterLoad w platform < 50)%nat ->
  (rateLimit platform w).2 = [] /\
  defaultLimits (rateLimit platform w).1.2 /\
  (limiterLoad (rateLimit platform w).1.2 platform <= S (limiterLoad w platform))%nat /\
  (forall q, q <> platform -> limiterLoad (rateLimit platform w).1.2 q = limiterLoad w q).
Proof.
  intros Hdef Hroom. specialize (Hdef platform) as Hmax.
  unfold limiterLoad in *. unfold rateLimit, bind, setLimiter.
  set (rl := limiterOf w platform) in *.
  pose proof (checkLimit_records_entry (clock w) rl) as Hreq.
  assert (Hnone : (checkLimit (clock w) rl).1 = None).
  { unfold checkLimit. cbn [fst]. rewrite Hmax.
    match goal with |- context [length ?kept] =>
      assert (Hkept : (length kept <= length (requests rl))%nat) by apply length_filter
    end.
    match goal with |- context [?a >=? 50] => destruct (Z.geb_spec a 50) as [Hge|Hlt] end;
      [lia|reflexivity]. }
  assert (Hlen : (length (requests (checkLimit (clock w) rl).2) <= S (length (requests rl)))%nat).
  { rewrite Hreq, length_app. cbn [length].
    match goal with |- context [length ?kept] =>
      assert (Hkept : (length kept <= length (requests rl))%nat) by apply length_filter
    end. lia. }
  assert (Hmax2 : maxRequests (checkLimit (clock w) rl).2 = 50) by exact Hmax.
  clear Hreq. revert Hnone Hlen Hmax2. generalize (checkLimit (clock w) rl).
  intros out Hnone Hlen Hmax2.
  rewrite Hnone. cbn [fst snd app]. unfold ret. cbn [fst snd].
  split; [reflexivity|]. split; [|split].
  - intros q. unfold limiterOf. cbn [limiters].
    destruct (decide (q = platform)) as [->|Hne].
    + rewrite lookup_insert_eq. cbn [default]. exact Hmax2.
    + rewrite lookup_insert_ne by congruence. apply Hdef.
  - unfold limiterOf at 1. cbn [limiters]. rewrite lookup_insert_eq. cbn [default].
    exact Hlen.
  - intros q Hne. unfold limiterOf at 1. cbn [limiters].
    rewrite lookup_insert_ne by congruence. reflexivity.
Qed.

(** [uploadWithRetry] with room for all its attempts never waits for the
    rate limiter. *)
Lemma attemptsFrom_under (platform name : string) (clip : VideoClip)
    (maxRetries remaining : nat) :
  forall (attempt : nat) (lastError : option string) (w : World PlatformState),
    defaultLimits w -> (limiterLoad w platform + remaining <= 50)%nat ->
    let out := attemptsFrom upload platform name clip maxRetries remaining attempt lastError w in
    rateLimitWaits out.2 = [] /\
    defaultLimits out.1.2 /\
    (limiterLoad out.1.2 platform <= limiterLoad w platform + remaining)%nat /\
    (forall q, q <> platform -> limiterLoad out.1.2 q = limiterLoad w q).
Proof.
  induction remaining as [|r IH]; intros attempt lastError w Hdef Hroom; cbv zeta.
  - unfold attemptsFrom, bind, now, ret. cbn [fst snd]. repeat split; [exact Hdef|lia].
  - rewrite attemptsFrom_S. cbn zeta.
    destruct (rateLimit_under platform w Hdef ltac:(lia)) as (Hev & Hdef1 & Hload1 & Hother1).
    set (w1 := (rateLimit platform w).1.2) in *. rewrite Hev.
    destruct (upload platform clip (platformState w1)) as [[[identifier|message] st] d];
      cbn [fst snd].
    + destruct (Js.truthy identifier); cbn [fst snd].
      * destruct (sameLimiters w1 (setPlatformState st (elapse (Z.max 0 d) w1)) eq_refl)
          as [Hd Hl].
        split; [reflexivity|]. split; [apply Hd; exact Hdef1|].
        split; [rewrite Hl; lia|]. intros q Hq. rewrite Hl. apply Hother1. exact Hq.
      * destruct (sameLimiters w1 (setPlatformState st (elapse (Z.max 0 d) w1)) eq_refl)
          as [Hd Hl].
        destruct (IH (S attempt) lastError (setPlatformState st (elapse (Z.max 0 d) w1)))
          as (Hev2 & Hdef2 & Hload2 & Hother2); [apply Hd; exact Hdef1|rewrite Hl; lia|].
        rewrite rateLimitWaits_app, Hev2.
        split; [reflexivity|]. split; [exact Hdef2|].
        split; [rewrite Hl in Hload2; lia|].
        intros q Hq. rewrite Hother2, Hl by exact Hq. apply Hother1. exact Hq.
    + destruct (attempt <? maxRetries)%nat; cbn [fst snd].
      * set (w2 := elapse (sleepDuration (Some (2 ^ Z.of_nat attempt * 1000)))
                     (setPlatformState st (elapse (Z.max 0 d) w1))).
        destruct (sameLimiters w1 w2 eq_refl) as [Hd Hl].
        destruct (IH (S attempt) (Some message) w2)
          as (Hev2 & Hdef2 & Hload2 & Hother2); [apply Hd; exact Hdef1|rewrite Hl; lia|].
        change (Slept ?r ?d :: ?l) with ([Slept r d] ++ l).
        rewrite !rateLimitWaits_app, Hev2.
        split; [reflexivity|]. split; [exact Hdef2|].
        split; [rewrite Hl in Hload2; lia|].
        intros q Hq. rewrite Hother2, Hl by exact Hq. apply Hother1. exact Hq.
      * set (w2 := setPlatformState st (elapse (Z.max 0 d) w1)).
        destruct (sameLimiters w1 w2 eq_refl) as [Hd Hl].
        destruct (IH (S attempt) (Some message) w2)
          as (Hev2 & Hdef2 & Hload2 & Hother2); [apply Hd; exact Hdef1|rewrite Hl; lia|].
        rewrite !rateLimitWaits_app, Hev2.
        split; [reflexivity|]. split; [exact Hdef2|].
        split; [rewrite Hl in Hload2; lia|].
        intros q Hq. rewrite Hother2, Hl by exact Hq. apply Hother1. exact Hq.
Qed.

Lemma uploadToPlatform_under (platform : string) (clip : VideoClip)
    (res : gmap string (list string)) (fl : list string) (w : World PlatformState) :
  defaultLimits w -> (limiterLoad w platform + MAX_RETRIES CONFIG <= 50)%nat ->
  let out := uploadToPlatform upload randomDelay CONFIG platform clip res fl w in
  rateLimitWaits out.2 = [] /\
  defaultLimits out.1.2 /\
  (limiterLoad out.1.2 platform <= limiterLoad w platform + MAX_RETRIES CONFIG)%nat /\
  (forall q, q <> platform -> limiterLoad out.1.2 q = limiterLoad w q).
Proof.
  intros Hdef Hroom. cbv zeta. unfold uploadToPlatform.
  destruct (uploaders platform) as [name|].
  2:{ cbn. repeat split; [exact Hdef|lia]. }
  unfold bind. cbn [fst snd].
  set (pre := randomPause randomDelay CONFIG platform w).
  assert (Hpre : rateLimitWaits pre.2 = [] /\ limiters pre.1.2 = limiters w).
  { subst pre. unfold randomPause. destruct (RANDOM_DELAY CONFIG); split; reflexivity. }
  destruct Hpre as [Hpre1 Hpre2].
  destruct (sameLimiters w pre.1.2 Hpre2) as [Hd Hl].
  pose proof (attemptsFrom_under platform name clip (MAX_RETRIES CONFIG) (MAX_RETRIES CONFIG)
                1 None pre.1.2 (Hd Hdef)) as Hrun.
  rewrite Hl in Hrun. specialize (Hrun Hroom). cbv zeta in Hrun.
  fold (uploadWithRetry upload platform name clip (MAX_RETRIES CONFIG) pre.1.2) in Hrun.
  set (run := uploadWithRetry upload platform name clip (MAX_RETRIES CONFIG) pre.1.2) in *.
  destruct Hrun as (Hev & Hdef2 & Hload2 & Hother2).
  destruct (UploadResult.success run.1.1); unfold ret, record, recordStat; cbn [fst snd app];
    rewrite !rateLimitWaits_app, Hpre1, Hev;
    match goal with
    | |- context [defaultLimits ?w3] =>
        destruct (sameLimiters run.1.2 w3 eq_refl) as [Hd3 Hl3]
    end;
    (split; [reflexivity|]); (split; [apply Hd3; exact Hdef2|]);
    (split; [rewrite Hl3; exact Hload2|]);
    intros q Hq; rewrite Hl3, Hother2, Hl by exact Hq; reflexivity.
Qed.

Lemma uploadToPlatforms_under (plats : list string) :
  forall (clip : VideoClip) (res : gmap string (list string)) (fl : list string)
         (w : World PlatformState),
    List.NoDup plats -> defaultLimits w ->
    (forall p, In p plats -> (limiterLoad w p + MAX_RETRIES CONFIG <= 50)%nat) ->
    let out := uploadToPlatforms upload randomDelay CONFIG plats clip res fl w in
    rateLimitWaits out.2 = [] /\
    defaultLimits out.1.2 /\
    (forall q, In q plats ->
               (limiterLoad out.1.2 q <= limiterLoad w q + MAX_RETRIES CONFIG)%nat) /\
    (forall q, ~ In q plats -> limiterLoad out.1.2 q = limiterLoad w q).
Proof.
  induction plats as [|platform rest IH]; intros clip res fl w Hnd Hdef Hroom; cbv zeta.
  - cbn. repeat split; [exact Hdef|]. intros q []. 
  - cbn [uploadToPlatforms]. unfold bind. cbn [fst snd].
    apply List.NoDup_cons_iff in Hnd. destruct Hnd as [Hnot Hnd].
    destruct (uploadToPlatform_under platform clip res fl w Hdef)
      as (Hev & Hdef1 & Hload1 & Hother1); [apply Hroom; left; reflexivity|].
    set (one := uploadToPlatform upload randomDelay CONFIG platform clip res fl w) in *.
    destruct (IH one.1.1.1.1 one.1.1.1.2 one.1.1.2 one.1.2 Hnd Hdef1)
      as (Hev2 & Hdef2 & Hin2 & Hout2).
    { intros p Hp. rewrite Hother1 by (intros ->; contradiction).
      apply Hroom. right. exact Hp. }
    rewrite rateLimitWaits_app, Hev, Hev2.
    split; [reflexivity|]. split; [exact Hdef2|]. split.
    + intros q [<-|Hq].
      * rewrite Hout2 by exact Hnot. exact Hload1.
      * specialize (Hin2 q Hq). rewrite Hother1 in Hin2 by (intros ->; contradiction).
        exact Hin2.
    + intros q Hq. rewrite Hout2 by (intros Hin; apply Hq; right; exact Hin).
      apply Hother1. intros ->. apply Hq. left. reflexivity.
Qed.

Lemma uploadEach_under (clips : list VideoClip) :
  forall (b : Batch) (w : World PlatformState),
    List.NoDup (PLATFORMS_TO_UPLOAD CONFIG) -> defaultLimits w ->
    (forall q, (limiterLoad w q + length clips * MAX_RETRIES CONFIG <= 50)%nat) ->
    rateLimitWaits (uploadEach upload randomDelay CONFIG fs clips b w).2 = [].
Proof.
  induction clips as [|clip rest IH]; intros b w Hnd Hdef Hroom.
  - reflexivity.
  - cbn [uploadEach]. cbn [length] in Hroom.
    destruct (validate fs clip) as [e|ok].
    + apply IH; [exact Hnd|exact Hdef|]. intros q. specialize (Hroom q). lia.
    + unfold bind. cbn [fst snd].
      destruct (uploadToPlatforms_under (PLATFORMS_TO_UPLOAD CONFIG) clip
                  (batchResultsSoFar b) (batchFailedSoFar b) w Hnd Hdef)
        as (Hev & Hdef1 & Hin1 & Hout1).
      { intros p _. specialize (Hroom p). lia. }
      set (one := uploadToPlatforms upload randomDelay CONFIG (PLATFORMS_TO_UPLOAD CONFIG)
                    clip (batchResultsSoFar b) (batchFailedSoFar b) w) in *.
      set (pause := staggerPause CONFIG rest one.1.2).
      assert (Hpause : rateLimitWaits pause.2 = [] /\ limiters pause.1.2 = limiters one.1.2).
      { subst pause. unfold staggerPause.
        destruct (STAGGER_UPLOADS CONFIG && negb (bool_decide (rest = []))); split; reflexivity. }
      destruct Hpause as [Hp1 Hp2].
      destruct (sameLimiters one.1.2 pause.1.2 Hp2) as [Hd Hl].
      rewrite !rateLimitWaits_app, Hev, Hp1. cbn [app].
      apply IH; [exact Hnd|apply Hd; exact Hdef1|].
      intros q. rewrite Hl. specialize (Hroom q).
      destruct (in_dec string_dec q (PLATFORMS_TO_UPLOAD CONFIG)) as [Hq|Hq].
      * specialize (Hin1 q Hq). lia.
      * rewrite (Hout1 q Hq). lia.
Qed.

(** X5: an uploader whose rate limiters are still those of its constructor
    never waits for a rate limiter during a batch of clips, when no platform
    is listed twice in [CONFIG.PLATFORMS_TO_UPLOAD] and the number of clips
    times the attempts allowed per upload is at most the 50 requests of a
    limiter: 16 clips with the 3 attempts of the configuration. *)
Theorem small_batch_never_rate_limited (clips : list VideoClip) (w : World PlatformState) :
  limiters w = ∅ ->
  List.NoDup (PLATFORMS_TO_UPLOAD CONFIG) ->
  (length clips * MAX_RETRIES CONFIG <= 50)%nat ->
  rateLimitWaits (uploadClips upload randomDelay CONFIG fs clips w).2 = [].
Proof.
  intros Hnew Hnd Hsmall. unfold uploadClips, bind, ret, record, recordBatch. cbn [fst snd].
  rewrite !rateLimitWaits_app. cbn [rateLimitWaits omap app]. 
  rewrite uploadEach_under; [reflexivity|exact Hnd| |].
  - intros q. unfold limiterOf. rewrite Hnew, lookup_empty. reflexivity.
  - intros q. unfold limiterLoad, limiterOf. rewrite Hnew, lookup_empty. cbn. lia.
Qed.

End QuietLimiters.

Lemma small_batch_never_rate_limited_witness :
  rateLimitWaits
    (uploadClips Sample.upload Sample.noDelay CONFIG_source Sample.files
       [Sample.clip "clip.mp4" "T" []; Sample.clip "huge.mp4" "U" [];
        Sample.clip "clip.mp4" "V" []] (Sample.world 0)).2 = [].
Proof.
  apply small_batch_never_rate_limited; [reflexivity| |vm_compute; lia].
  vm_compute. repeat (apply List.NoDup_cons; [cbn; intuition congruence|]).
  apply List.NoDup_nil.
Defined.

(** ** More on the analytics recorder *)

(** The four tables of well-formed analytics are pairwise distinct. *)
Lemma wellFormed_distinct (a : Analytics) :
  wellFormed a ->
  successfulUploads (data a) <> failedUploads (data a) /\
  successfulUploads (data a) <> uploadHistory (data a) /\
  successfulUploads (data a) <> platformPerformance (data a) /\
  failedUploads (data a) <> uploadHistory (data a) /\
  failedUploads (data a) <> platformPerformance (data a) /\
  uploadHistory (data a) <> platformPerformance (data a).
Proof.
  intros (_ & _ & _ & _ & Hnd). apply NoDup_ListNoDup in Hnd.
  apply NoDup_cons_iff in Hnd. destruct Hnd as [H1 Hnd].
  apply NoDup_cons_iff in Hnd. destruct Hnd as [H2 Hnd].
  apply NoDup_cons_iff in Hnd. destruct Hnd as [H3 _].
  cbn [In] in H1, H2, H3.
  repeat split; intros Heq; rewrite ?Heq in *; tauto.
Qed.

Lemma readHistory_insert_eq (h : Heap) (r : Ref) (l : list BatchData) :
  readHistory (<[r := History l]> h) r = l.
Proof. unfold readHistory. rewrite lookup_insert_eq. reflexivity. Qed.

Lemma readHistory_insert_ne (h : Heap) (r r' : Ref) (o : HeapObject) :
  r' <> r -> readHistory (<[r' := o]> h) r = readHistory h r.
Proof. intros Hne. unfold readHistory. rewrite lookup_insert_ne by exact Hne. reflexivity. Qed.

Lemma readPerformance_insert_ne (h : Heap) (r r' : Ref) (o : HeapObject) :
  r' <> r -> readPerformance (<[r' := o]> h) r = readPerformance h r.
Proof.
  intros Hne. unfold readPerformance. rewrite lookup_insert_ne by exact Hne. reflexivity.
Qed.

Lemma countOf_increment (table : gmap string N) (key key' : string) :
  countOf (increment table key) key'
  = (countOf table key' + if decide (key' = key) then 1 else 0)%N.
Proof.
  unfold increment, countOf. destruct (decide (key' = key)) as [->|Hne].
  - rewrite lookup_insert_eq. reflexivity.
  - rewrite lookup_insert_ne by congruence. cbn. lia.
Qed.

(** What one [recordUpload] does to the counters. *)
Lemma recordUpload_counters (now : Z) (platform : string) (success : bool)
    (error : option string) (a : Analytics) :
  wellFormed a ->
  let a' := recordUpload now platform success error a in
  wellFormed a' /\
  totalUploads (data a') = (totalUploads (data a) + 1)%N /\
  historyOf a' = historyOf a /\
  forall p : string,
    successes a' p
    = (successes a p + if success && bool_decide (p = platform) then 1 else 0)%N /\
    failures a' p
    = (failures a p + if negb success && bool_decide (p = platform) then 1 else 0)%N /\
    attempts a' p = (attempts a p + if bool_decide (p = platform) then 1 else 0)%N.
Proof.
  intros Hwf. pose proof (wellFormed_distinct a Hwf) as (D1 & D2 & D3 & D4 & D5 & D6).
  destruct Hwf as ((ts & Hs) & (tf & Hf) & (lh & Hh) & (tp & Hp) & Hnd).
  cbv zeta. unfold recordUpload.
  set (d := data a) in *. set (h := heap a) in *.
  split; [|split; [|split]].
  - unfold wellFormed. cbn [data heap successfulUploads failedUploads uploadHistory
                              platformPerformance].
    destruct success.
    + split; [eexists; rewrite lookup_insert_ne, lookup_insert_eq by congruence; reflexivity|].
      split; [eexists; rewrite !lookup_insert_ne by congruence; exact Hf|].
      split; [eexists; rewrite !lookup_insert_ne by congruence; exact Hh|].
      split; [eexists; rewrite lookup_insert_eq; reflexivity|exact Hnd].
    + split; [eexists; rewrite !lookup_insert_ne by congruence; exact Hs|].
      split; [eexists; rewrite lookup_insert_ne, lookup_insert_eq by congruence; reflexivity|].
      split; [eexists; rewrite !lookup_insert_ne by congruence; exact Hh|].
      split; [eexists; rewrite lookup_insert_eq; reflexivity|exact Hnd].
  - reflexivity.
  - unfold historyOf. cbn [data heap uploadHistory].
    rewrite readHistory_insert_ne by congruence.
    destruct success; rewrite readHistory_insert_ne by congruence; reflexivity.
  - intros p. unfold successes, failures, attempts.
    cbn [data heap successfulUploads failedUploads platformPerformance].
    rewrite !readCounts_insert_ne by congruence. rewrite readPerformance_insert_eq.
    split; [|split].
    + destruct success; cbn [andb negb].
      * rewrite readCounts_insert_eq, countOf_increment.
        destruct (decide (p = platform)) as [->|Hne];
          [rewrite bool_decide_true by reflexivity|rewrite bool_decide_false by exact Hne];
          reflexivity.
      * rewrite readCounts_insert_ne by congruence. fold d h. lia.
    + destruct success; cbn [andb negb].
      * rewrite readCounts_insert_ne by congruence. fold d h. lia.
      * rewrite readCounts_insert_eq, countOf_increment.
        destruct (decide (p = platform)) as [->|Hne];
          [rewrite bool_decide_true by reflexivity|rewrite bool_decide_false by exact Hne];
          reflexivity.
    + assert (Htable : readPerformance
                         (if success
                          then <[successfulUploads d :=
                                   Counts (increment (readCounts h (successfulUploads d)) platform)]> h
                          else <[failedUploads d :=
                                   Counts (increment (readCounts h (failedUploads d)) platform)]> h)
                         (platformPerformance d)
                       = readPerformance h (platformPerformance d)).
      { destruct success; apply readPerformance_insert_ne; congruence. }
      rewrite Htable.
      destruct (decide (p = platform)) as [->|Hne].
      * rewrite bool_decide_true by reflexivity. rewrite lookup_insert_eq.
        change (heap a) with h. change (data a) with d.
        destruct (readPerformance h (platformPerformance d) !! platform);
          destruct success; cbn; reflexivity.
      * rewrite bool_decide_false by exact Hne. rewrite lookup_insert_ne by congruence.
        change (heap a) with h. change (data a) with d. lia.
Qed.

(** What one [addUploadBatch] does. *)
Lemma addUploadBatch_counters (now : Z) (count : nat) (plats : list string)
    (res : gmap string (list string)) (fl : list string) (a : Analytics) :
  wellFormed a ->
  let a' := addUploadBatch now count plats res fl a in
  wellFormed a' /\
  totalUploads (data a') = totalUploads (data a) /\
  historyOf a'
  = historyOf a ++ [{| batchTimestamp := now; clipsCount := count; batchPlatforms := plats;
                       batchResults := res; batchFailed := fl |}] /\
  forall p : string,
    successes a' p = successes a p /\ failures a' p = failures a p /\
    attempts a' p = attempts a p /\ storedRate a' p = storedRate a p.
Proof.
  intros Hwf. pose proof (wellFormed_distinct a Hwf) as (D1 & D2 & D3 & D4 & D5 & D6).
  destruct Hwf as ((ts & Hs) & (tf & Hf) & (lh & Hh) & (tp & Hp) & Hnd).
  cbv zeta. unfold addUploadBatch.
  split; [|split; [|split]].
  - unfold wellFormed. cbn [data heap].
    split; [eexists; rewrite lookup_insert_ne by congruence; exact Hs|].
    split; [eexists; rewrite lookup_insert_ne by congruence; exact Hf|].
    split; [eexists; rewrite lookup_insert_eq; reflexivity|].
    split; [eexists; rewrite lookup_insert_ne by congruence; exact Hp|exact Hnd].
  - reflexivity.
  - unfold historyOf. cbn [data heap]. apply readHistory_insert_eq.
  - intros p. unfold successes, failures, attempts, storedRate. cbn [data heap].
    rewrite !readCounts_insert_ne, readPerformance_insert_ne by congruence.
    repeat split.
Qed.

Lemma uploadsCounted_cons (test : string -> bool -> bool) (r : Recording)
    (rs : list Recording) :
  uploadsCounted test (r :: rs)
  = ((match r with
      | RecordUpload _ p s _ => if test p s then 1 else 0
      | AddUploadBatch _ _ _ _ _ => 0
      end) + uploadsCounted test rs)%N.
Proof.
  unfold uploadsCounted. cbn [List.filter].
  destruct r as [now p s e|now c pl res fl]; [destruct (test p s)|]; cbn [length]; lia.
Qed.

Lemma uploadsCounted_one (test : string -> bool -> bool) (r : Recording) :
  uploadsCounted test [r]
  = match r with
    | RecordUpload _ p s _ => if test p s then 1%N else 0%N
    | AddUploadBatch _ _ _ _ _ => 0%N
    end.
Proof.
  rewrite uploadsCounted_cons. unfold uploadsCounted. cbn [List.filter length N.of_nat].
  destruct r as [now p s e|now c pl res fl]; [destruct (test p s)|]; reflexivity.
Qed.

(** X6: the counters of the analytics count.  After any series of
    [recordUpload] and [addUploadBatch] calls on well-formed analytics,
    [totalUploads] has grown by the number of uploads recorded; for every
    platform the successes, the failures and [totalAttempts] have grown by
    the number of successes, of failures and of uploads recorded for it, so
    that attempts recorded are successes plus failures; and the history has
    grown by one entry per batch. *)
Theorem recordings_are_counted (rs : list Recording) :
  forall a : Analytics,
    wellFormed a ->
    let a' := fold_left recording rs a in
    wellFormed a' /\
    totalUploads (data a') = (totalUploads (data a) + uploadsCounted (fun _ _ => true) rs)%N /\
    length (historyOf a') = (length (historyOf a) + batchesCounted rs)%nat /\
    forall p : string,
      successes a' p
      = (successes a p + uploadsCounted (fun q s => s && bool_decide (q = p)) rs)%N /\
      failures a' p
      = (failures a p + uploadsCounted (fun q s => negb s && bool_decide (q = p)) rs)%N /\
      attempts a' p
      = (attempts a p + uploadsCounted (fun q _ => bool_decide (q = p)) rs)%N /\
      (attempts a p = successes a p + failures a p ->
       attempts a' p = successes a' p + failures a' p)%N.
Proof.
  induction rs as [|r rs IH]; intros a Hwf; cbv zeta.
  - cbn [fold_left]. unfold uploadsCounted, batchesCounted. cbn.
    split; [exact Hwf|]. split; [lia|]. split; [lia|]. intros p. repeat split; lia.
  - cbn [fold_left].
    assert (Hstep : wellFormed (recording a r) /\
                    totalUploads (data (recording a r))
                    = (totalUploads (data a) + uploadsCounted (fun _ _ => true) [r])%N /\
                    length (historyOf (recording a r))
                    = (length (historyOf a) + batchesCounted [r])%nat /\
                    forall p : string,
                      successes (recording a r) p
                      = (successes a p
                         + uploadsCounted (fun q s => s && bool_decide (q = p)) [r])%N /\
                      failures (recording a r) p
                      = (failures a p
                         + uploadsCounted (fun q s => negb s && bool_decide (q = p)) [r])%N /\
                      attempts (recording a r) p
                      = (attempts a p + uploadsCounted (fun q _ => bool_decide (q = p)) [r])%N).
    { rewrite !uploadsCounted_one.
      destruct r as [now q s e|now c pl res fl]; cbn [recording].
      - destruct (recordUpload_counters now q s e a Hwf) as (Hwf' & Htot & Hhist & Hp).
        split; [exact Hwf'|]. split; [exact Htot|].
        split; [rewrite Hhist; cbn; lia|].
        intros p. rewrite !uploadsCounted_one.
        destruct (Hp p) as (H1 & H2 & H3). rewrite H1, H2, H3.
        rewrite (bool_decide_ext (p = q) (q = p)) by (split; congruence).
        repeat split.
      - destruct (addUploadBatch_counters now c pl res fl a Hwf) as (Hwf' & Htot & Hhist & Hp).
        split; [exact Hwf'|]. split; [rewrite Htot; lia|].
        split; [rewrite Hhist, length_app; reflexivity|].
        intros p. rewrite !uploadsCounted_one.
        destruct (Hp p) as (H1 & H2 & H3 & _). rewrite H1, H2, H3.
        repeat split; lia. }
    destruct Hstep as (Hwf1 & Htot1 & Hhist1 & Hp1).
    destruct (IH (recording a r) Hwf1) as (Hwf' & Htot & Hhist & Hp).
    rewrite uploadsCounted_one in Htot1.
    split; [exact Hwf'|].
    split; [rewrite Htot, Htot1, (uploadsCounted_cons _ r rs); lia|].
    split.
    { rewrite Hhist, Hhist1. unfold batchesCounted. cbn [List.filter].
      destruct r; cbn [length]; lia. }
    intros p. destruct (Hp p) as (H1 & H2 & H3 & _). destruct (Hp1 p) as (G1 & G2 & G3).
    rewrite uploadsCounted_one in G1, G2, G3.
    rewrite H1, H2, H3, G1, G2, G3, !(uploadsCounted_cons _ r rs).
    assert (Hsplit : (uploadsCounted (fun q _ => bool_decide (q = p)) rs
                      = uploadsCounted (fun q s => s && bool_decide (q = p)) rs
                        + uploadsCounted (fun q s => negb s && bool_decide (q = p)) rs)%N).
    { clear. induction rs as [|x l IHl]; [reflexivity|].
      rewrite !uploadsCounted_cons, IHl.
      destruct x as [now q s e|now c pl res fl]; [|lia].
      destruct s, (bool_decide (q = p)); cbn; lia. }
    destruct r as [now q s e|now c pl res fl].
    + destruct s, (bool_decide (q = p)); cbn [andb negb] in *; repeat split; lia.
    + repeat split; lia.
Qed.

Lemma recordings_are_counted_witness :
  totalUploads
    (data (fold_left recording
             [RecordUpload 1 "youtube" true None;
              RecordUpload 2 "youtube" false (Some "quota_exceeded");
              AddUploadBatch 3 1 ["youtube"] ∅ ["T -> youtube: quota_exceeded"];
              RecordUpload 4 "tiktok" true None] Analytics_new)) = 3%N /\
  attempts
    (fold_left recording
       [RecordUpload 1 "youtube" true None;
        RecordUpload 2 "youtube" false (Some "quota_exceeded");
        AddUploadBatch 3 1 ["youtube"] ∅ ["T -> youtube: quota_exceeded"];
        RecordUpload 4 "tiktok" true None] Analytics_new) "youtube" = 2%N.
Proof.
  destruct (recordings_are_counted
              [RecordUpload 1 "youtube" true None;
               RecordUpload 2 "youtube" false (Some "quota_exceeded");
               AddUploadBatch 3 1 ["youtube"] ∅ ["T -> youtube: quota_exceeded"];
               RecordUpload 4 "tiktok" true None] Analytics_new Analytics_new_wellFormed)
    as (_ & Htot & _ & Hp).
  destruct (Hp "youtube") as (_ & _ & Hatt & _).
  split; [rewrite Htot|rewrite Hatt]; reflexivity.
Defined.

(** A recording for another platform leaves the stored rate of a platform
    as it is. *)
Lemma recordUpload_other_rate (now : Z) (platform p : string) (success : bool)
    (error : option string) (a : Analytics) :
  wellFormed a -> p <> platform ->
  storedRate (recordUpload now platform success error a) p = storedRate a p.
Proof.
  intros Hwf Hne. pose proof (wellFormed_distinct a Hwf) as (D1 & D2 & D3 & D4 & D5 & D6).
  unfold storedRate, recordUpload. cbn [data heap platformPerformance].
  rewrite readPerformance_insert_eq, lookup_insert_ne by congruence.
  destruct success; rewrite readPerformance_insert_ne by congruence; reflexivity.
Qed.

(** X7: the success rate that the analytics store for a platform is the
    one computed at its last success.  After a success on a platform,
    whatever is recorded next, failures on that platform included, the
    stored rate stays the quotient of the successes and the attempts as they
    were at that success, until the next success on the platform. *)
Theorem storedRate_as_of_last_success (a : Analytics) (now : Z) (platform : string)
    (error : option string) (later : list Recording) :
  wellFormed a ->
  Forall (fun r => match r with
                   | RecordUpload _ q true _ => q <> platform
                   | _ => True
                   end) later ->
  let atSuccess := recordUpload now platform true error a in
  storedRate (fold_left recording later atSuccess) platform
  = Some (inject_Z (Z.of_N (successes atSuccess platform))
          / inject_Z (Z.of_N (attempts atSuccess platform)))%Q.
Proof.
  intros Hwf Hlater. cbv zeta.
  rewrite <- (recordUpload_success_rate now platform error a Hwf).
  assert (Hwf1 : wellFormed (recordUpload now platform true error a))
    by apply (recordUpload_counters now platform true error a Hwf).
  assert (Hsome : exists q, storedRate (recordUpload now platform true error a) platform = Some q).
  { rewrite (recordUpload_success_rate now platform error a Hwf). eexists. reflexivity. }
  revert Hwf1 Hsome. generalize (recordUpload now platform true error a). clear a Hwf.
  induction Hlater as [|r rs Hr _ IH]; intros a Hwf [q Hq]; [reflexivity|].
  cbn [fold_left].
  assert (Hstep : wellFormed (recording a r) /\ storedRate (recording a r) platform = Some q).
  { destruct r as [t p s e|t c pl res fl]; cbn [recording].
    - split; [apply (recordUpload_counters t p s e a Hwf)|].
      destruct (decide (platform = p)) as [<-|Hne].
      + destruct s; [contradiction|].
        rewrite (recordUpload_failure_rate t platform e a Hwf), Hq. reflexivity.
      + rewrite recordUpload_other_rate by assumption. exact Hq.
    - destruct (addUploadBatch_counters t c pl res fl a Hwf) as (Hwf' & _ & _ & Hp).
      split; [exact Hwf'|]. destruct (Hp platform) as (_ & _ & _ & ->). exact Hq. }
  destruct Hstep as [Hwf' Hq'].
  rewrite (IH (recording a r) Hwf' (ex_intro _ q Hq')). congruence.
Qed.

Lemma storedRate_as_of_last_success_witness :
  storedRate
    (fold_left recording
       [RecordUpload 2 "youtube" false (Some "quota_exceeded");
        RecordUpload 3 "tiktok" true None;
        RecordUpload 4 "youtube" false None]
       (recordUpload 1 "youtube" true None Analytics_new)) "youtube"
  = Some (inject_Z 1 / inject_Z 1)%Q.
Proof.
  apply (storedRate_as_of_last_success Analytics_new 1 "youtube" None
           [RecordUpload 2 "youtube" false (Some "quota_exceeded");
            RecordUpload 3 "tiktok" true None;
            RecordUpload 4 "youtube" false None] Analytics_new_wellFormed).
  repeat constructor; discriminate.
Defined.

(** ** More on the batch orchestrator *)















Section BatchBooks.

Context {PlatformState : Type}.
Variable upload : string -> VideoClip -> PlatformState -> UploadReturn * PlatformState * Z.
Variable randomDelay : nat -> Z.
Variable CONFIG : Config.
Variable fs : FileSystem.















End BatchBooks.


(** ** More on the scheduler *)

(** X11: [scheduleUpload] returns the id [job_<now>_<suffix>] and stores
    under it a job that is [scheduled], for the clip and the time given,
    which [getScheduledJobs] then lists.  The jobs under other ids are left
    as they are.  A new id comes last in the order of the map; an id that
    the map already has keeps its place, and the job that was under it is
    replaced. *)
Theorem scheduleUpload_registers (now : Z) (suffix : string) (clip : VideoClip)
    (scheduleTime : option Z) (s : UploadScheduler) :
  let out := scheduleUpload now suffix clip scheduleTime s in
  let job := {| Job.id := out.1; Job.clip := clip; Job.scheduleTime := scheduleTime;
                Job.status := Job.scheduled; Job.result := None; Job.error := None;
                Job.createdAt := now |} in
  out.1 = "job_" +:+ pretty now +:+ "_" +:+ suffix /\
  mapGet out.1 (scheduledJobs out.2) = Some job /\
  In job (getScheduledJobs out.2) /\
  (forall other, other <> out.1 ->
     mapGet other (scheduledJobs out.2) = mapGet other (scheduledJobs s)) /\
  (~ In out.1 (activeIds s) -> activeIds out.2 = activeIds s ++ [out.1]) /\
  (In out.1 (activeIds s) -> activeIds out.2 = activeIds s) /\
  pendingDeletions out.2 = pendingDeletions s.
Proof.
  cbv zeta. unfold scheduleUpload. cbn [fst snd scheduledJobs pendingDeletions].
  set (jobId := "job_" +:+ pretty now +:+ "_" +:+ suffix).
  set (job := Job.mk jobId clip scheduleTime Job.scheduled None None now).
  split; [reflexivity|]. split; [apply mapGet_mapSet_eq|]. split; [|split; [|split; [|split]]].
  - unfold getScheduledJobs. cbn [scheduledJobs].
    generalize (scheduledJobs s). intros m.
    induction m as [|[k v] r IH]; cbn [mapSet map snd]; [left; reflexivity|].
    destruct (decide (k = jobId)); cbn [map snd In]; [left; reflexivity|right; exact IH].
  - intros other Hne. apply mapGet_mapSet_ne. congruence.
  - unfold activeIds. cbn [scheduledJobs]. apply mapSet_keys_new.
  - unfold activeIds. cbn [scheduledJobs]. apply mapSet_keys_old.
  - reflexivity.
Qed.

Lemma splitChars_no_separator (sep : ascii) (l : list ascii) :
  ~ In sep l -> forall cur, Js.splitChars sep l cur = [string_of_list_ascii (rev cur ++ l)].
Proof.
  induction l as [|a r IH]; intros Hnot cur; cbn [Js.splitChars].
  - rewrite app_nil_r. reflexivity.
  - destruct (Ascii.eqb_spec a sep) as [->|Hne].
    + exfalso. apply Hnot. left. reflexivity.
    + rewrite IH by (intros Hin; apply Hnot; right; exact Hin).
      cbn [rev]. rewrite <- app_assoc. reflexivity.
Qed.

Section NeverDue.

Context {Env : Type}.
Variable clockOf : Env -> Z.
Variable runBatch : VideoClip -> Env -> (string + BatchResult) * VideoClip * Env.

(** The body of the loop on a job whose target is not a valid date. *)
Lemma checkJob_invalid (now : Z) (jobId : string) (job : Job.t) (env : Env) :
  Job.scheduleTime job = None ->
  checkJob clockOf runBatch now jobId job env = (job, env, [], []).
Proof.
  intros Htime. unfold checkJob. rewrite Htime. cbn [Js.dateLe].
  rewrite andb_false_r. reflexivity.
Qed.

(** X12: [schedulePlatformUploads] takes any string for a time of day.
    One without a colon, such as [18], has no minutes, and the target it
    gives is not a valid date.  No tick ever executes a job whose target is
    not a valid date: whatever the clock reads, the tick leaves the job as
    it is, [scheduled], runs no batch for it and sets no deletion for it. *)
Theorem invalid_target_never_due :
  (forall (now : Z) (time : string),
     ~ In ":"%char (list_ascii_of_string time) -> nextOccurrence now time = None) /\
  (forall (s : UploadScheduler) (env : Env) (pre post : list (string * Job.t))
          (jobId : string) (job : Job.t),
     scheduledJobs s = pre ++ (jobId, job) :: post ->
     Job.scheduleTime job = None ->
     let out := checkScheduledJobs clockOf runBatch s env in
     scheduledJobs out.1.1 !! length pre = Some (jobId, job) /\
     (List.NoDup (activeIds s) ->
      (forall e, In e out.2 -> eventJob e <> jobId) /\
      (forall d, In d (pendingDeletions out.1.1) -> In d (pendingDeletions s) \/ d.2 <> jobId))).
Proof.
  split.
  - intros now time Hnot. unfold nextOccurrence, parseTimeOfDay, Js.split.
    rewrite splitChars_no_separator by exact Hnot. cbn [fst snd rev app].
    set (whole := string_of_list_ascii (list_ascii_of_string time)).
    change ([whole] !! 1%nat) with (@None string).
    change ([whole] !! 0%nat) with (Some whole).
    cbn [mbind option_bind]. unfold Js.setHours.
    destruct (Js.parseInt whole); reflexivity.
  - intros s env pre post jobId job Hjobs Htime. cbv zeta.
    unfold checkScheduledJobs. rewrite Hjobs, checkJobs_app. cbv zeta.
    cbn [checkJobs fst snd scheduledJobs pendingDeletions].
    set (now := clockOf env).
    set (r1 := checkJobs clockOf runBatch now pre env).
    rewrite (checkJob_invalid now jobId job r1.1.1.2 Htime). cbn [fst snd app].
    set (r2 := checkJobs clockOf runBatch now post r1.1.1.2).
    assert (Hlen : length pre = length r1.1.1.1).
    { rewrite <- (length_map fst pre), <- (length_map fst r1.1.1.1).
      subst r1. rewrite checkJobs_keys. reflexivity. }
    split; [apply list_lookup_middle; exact Hlen|].
    intros Hnd.
    assert (Hsplit : ~ In jobId (map fst pre) /\ ~ In jobId (map fst post)).
    { unfold activeIds in Hnd. rewrite Hjobs, map_app in Hnd. cbn [map fst] in Hnd.
      apply NoDup_remove_2 in Hnd. split; intros Hin; apply Hnd; apply in_or_app; tauto. }
    destruct Hsplit as [Hpre Hpost].
    split.
    + intros e Hin Heq. apply in_app_or in Hin. destruct Hin as [Hin|Hin].
      * apply Hpre. rewrite <- Heq. apply (proj2 (checkJobs_ids clockOf runBatch now pre env)).
        exact Hin.
      * apply Hpost. rewrite <- Heq.
        apply (proj2 (checkJobs_ids clockOf runBatch now post r1.1.1.2)). exact Hin.
    + intros d Hin. apply in_app_or in Hin. destruct Hin as [Hin|Hin]; [left; exact Hin|].
      right. intros Heq. apply in_app_or in Hin. destruct Hin as [Hin|Hin].
      * apply Hpre. rewrite <- Heq. apply (proj1 (checkJobs_ids clockOf runBatch now pre env)).
        exact Hin.
      * apply Hpost. rewrite <- Heq.
        apply (proj1 (checkJobs_ids clockOf runBatch now post r1.1.1.2)). exact Hin.
Qed.

End NeverDue.

Lemma scheduleUpload_registers_witness :
  activeIds (scheduleUpload 5 "r0"%string (Sample.clip "clip.mp4" "T" []) (Some 9)
               UploadScheduler_new).2 = ["job_5_r0"%string] /\
  mapGet "job_a" (scheduledJobs (scheduleUpload 5 "r0"%string (Sample.clip "clip.mp4" "T" [])
                                   (Some 9) Sample.scheduler).2)
  = Some Sample.jobA.
Proof.
  destruct (scheduleUpload_registers 5 "r0"%string (Sample.clip "clip.mp4" "T" []) (Some 9)
              UploadScheduler_new) as (_ & _ & _ & _ & Hnew & _).
  destruct (scheduleUpload_registers 5 "r0"%string (Sample.clip "clip.mp4" "T" []) (Some 9)
              Sample.scheduler) as (_ & _ & _ & Hother & _).
  split; [apply Hnew; intros []|].
  rewrite Hother; [reflexivity|discriminate].
Defined.

Lemma invalid_target_never_due_witness :
  nextOccurrence 36000000 "18" = None /\
  scheduledJobs
    (checkScheduledJobs Sample.clockOf Sample.runBatch
       {| scheduledJobs :=
            [("job_x"%string,
              Job.mk "job_x" (Sample.clip "clip.mp4" "T" ["tiktok"%string]) None Job.scheduled
                None None 0)];
          pendingDeletions := [] |}
       (Sample.world 64800000, [])).1.1 !! 0%nat
  = Some ("job_x"%string,
          Job.mk "job_x" (Sample.clip "clip.mp4" "T" ["tiktok"%string]) None Job.scheduled
            None None 0).
Proof.
  destruct (@invalid_target_never_due _ Sample.clockOf Sample.runBatch) as [Hparse Htick].
  split.
  - apply Hparse. vm_compute. intros [H|[H|[]]]; discriminate H.
  - apply (Htick _ (Sample.world 64800000, []) [] [] "job_x"%string); reflexivity.
Defined.

(** ** Starting and stopping the scheduler *)

Lemma timerCall_state (t : SchedulerTimer) (c : TimerCall) :
  timerState t ->
  timerState (timerCall t c) /\
  isRunning (timerCall t c) = match c with Start => true | Stop => false end.
Proof.
  intros [Hidle Htick Hbound|x Hrun Hint Htick Hbound]; destruct c; cbn [timerCall].
  - unfold startScheduler. rewrite Hidle. split; [|reflexivity].
    apply (timerRunning _ (timersSet t)); cbn; rewrite ?Htick; try reflexivity; lia.
  - unfold stopScheduler. destruct (schedulerInterval t) as [x|] eqn:Hint.
    + split; [|reflexivity]. apply timerIdle; cbn.
      * reflexivity.
      * rewrite Htick. reflexivity.
      * intros y [= <-]. apply Hbound. reflexivity.
    + split; [|exact Hidle]. apply timerIdle; [exact Hidle|exact Htick|].
      intros y Hy. rewrite Hint in Hy. discriminate Hy.
  - unfold startScheduler. rewrite Hrun. split; [|exact Hrun].
    apply (timerRunning _ x); assumption.
  - unfold stopScheduler. rewrite Hint. split; [|reflexivity]. apply timerIdle; cbn.
    + reflexivity.
    + rewrite Htick. cbn. rewrite Nat.eqb_refl. reflexivity.
    + intros y [= <-]. exact Hbound.
Qed.

(** X13: whatever calls of [startScheduler] and [stopScheduler] are made
    on a new scheduler, in any order, at most one interval timer is ticking,
    and one is ticking exactly when [isRunning] is set, namely the one that
    [schedulerInterval] holds: a second [startScheduler] sets no second
    timer, and [stopScheduler] leaves none behind.  After the calls the
    scheduler is running exactly when the last of them was
    [startScheduler]. *)
Theorem scheduler_has_one_timer (calls : list TimerCall) :
  let t := fold_left timerCall calls SchedulerTimer_new in
  ticking t = (if isRunning t
               then match schedulerInterval t with Some x => [x] | None => [] end
               else []) /\
  (length (ticking t) <= 1)%nat /\
  (isRunning t = true <-> exists x, ticking t = [x]) /\
  isRunning t = match last calls with Some Start => true | _ => false end.
Proof.
  cbv zeta.
  assert (Hstate : timerState (fold_left timerCall calls SchedulerTimer_new) /\
                   isRunning (fold_left timerCall calls SchedulerTimer_new)
                   = match last calls with Some Start => true | _ => false end).
  { induction calls as [|c calls IH] using rev_ind.
    - split; [|reflexivity]. apply timerIdle; [reflexivity|reflexivity|discriminate].
    - rewrite fold_left_app, last_snoc. cbn [fold_left].
      destruct IH as [IH _]. destruct (timerCall_state _ c IH) as [Hst Hrun].
      split; [exact Hst|]. rewrite Hrun. destruct c; reflexivity. }
  destruct Hstate as [[Hidle Htick Hbound|x Hrun Hint Htick Hbound] Hlast].
  - rewrite <- Hlast, Hidle, Htick.
    split; [reflexivity|]. split; [cbn; lia|]. split; [|reflexivity].
    split; [discriminate|]. intros [x Hx]. discriminate Hx.
  - rewrite <- Hlast, Hrun, Hint, Htick.
    split; [reflexivity|]. split; [cbn; lia|]. split; [|reflexivity].
    split; [|reflexivity]. intros _. exists x. reflexivity.
Qed.

(** ** Jobs over several ticks *)

Lemma jobsStarted_app (a b : list SchedulerEvent) :
  jobsStarted (a ++ b) = jobsStarted a ++ jobsStarted b.
Proof. apply omap_app. Qed.

Lemma filter_keys_In (P : string * Job.t -> bool) (m : list (string * Job.t)) (x : string) :
  In x (map fst (List.filter P m)) -> In x (map fst m).
Proof.
  intros Hin. apply in_map_iff in Hin. destruct Hin as (e & <- & He).
  apply filter_In in He. apply in_map. tauto.
Qed.

Lemma filter_keys_NoDup (P : string * Job.t -> bool) (m : list (string * Job.t)) :
  List.NoDup (map fst m) -> List.NoDup (map fst (List.filter P m)).
Proof.
  induction m as [|e m IH]; cbn [map List.filter]; [auto|].
  intros Hnd. apply NoDup_cons_iff in Hnd. destruct Hnd as [Hnot Hnd].
  destruct (P e); cbn [map]; [|auto].
  apply List.NoDup_cons; [|auto]. intros Hin. apply Hnot. eapply filter_keys_In. exact Hin.
Qed.

(** With distinct keys, a key selected by two tests names one entry that
    passes both. *)
Lemma filter_keys_both (P Q : string * Job.t -> bool) (m : list (string * Job.t)) (x : string) :
  List.NoDup (map fst m) ->
  In x (map fst (List.filter P m)) -> In x (map fst (List.filter Q m)) ->
  exists e, In e m /\ e.1 = x /\ P e = true /\ Q e = true.
Proof.
  induction m as [|e m IH]; cbn [map List.filter]; [intros _ []|].
  intros Hnd HP HQ. apply NoDup_cons_iff in Hnd. destruct Hnd as [Hnot Hnd].
  destruct (string_dec e.1 x) as [Heq|Hne].
  - assert (HPe : P e = true).
    { destruct (P e); [reflexivity|]. exfalso. apply Hnot. rewrite Heq.
      eapply filter_keys_In. exact HP. }
    assert (HQe : Q e = true).
    { destruct (Q e); [reflexivity|]. exfalso. apply Hnot. rewrite Heq.
      eapply filter_keys_In. exact HQ. }
    exists e. repeat split; [left; reflexivity|assumption..].
  - assert (HP' : In x (map fst (List.filter P m))).
    { destruct (P e); [|exact HP]. destruct HP as [H|H]; [contradiction|exact H]. }
    assert (HQ' : In x (map fst (List.filter Q m))).
    { destruct (Q e); [|exact HQ]. destruct HQ as [H|H]; [contradiction|exact H]. }
    destruct (IH Hnd HP' HQ') as (e' & Hin & Hrest). exists e'. split; [right; exact Hin|exact Hrest].
Qed.

Lemma scheduledIds_mapDelete (key : string) (m : list (string * Job.t)) (x : string) :
  In x (scheduledIds (mapDelete key m)) -> In x (scheduledIds m).
Proof.
  unfold scheduledIds. induction m as [|[k v] m IH]; cbn [mapDelete]; [auto|].
  destruct (decide (k = key)); cbn [List.filter snd].
  - intros Hin. destruct (Job.isScheduled v); [right|]; auto.
  - destruct (Job.isScheduled v); cbn [map fst In]; [|exact IH].
    intros [H|H]; [left; exact H|right; auto].
Qed.

Lemma scheduledIds_fireDeletions (t : Z) (s : UploadScheduler) (x : string) :
  In x (scheduledIds (scheduledJobs (fireDeletions t s))) -> In x (scheduledIds (scheduledJobs s)).
Proof.
  unfold fireDeletions. cbn [scheduledJobs].
  generalize (scheduledJobs s). induction (pendingDeletions s) as [|d dels IH]; intros m;
    cbn [fold_left]; [auto|].
  intros Hin. apply IH in Hin. destruct (d.1 <=? t); [|exact Hin].
  apply scheduledIds_mapDelete in Hin. exact Hin.
Qed.

Section AtMostOnce.

Context {Env : Type}.
Variable clockOf : Env -> Z.
Variable runBatch : VideoClip -> Env -> (string + BatchResult) * VideoClip * Env.

(** The body of the loop starts a batch for a job exactly when the job is
    due, and a job for which it has started one is no longer [scheduled]. *)
Lemma checkJob_started (now : Z) (jobId : string) (job : Job.t) (env : Env) :
  let one := checkJob clockOf runBatch now jobId job env in
  jobsStarted one.2 = (if isDue now job then [jobId] else []) /\
  Job.isScheduled one.1.1.1 = Job.isScheduled job && negb (isDue now job).
Proof.
  cbv zeta. unfold checkJob, isDue.
  destruct (Job.isScheduled job && Js.dateLe (Job.scheduleTime job) now) eqn:Hdue.
  - apply andb_prop in Hdue. destruct Hdue as [Hs _]. rewrite Hs.
    destruct (runBatch (Job.clip job) env).1.1; split; reflexivity.
  - split; [reflexivity|]. cbn [fst]. rewrite andb_true_r. reflexivity.
Qed.

Lemma checkJobs_started (now : Z) (l : list (string * Job.t)) :
  forall env : Env,
    let out := checkJobs clockOf runBatch now l env in
    jobsStarted out.2 = map fst (List.filter (fun e => isDue now e.2) l) /\
    scheduledIds out.1.1.1
    = map fst (List.filter (fun e => Job.isScheduled e.2 && negb (isDue now e.2)) l).
Proof.
  induction l as [|[jobId job] l IH]; intros env; [split; reflexivity|].
  cbv zeta. cbn [checkJobs fst snd List.filter].
  destruct (checkJob_started now jobId job env) as [Hstart Hstatus]. cbv zeta in Hstart, Hstatus.
  destruct (IH (checkJob clockOf runBatch now jobId job env).1.1.2) as [IH1 IH2].
  cbv zeta in IH1, IH2.
  rewrite jobsStarted_app, Hstart, IH1. unfold scheduledIds in *. cbn [List.filter snd].
  rewrite Hstatus.
  split.
  - destruct (isDue now job); reflexivity.
  - destruct (Job.isScheduled job && negb (isDue now job)); cbn [map fst];
      rewrite IH2; reflexivity.
Qed.

(** One tick: the jobs it starts were [scheduled], each is started once,
    and none of them is [scheduled] afterwards. *)
Lemma tick_started (s : UploadScheduler) (env : Env) :
  List.NoDup (activeIds s) ->
  let out := checkScheduledJobs clockOf runBatch s env in
  List.NoDup (jobsStarted out.2) /\
  (forall x, In x (jobsStarted out.2) -> In x (scheduledIds (scheduledJobs s))) /\
  (forall x, In x (scheduledIds (scheduledJobs out.1.1)) ->
             In x (scheduledIds (scheduledJobs s)) /\ ~ In x (jobsStarted out.2)).
Proof.
  intros Hnd. cbv zeta. unfold checkScheduledJobs. cbn [fst snd scheduledJobs].
  destruct (checkJobs_started (clockOf env) (scheduledJobs s) env) as [Hstart Hleft].
  cbv zeta in Hstart, Hleft. rewrite Hstart, Hleft. unfold activeIds in Hnd.
  split; [apply filter_keys_NoDup; exact Hnd|]. split.
  - intros x Hin. unfold scheduledIds.
    apply in_map_iff in Hin. destruct Hin as (e & <- & He). apply filter_In in He.
    destruct He as [Hin Hdue]. unfold isDue in Hdue. apply andb_prop in Hdue.
    apply in_map. apply filter_In. tauto.
  - intros x Hin. split.
    + unfold scheduledIds.
      apply in_map_iff in Hin. destruct Hin as (e & <- & He). apply filter_In in He.
      destruct He as [Hin Hs]. apply andb_prop in Hs. apply in_map. apply filter_In. tauto.
    + intros Hdue.
      destruct (filter_keys_both _ _ _ x Hnd Hin Hdue) as (e & _ & _ & H1 & H2).
      cbn beta in H1, H2. rewrite H2 in H1. cbn in H1. rewrite andb_false_r in H1.
      discriminate H1.
Qed.

Lemma schedulerSteps_started (steps : list SchedulerStep) :
  forall (s : UploadScheduler) (env : Env),
    List.NoDup (activeIds s) ->
    let out := schedulerSteps clockOf runBatch steps s env in
    List.NoDup (jobsStarted out.2) /\
    (forall x, In x (jobsStarted out.2) -> In x (scheduledIds (scheduledJobs s))).
Proof.
  induction steps as [|[moveOn|t] steps IH]; intros s env Hnd; cbv zeta.
  - split; [apply List.NoDup_nil|intros x []].
  - cbn [schedulerSteps fst snd].
    destruct (tick_started s (moveOn env) Hnd) as (Hnd1 & Hwas & Hleft).
    set (out := checkScheduledJobs clockOf runBatch s (moveOn env)) in *.
    assert (Hnd' : List.NoDup (activeIds out.1.1))
      by (subst out; rewrite checkScheduledJobs_activeIds; exact Hnd).
    destruct (IH out.1.1 out.1.2 Hnd') as (Hnd2 & Hwas2).
    rewrite jobsStarted_app. split.
    + apply NoDup_ListNoDup. apply NoDup_app.
      split; [apply NoDup_ListNoDup; exact Hnd1|].
      split; [|apply NoDup_ListNoDup; exact Hnd2].
      intros x Hx Hx'. apply list_elem_of_In in Hx, Hx'.
      apply Hwas2 in Hx'. apply Hleft in Hx'. tauto.
    + intros x Hx. apply in_app_or in Hx. destruct Hx as [Hx|Hx]; [auto|].
      apply Hwas2 in Hx. apply Hleft in Hx. tauto.
  - cbn [schedulerSteps].
    destruct (IH (fireDeletions t s) env (fireDeletions_distinct t s Hnd)) as (Hnd2 & Hwas2).
    split; [exact Hnd2|]. intros x Hx. apply Hwas2 in Hx.
    apply scheduledIds_fireDeletions in Hx. exact Hx.
Qed.

(** X14: a job is executed at most once.  Over any series of ticks, with
    the environment moving on between them in any way and the deletions
    firing at any instants, no job id has a batch started for it twice, and
    a batch is started only for a job that was [scheduled] at the
    beginning. *)
Theorem job_runs_at_most_once (steps : list SchedulerStep) (s : UploadScheduler) (env : Env) :
  List.NoDup (activeIds s) ->
  let out := schedulerSteps clockOf runBatch steps s env in
  List.NoDup (jobsStarted out.2) /\
  (forall x, In x (jobsStarted out.2) -> In x (scheduledIds (scheduledJobs s))).
Proof. apply schedulerSteps_started. Qed.

End AtMostOnce.

Lemma job_runs_at_most_once_witness :
  List.NoDup
    (jobsStarted
       (schedulerSteps Sample.clockOf Sample.runBatch
          [Tick (fun env => env); Tick (fun env => env); Fire 99999999999;
           Tick (fun env => env)]
          Sample.scheduler (Sample.world 60000, [])).2) /\
  forall x,
    In x (jobsStarted
            (schedulerSteps Sample.clockOf Sample.runBatch
               [Tick (fun env => env); Tick (fun env => env); Fire 99999999999;
                Tick (fun env => env)]
               Sample.scheduler (Sample.world 60000, [])).2) ->
    In x ["job_a"%string].
Proof.
  apply (job_runs_at_most_once Sample.clockOf Sample.runBatch
           [Tick (fun env => env); Tick (fun env => env); Fire 99999999999;
            Tick (fun env => env)]
           Sample.scheduler (Sample.world 60000, [])).
  vm_compute. apply List.NoDup_cons; [intros [H|[]]; discriminate H|].
  apply List.NoDup_cons; [intros []|apply List.NoDup_nil].
Defined.

(** ** The scheduler running the orchestrator *)

Section JobsComplete.

Context {PlatformState : Type}.
Variable upload : string -> VideoClip -> PlatformState -> UploadReturn * PlatformState * Z.
Variable randomDelay : nat -> Z.
Variable CONFIG : Config.
Variable fs : FileSystem.
Variable freshInstances : PlatformState -> PlatformState.




End JobsComplete.


(** ** Titles from file names *)

Lemma string_of_list_ascii_length (l : list ascii) :
  String.length (string_of_list_ascii l) = length l.
Proof. induction l as [|a l IH]; cbn; [reflexivity|rewrite IH; reflexivity]. Qed.

Lemma list_ascii_of_string_length (s : string) :
  length (list_ascii_of_string s) = String.length s.
Proof. induction s as [|a s IH]; cbn; [reflexivity|rewrite IH; reflexivity]. Qed.

Lemma capitalizeWords_length (l : list ascii) :
  forall inWord, length (capitalizeWords inWord l) = length l.
Proof. induction l as [|a l IH]; intros inWord; cbn; [reflexivity|rewrite IH; reflexivity]. Qed.

(** The upper case of a word character is a word character other than the
    underscore unless the character is the underscore, is not white space,
    and is its own upper case. *)
Lemma upperWordChar_facts (a : ascii) :
  Js.isWordChar (Js.upperWordChar a) = Js.isWordChar a /\
  Js.upperWordChar (Js.upperWordChar a) = Js.upperWordChar a /\
  Ascii.eqb (Js.upperWordChar a) "_" = Ascii.eqb a "_" /\
  (Js.isWordChar a = true -> Js.isSpace a = false /\ Js.isSpace (Js.upperWordChar a) = false).
Proof.
  destruct a as [b0 b1 b2 b3 b4 b5 b6 b7].
  destruct b0, b1, b2, b3, b4, b5, b6, b7; vm_compute; repeat split; congruence.
Qed.

Lemma capitalizeWords_idempotent (l : list ascii) :
  forall inWord, capitalizeWords inWord (capitalizeWords inWord l) = capitalizeWords inWord l.
Proof.
  induction l as [|a l IH]; intros inWord; cbn [capitalizeWords]; [reflexivity|].
  destruct (upperWordChar_facts a) as (Hw & Hu & _ & _).
  destruct (Js.isWordChar a && negb inWord) eqn:Hcap.
  - rewrite Hw, Hcap, Hu, IH. reflexivity.
  - rewrite Hcap, IH. reflexivity.
Qed.

Lemma underscoresToSpaces_clean (l : list ascii) :
  Forall (fun a => Ascii.eqb a "_" = false) (underscoresToSpaces l).
Proof.
  induction l as [|a l IH]; cbn [underscoresToSpaces map]; constructor; [|exact IH].
  destruct (Ascii.eqb a "_") eqn:Ha; [reflexivity|exact Ha].
Qed.

Lemma capitalizeWords_clean (l : list ascii) :
  forall inWord,
    Forall (fun a => Ascii.eqb a "_" = false) l ->
    Forall (fun a => Ascii.eqb a "_" = false) (capitalizeWords inWord l).
Proof.
  induction l as [|a l IH]; intros inWord Hl; cbn [capitalizeWords]; [constructor|].
  apply Forall_cons_iff in Hl. destruct Hl as [Ha Hl].
  constructor; [|apply IH; exact Hl].
  destruct (Js.isWordChar a && negb inWord); [|exact Ha].
  destruct (upperWordChar_facts a) as (_ & _ & -> & _). exact Ha.
Qed.

Lemma underscoresToSpaces_fixed (l : list ascii) :
  Forall (fun a => Ascii.eqb a "_" = false) l -> underscoresToSpaces l = l.
Proof.
  induction 1 as [|a l Ha _ IH]; cbn [underscoresToSpaces map]; [reflexivity|].
  rewrite Ha. f_equal. exact IH.
Qed.

Lemma capitalizeWords_blank (l : list ascii) :
  forall inWord, forallb Js.isSpace (capitalizeWords inWord l) = forallb Js.isSpace l.
Proof.
  induction l as [|a l IH]; intros inWord; cbn [capitalizeWords forallb]; [reflexivity|].
  rewrite IH. f_equal.
  destruct (Js.isWordChar a) eqn:Hw; cbn [andb]; [|reflexivity].
  destruct (upperWordChar_facts a) as (_ & _ & _ & Hs). destruct (Hs Hw) as [H1 H2].
  destruct (negb inWord); congruence.
Qed.

(** X16: the title that [uploadFromFolder] derives from a file name has
    the length of the name and no underscore, and deriving a title from a
    title changes nothing.  It is blank, so that the clip fails validation
    for want of a title, exactly when the name is made of white space and
    underscores only. *)
Theorem titleOf_properties (filename : string) :
  String.length (titleOf filename) = String.length filename /\
  Forall (fun a => a <> "_"%char) (list_ascii_of_string (titleOf filename)) /\
  titleOf (titleOf filename) = titleOf filename /\
  blankTitle (titleOf filename)
  = forallb (fun a => Js.isSpace a || Ascii.eqb a "_") (list_ascii_of_string filename).
Proof.
  unfold titleOf, blankTitle.
  rewrite !list_ascii_of_string_of_list_ascii.
  set (l := list_ascii_of_string filename).
  pose proof (capitalizeWords_clean _ false (underscoresToSpaces_clean l)) as Hclean.
  split; [|split; [|split]].
  - rewrite string_of_list_ascii_length, capitalizeWords_length.
    unfold underscoresToSpaces. rewrite length_map. apply list_ascii_of_string_length.
  - eapply Forall_impl; [exact Hclean|]. cbn beta. intros a Ha ->. discriminate Ha.
  - rewrite underscoresToSpaces_fixed by exact Hclean.
    rewrite capitalizeWords_idempotent. reflexivity.
  - rewrite capitalizeWords_blank. unfold underscoresToSpaces.
    clear Hclean. clearbody l.
    induction l as [|a l IH]; cbn [map forallb]; [reflexivity|].
    rewrite IH. f_equal.
    destruct (Ascii.eqb a "_") eqn:Ha; [rewrite orb_true_r|rewrite orb_false_r]; reflexivity.
Qed.

(** ** The other entry points *)




Section EntryPointProperties.

Context {PlatformState : Type}.
Variable upload : string -> VideoClip -> PlatformState -> UploadReturn * PlatformState * Z.
Variable randomDelay : nat -> Z.
Variable CONFIG : Config.
Variable SETTINGS : Settings.
Variable fs : FileSystem.
Variable suffixes : nat -> string.
Variable readdirSync : string -> string + list string.
Variable pathJoin : string -> string -> string.
Variable pathBasename : string -> string -> string.



End EntryPointProperties.



(** ** Credentials and uploaders *)

Lemma flat_map_nil_In {A B : Type} (f : A -> list B) (l : list A) (x : A) :
  flat_map f l = [] -> In x l -> f x = [].
Proof.
  induction l as [|a l IH]; cbn [flat_map]; [intros _ []|].
  intros Happ [<-|Hin]; apply app_eq_nil in Happ; [tauto|apply IH; tauto].
Qed.

Lemma missingFor_youtube (c : Config) (s : Settings) :
  missingFor (CONFIG_properties c s) "youtube"
  = map (fun e => "YOUTUBE" +:+ " " +:+ e.1)
      (List.filter (fun e => looksUnset e.2)
         [("CLIENT_ID"%string, YOUTUBE_CLIENT_ID s);
          ("CLIENT_SECRET"%string, YOUTUBE_CLIENT_SECRET s);
          ("REDIRECT_URI"%string, YOUTUBE_REDIRECT_URI s)]).
Proof. reflexivity. Qed.

Lemma missingFor_instagram (c : Config) (s : Settings) :
  missingFor (CONFIG_properties c s) "instagram"
  = map (fun e => "INSTAGRAM" +:+ " " +:+ e.1)
      (List.filter (fun e => looksUnset e.2)
         [("ACCESS_TOKEN"%string, INSTAGRAM_ACCESS_TOKEN s);
          ("BUSINESS_ACCOUNT_ID"%string, INSTAGRAM_BUSINESS_ACCOUNT_ID s)]).
Proof. reflexivity. Qed.

Lemma missingFor_twitter (c : Config) (s : Settings) :
  missingFor (CONFIG_properties c s) "twitter"
  = map (fun e => "TWITTER" +:+ " " +:+ e.1)
      (List.filter (fun e => looksUnset e.2)
         [("API_KEY"%string, TWITTER_API_KEY s);
          ("API_SECRET"%string, TWITTER_API_SECRET s);
          ("ACCESS_TOKEN"%string, TWITTER_ACCESS_TOKEN s);
          ("ACCESS_TOKEN_SECRET"%string, TWITTER_ACCESS_TOKEN_SECRET s)]).
Proof. reflexivity. Qed.

Lemma first_entry_set (props : list (string * string)) (prefix key value : string) :
  map (fun e => prefix +:+ " " +:+ e.1)
    (List.filter (fun e => looksUnset e.2) ((key, value) :: props)) = [] ->
  looksUnset value = false.
Proof.
  cbn [List.filter snd]. destruct (looksUnset value); [discriminate|reflexivity].
Qed.

(** X19: when [validateCredentials] reports nothing, no configured
    uploader refuses to authenticate for want of credentials: the YouTube
    and Twitter uploaders authenticate, and the Instagram uploader does as
    soon as the verification of its token goes through.  (The TikTok and
    LinkedIn uploaders authenticate whatever the credentials.) *)
Theorem validateCredentials_clears_uploaders (c : Config) (s : Settings) :
  validateCredentials c s = [] ->
  (In "youtube"%string (PLATFORMS_TO_UPLOAD c) ->
   forall authenticated, YouTubeUploader_authenticate s authenticated = (true, true)) /\
  (In "twitter"%string (PLATFORMS_TO_UPLOAD c) ->
   forall authenticated, TwitterUploader_authenticate s authenticated = (true, true)) /\
  (In "instagram"%string (PLATFORMS_TO_UPLOAD c) ->
   forall authenticated,
     InstagramUploader_authenticate s true authenticated = (true, true)) /\
  (forall authenticated,
     TikTokUploader_authenticate authenticated = (true, true) /\
     LinkedInUploader_authenticate authenticated = (true, true)).
Proof.
  intros Hnone. unfold validateCredentials in Hnone.
  split; [|split; [|split]].
  - intros Hin authenticated.
    pose proof (flat_map_nil_In _ _ _ Hnone Hin) as H. rewrite missingFor_youtube in H.
    apply first_entry_set in H. unfold YouTubeUploader_authenticate.
    destruct (String.eqb_spec (YOUTUBE_CLIENT_ID s) "your_youtube_client_id_here") as [Heq|_];
      [|reflexivity].
    rewrite Heq in H. vm_compute in H. discriminate H.
  - intros Hin authenticated.
    pose proof (flat_map_nil_In _ _ _ Hnone Hin) as H. rewrite missingFor_twitter in H.
    apply first_entry_set in H. unfold TwitterUploader_authenticate.
    assert (Hne : Js.isEmpty (TWITTER_API_KEY s) = false).
    { unfold looksUnset in H. destruct (Js.isEmpty (TWITTER_API_KEY s)); [discriminate H|reflexivity]. }
    rewrite Hne. cbn [orb].
    destruct (String.eqb_spec (TWITTER_API_KEY s) "your_twitter_api_key_here") as [Heq|_];
      [|reflexivity].
    rewrite Heq in H. vm_compute in H. discriminate H.
  - intros Hin authenticated.
    pose proof (flat_map_nil_In _ _ _ Hnone Hin) as H. rewrite missingFor_instagram in H.
    apply first_entry_set in H. unfold InstagramUploader_authenticate.
    assert (Hne : Js.isEmpty (INSTAGRAM_ACCESS_TOKEN s) = false).
    { unfold looksUnset in H.
      destruct (Js.isEmpty (INSTAGRAM_ACCESS_TOKEN s)); [discriminate H|reflexivity]. }
    rewrite Hne. cbn [orb].
    destruct (String.eqb_spec (INSTAGRAM_ACCESS_TOKEN s)
                "your_instagram_long_lived_access_token_here") as [Heq|_]; [|reflexivity].
    rewrite Heq in H. vm_compute in H. discriminate H.
  - intros authenticated. split; reflexivity.
Qed.

Lemma validateCredentials_clears_uploaders_witness :
  YouTubeUploader_authenticate Demo.filled false = (true, true) /\
  validateCredentials CONFIG_source Demo.settings
  = ["YOUTUBE CLIENT_ID"%string; "YOUTUBE CLIENT_SECRET"%string;
     "INSTAGRAM ACCESS_TOKEN"%string; "INSTAGRAM BUSINESS_ACCOUNT_ID"%string;
     "TIKTOK CLIENT_KEY"%string; "TIKTOK CLIENT_SECRET"%string].
Proof.
  split; [|vm_compute; reflexivity].
  destruct (validateCredentials_clears_uploaders CONFIG_source Demo.filled) as (Hyt & _).
  - vm_compute. reflexivity.
  - apply Hyt. left. reflexivity.
Defined.

Section RegistryUploads.

Variable SETTINGS : Settings.
Variable clockRead : nat -> Z.
Variable tokenAccepted : nat -> bool.



End RegistryUploads.


Section Refusals.

Context {PlatformState : Type}.
Variable upload : string -> VideoClip -> PlatformState -> UploadReturn * PlatformState * Z.

(** The loop of [uploadWithRetry] on an operation that throws the same
    message for as long as a property of the platforms holds, which its
    throwing keeps. *)
Lemma attemptsFrom_refused (holds : PlatformState -> Prop) (platform name : string)
    (clip : VideoClip) (maxRetries : nat) (m : string) :
  (forall st, holds st ->
     exists st' d, upload platform clip st = (Throws m, st', d) /\ holds st') ->
  forall (remaining attempt : nat) (lastError : option string) (w : World PlatformState),
    holds (platformState w) ->
    let out := attemptsFrom upload platform name clip maxRetries remaining attempt lastError w in
    length (invocations out.2) = remaining /\
    UploadResult.success out.1.1 = false /\
    UploadResult.error out.1.1 = match remaining with O => lastError | S _ => Some m end /\
    holds (platformState out.1.2).
Proof.
  intros Hthrows. induction remaining as [|r IH]; intros attempt lastError w Hw; cbv zeta.
  - unfold attemptsFrom, bind, now, ret. cbn. repeat split. exact Hw.
  - rewrite attemptsFrom_S. cbn zeta. rewrite rateLimit_platformState.
    destruct (Hthrows (platformState w) Hw) as (st & d & -> & Hst). cbn [fst snd].
    assert (Hnext : forall w2, platformState w2 = st ->
              forall pre, invocations pre = [(platform, attempt, Throws m)] ->
              let rest := attemptsFrom upload platform name clip maxRetries r (S attempt)
                            (Some m) w2 in
              length (invocations (pre ++ rest.2)) = S r /\
              UploadResult.success rest.1.1 = false /\
              UploadResult.error rest.1.1 = Some m /\
              holds (platformState rest.1.2)).
    { intros w2 Hw2 pre Hpre. cbv zeta.
      destruct (IH (S attempt) (Some m) w2) as (Hlen & Hs & He & Hh); [rewrite Hw2; exact Hst|].
      rewrite invocations_app, Hpre, length_app, Hlen.
      split; [reflexivity|]. split; [exact Hs|]. split; [|exact Hh].
      rewrite He. destruct r; reflexivity. }
    destruct (attempt <? maxRetries)%nat; cbn [fst snd].
    + change (Slept ?r ?d :: ?l) with ([Slept r d] ++ l). rewrite app_assoc.
      apply Hnext; [reflexivity|].
      rewrite !invocations_app, rateLimit_invocations. reflexivity.
    + apply Hnext; [reflexivity|].
      rewrite !invocations_app, rateLimit_invocations. reflexivity.
Qed.

End Refusals.

(** Settles the comparisons of a platform key with the keys of the
    registry. *)
Ltac registry_key :=
  repeat match goal with
         | |- context [decide (?a = ?b)] =>
             let H := fresh in
             destruct (decide (a = b)) as [H|H];
             [try discriminate H|try (exfalso; apply H; reflexivity)]
         end.

Section RegistryRetries.

Variable SETTINGS : Settings.
Variable clockRead : nat -> Z.
Variable tokenAccepted : nat -> bool.

(** X21: what [uploadWithRetry] gives on the uploaders of the registry.
    An uploader whose credentials are the placeholders of the source is
    refused on every attempt: on YouTube, Instagram and Twitter all
    [maxRetries] attempts are made and the result is a failure with the
    error [<name> authentication failed].  The TikTok and LinkedIn uploaders
    succeed at the first attempt, with a mock url made from the instant the
    uploader read. *)
Theorem uploadWithRetry_on_registry (clip : VideoClip) (maxRetries : nat)
    (w : World Instances) :
  (1 <= maxRetries)%nat ->
  let run := uploadWithRetry (registryUpload SETTINGS clockRead tokenAccepted) in
  (YOUTUBE_CLIENT_ID SETTINGS = "your_youtube_client_id_here"%string ->
   youtubeAuthenticated (platformState w) = false ->
   length (invocations (run "youtube" "YouTube" clip maxRetries w).2) = maxRetries /\
   UploadResult.success (run "youtube" "YouTube" clip maxRetries w).1.1 = false /\
   UploadResult.error (run "youtube" "YouTube" clip maxRetries w).1.1
   = Some "YouTube authentication failed"%string) /\
  (INSTAGRAM_ACCESS_TOKEN SETTINGS = "your_instagram_long_lived_access_token_here"%string ->
   instagramAuthenticated (platformState w) = false ->
   length (invocations (run "instagram" "Instagram" clip maxRetries w).2) = maxRetries /\
   UploadResult.success (run "instagram" "Instagram" clip maxRetries w).1.1 = false /\
   UploadResult.error (run "instagram" "Instagram" clip maxRetries w).1.1
   = Some "Instagram authentication failed"%string) /\
  (TWITTER_API_KEY SETTINGS = "your_twitter_api_key_here"%string ->
   twitterAuthenticated (platformState w) = false ->
   length (invocations (run "twitter" "Twitter" clip maxRetries w).2) = maxRetries /\
   UploadResult.success (run "twitter" "Twitter" clip maxRetries w).1.1 = false /\
   UploadResult.error (run "twitter" "Twitter" clip maxRetries w).1.1
   = Some "Twitter authentication failed"%string) /\
  (length (invocations (run "tiktok" "TikTok" clip maxRetries w).2) = 1%nat /\
   UploadResult.success (run "tiktok" "TikTok" clip maxRetries w).1.1 = true /\
   UploadResult.url (run "tiktok" "TikTok" clip maxRetries w).1.1
   = Some ("https://tiktok.com/@user/video/"
           +:+ ("tt_" +:+ pretty (clockRead (uploadCalls (platformState w)))))) /\
  (length (invocations (run "linkedin" "LinkedIn" clip maxRetries w).2) = 1%nat /\
   UploadResult.success (run "linkedin" "LinkedIn" clip maxRetries w).1.1 = true /\
   UploadResult.url (run "linkedin" "LinkedIn" clip maxRetries w).1.1
   = Some ("https://linkedin.com/posts/"
           +:+ ("li_" +:+ pretty (clockRead (uploadCalls (platformState w)))))).
Proof.
  intros Hmax. cbv zeta. unfold uploadWithRetry.
  destruct maxRetries as [|n]; [lia|].
  split; [|split; [|split; [|split]]].
  - intros Hid Hflag.
    destruct (attemptsFrom_refused (registryUpload SETTINGS clockRead tokenAccepted)
                (fun st => youtubeAuthenticated st = false) "youtube" "YouTube" clip (S n)
                "YouTube authentication failed") with (remaining := S n) (attempt := 1%nat)
                (lastError := @None string) (w := w) as (Hlen & Hs & He & _).
    + intros st Hst. unfold registryUpload. registry_key.
      unfold YouTubeUploader_upload, guardedUpload, YouTubeUploader_authenticate.
      rewrite Hst, Hid. cbn. eexists _, _. split; [reflexivity|reflexivity].
    + exact Hflag.
    + repeat split; assumption.
  - intros Hid Hflag.
    destruct (attemptsFrom_refused (registryUpload SETTINGS clockRead tokenAccepted)
                (fun st => instagramAuthenticated st = false) "instagram" "Instagram" clip (S n)
                "Instagram authentication failed") with (remaining := S n) (attempt := 1%nat)
                (lastError := @None string) (w := w) as (Hlen & Hs & He & _).
    + intros st Hst. unfold registryUpload. registry_key.
      unfold InstagramUploader_upload, guardedUpload, InstagramUploader_authenticate.
      rewrite Hst, Hid. cbn. eexists _, _. split; [reflexivity|reflexivity].
    + exact Hflag.
    + repeat split; assumption.
  - intros Hid Hflag.
    destruct (attemptsFrom_refused (registryUpload SETTINGS clockRead tokenAccepted)
                (fun st => twitterAuthenticated st = false) "twitter" "Twitter" clip (S n)
                "Twitter authentication failed") with (remaining := S n) (attempt := 1%nat)
                (lastError := @None string) (w := w) as (Hlen & Hs & He & _).
    + intros st Hst. unfold registryUpload. registry_key.
      unfold TwitterUploader_upload, guardedUpload, TwitterUploader_authenticate.
      rewrite Hst, Hid. cbn. eexists _, _. split; [reflexivity|reflexivity].
    + exact Hflag.
    + repeat split; assumption.
  - rewrite attemptsFrom_S. cbn zeta. rewrite rateLimit_platformState.
    unfold registryUpload. registry_key.
    unfold TikTokUploader_upload, guardedUpload, TikTokUploader_authenticate.
    destruct (tiktokAuthenticated (platformState w)); cbn [fst snd];
      match goal with |- context [Js.truthy ?u] => change (Js.truthy u) with true end;
      cbv iota; cbn [fst snd];
      rewrite !invocations_app, rateLimit_invocations; repeat split.
  - rewrite attemptsFrom_S. cbn zeta. rewrite rateLimit_platformState.
    unfold registryUpload. registry_key.
    unfold LinkedInUploader_upload, guardedUpload, LinkedInUploader_authenticate.
    destruct (linkedinAuthenticated (platformState w)); cbn [fst snd];
      match goal with |- context [Js.truthy ?u] => change (Js.truthy u) with true end;
      cbv iota; cbn [fst snd];
      rewrite !invocations_app, rateLimit_invocations; repeat split.
Qed.

End RegistryRetries.

Lemma uploadWithRetry_on_registry_witness :
  UploadResult.error
    (uploadWithRetry (registryUpload Demo.settings Demo.clockRead Demo.tokenAccepted)
       "youtube" "YouTube" (Sample.clip "clip.mp4" "T" []) 3 (Demo.registryWorld 0)).1.1
  = Some "YouTube authentication failed"%string /\
  UploadResult.url
    (uploadWithRetry (registryUpload Demo.settings Demo.clockRead Demo.tokenAccepted)
       "tiktok" "TikTok" (Sample.clip "clip.mp4" "T" []) 3 (Demo.registryWorld 0)).1.1
  = Some "https://tiktok.com/@user/video/tt_1000"%string.
Proof.
  destruct (uploadWithRetry_on_registry Demo.settings Demo.clockRead Demo.tokenAccepted
              (Sample.clip "clip.mp4" "T" []) 3 (Demo.registryWorld 0))
    as (Hyt & _ & _ & Htt & _); [lia|].
  destruct (Hyt eq_refl eq_refl) as (_ & _ & Herr).
  destruct Htt as (_ & _ & Hurl).
  split; [exact Herr|rewrite Hurl; reflexivity].
Defined.

